(** * Roadmap-API: a shallow embedding of the fetch, cache, pagination and
    change-tracking core, with the properties of its specification.

  The development follows the layout of the Go sources:

  - [Go]         : the Go data the code manipulates (64-bit [int], strings
                   as rune sequences, instants, results with panics);
  - [Tracker]    : the change tracker shared (textually) by
                   [internal/hive] ([recordChanges], [Updates]) and
                   [internal/cubecraft] ([recordStatusChanges], [Updates]);
  - [Hive]       : [internal/hive/client.go] and the hive service;
  - [Cubecraft]  : [internal/cubecraft] client cache and service;
  - [HiveHandlers], [CubecraftHandlers] : the HTTP handlers [ByColumn] and
                   the readers of the query string;
  - [Notion]     : the decoding half of [cubecraft.Client.Fetch]
                   ([parseProps] and the loop over the blocks). *)

From Stdlib Require Import ZArith Lia String Ascii.
From stdpp Require Import base tactics option list numbers gmap pretty sorting.

#[local] Open Scope Z_scope.

(* ===================================================================== *)
(** * Go data *)
(* ===================================================================== *)

Module Go.

(** A Go [rune] is a Unicode code point; a Go string is modelled as the
    sequence of runes that [for _, r := range s] yields. *)
Abbreviation rune := Z.
Abbreviation gostring := (list Z).

(** String literals of the sources: all of them are ASCII. *)
Definition runes (s : string) : gostring :=
  (fun a => Z.of_N (N_of_ascii a)) <$> list_ascii_of_string s.

(** ** The machine [int] (64 bits on every platform the server targets). *)
Definition minInt : Z := - 2 ^ 63.
Definition maxInt : Z := 2 ^ 63 - 1.

(** Signed wrap-around of an out-of-range result. *)
Definition wrap (z : Z) : Z := (z + 2 ^ 63) mod 2 ^ 64 - 2 ^ 63.

Definition add (a b : Z) : Z := wrap (a + b).
Definition sub (a b : Z) : Z := wrap (a - b).
(** Go's [/] truncates towards zero. *)
Definition quot (a b : Z) : Z := wrap (Z.quot a b).

Definition inInt (z : Z) : Prop := minInt <= z <= maxInt.

(** ** Instants and durations.

    [time.Time] values obtained from [time.Now] carry a monotonic clock
    reading, and [Before], [After] compare these readings; an instant is
    modelled as its reading in nanoseconds, a [time.Duration] as a number
    of nanoseconds. *)
Abbreviation time := Z.
Abbreviation duration := Z.

Definition Nanosecond : duration := 1.
Definition Second : duration := 1000000000.
Definition Hour : duration := 3600 * Second.

Definition Add (t : time) (d : duration) : time := t + d.
Definition After (t u : time) : bool := bool_decide (u < t).
Definition Before (t u : time) : bool := bool_decide (t < u).

(** ** Results.  A Go call either returns a value, returns an [error], or
    panics (which, unrecovered in a goroutine, ends the process). *)
Inductive error : Type :=
| ErrUnknownColumn (column : gostring)   (* fmt.Errorf("unknown column: %s") *)
| ErrInvalidColumn                        (* ValidateColumn *)
| ErrNewRequest (msg : gostring)          (* http.NewRequestWithContext *)
| ErrTransport (msg : gostring)           (* httpClient.Do *)
| ErrUpstreamStatus (code : Z) (body : list Z)
| ErrRead (msg : gostring)                (* io.ReadAll *)
| ErrUnmarshal (msg : gostring).          (* json.Unmarshal *)

Inductive outcome (A : Type) : Type :=
| Ok (a : A)
| Err (e : error)
| Panic (msg : string).
Arguments Ok {A} a.
Arguments Err {A} e.
Arguments Panic {A} msg.

Definition isOk {A} (o : outcome A) : bool :=
  match o with Ok _ => true | _ => false end.
Definition isErr {A} (o : outcome A) : bool :=
  match o with Err _ => true | _ => false end.

#[global] Instance error_eq_dec : EqDecision error.
Proof. solve_decision. Defined.

(** ** Strings.  [unicode.ToLower] is a table of the standard library; the
    development is parametric in it.  [strings.ToLower] maps it over the
    string. *)
Class Unicode : Type := { unicodeToLower : rune -> rune }.

Definition ToLower `{Unicode} (s : gostring) : gostring := unicodeToLower <$> s.

(** [unicode.IsSpace]. *)
Definition isSpace (r : rune) : bool :=
  bool_decide (9 <= r <= 13) || bool_decide (r = 32)
  || bool_decide (r = 133) || bool_decide (r = 160)
  || bool_decide (r = 5760) || bool_decide (8192 <= r <= 8202)
  || bool_decide (r = 8232) || bool_decide (r = 8233)
  || bool_decide (r = 8239) || bool_decide (r = 8287)
  || bool_decide (r = 12288).

Fixpoint dropWhile {A} (f : A -> bool) (l : list A) : list A :=
  match l with
  | [] => []
  | x :: l' => if f x then dropWhile f l' else l
  end.

(** [strings.TrimSpace]. *)
Definition TrimSpace (s : gostring) : gostring :=
  reverse (dropWhile isSpace (reverse (dropWhile isSpace s))).

(** [s < t] on strings: lexicographic on bytes, which for UTF-8 is the
    lexicographic order on runes. *)
Fixpoint strLess (s t : gostring) : bool :=
  match s, t with
  | _, [] => false
  | [], _ :: _ => true
  | a :: s', b :: t' => bool_decide (a < b) || (bool_decide (a = b) && strLess s' t')
  end.

(** ** Ranging over a map.  The order in which [for k, v := range m] yields
    the entries of a map is not specified, and may differ from one loop to
    the next over the same map.  It is a choice of the run, given as a
    sequence of numbers: each number picks the next entry among those not
    yet visited (modulo their count; the first of them once the sequence
    has run out).  Every order of the entries is the order of some choice
    ([rangeOrder_complete] below). *)
Fixpoint pickOrder {A} (n : nat) (choice : list nat) (l : list A) : list A :=
  match n with
  | O => []
  | S n' =>
      let i := (hd 0 choice `mod` length l)%nat in
      match l !! i with
      | Some x => x :: pickOrder n' (tl choice) (delete i l)
      | None => []
      end
  end.

Definition rangeOrder {V} (choice : list nat) (m : gmap (list Z) V)
    : list (list Z * V) :=
  pickOrder (length (map_to_list m)) choice (map_to_list m).

End Go.

Import Go.

(* ===================================================================== *)
(** * The change tracker *)
(* ===================================================================== *)

(** [hive.service.recordChanges] / [hive.service.Updates] and
  [cubecraft.service.recordStatusChanges] / [cubecraft.service.Updates]
  are the same code over two item types ([hive.RoadmapItem] and
  [cubecraft.item]); the code reads only the fields [ID] and [Status] of an
  item.  The embedding is written once over an item type that provides
  both, and instantiated in [Hive] and [Cubecraft]. *)

Class Tracked (A : Type) : Type := {
itemID : A -> gostring;
itemStatus : A -> gostring
}.

Module Tracker.
Section Tracker.

Context {A : Type} `{Tracked A}.

(** [changeEntry] (hive) / [statusChange] (cubecraft). *)
Record changeEntry : Type := {
  At : time;
  From : gostring;
  To : gostring;
  Item : A
}.

(** The fields [prevStatus] and [updates] of a [service]; the mutex [mu]
    makes each of [record] and [Updates] one atomic transition. *)
Record state : Type := {
  prevStatus : gmap (list Z) (list Z);
  updates : list changeEntry
}.

(** [NewService]. *)
Definition empty : state := {| prevStatus := ∅; updates := [] |}.

(** [now.Add(-24 * time.Hour)]. *)
Definition retention : duration := 24 * Hour.
Definition keepAfter (now : time) : time := Add now (- retention).

(** The first loop of [record] and the loop of [Updates]:
    keep [u] when [u.At.After(keepAfter)]. *)
Definition prune (now : time) (log : list changeEntry) : list changeEntry :=
  List.filter (fun u => After (At u) (keepAfter now)) log.

(** One iteration of the second loop of [record]. *)
Definition recordItem (now : time) (s : state) (it : A) : state :=
  match prevStatus s !! itemID it with
  | None =>
      {| prevStatus := <[itemID it := itemStatus it]> (prevStatus s);
         updates := updates s |}
  | Some prev =>
      if bool_decide (prev ≠ itemStatus it) then
        {| prevStatus := <[itemID it := itemStatus it]> (prevStatus s);
           updates := updates s ++
             [ {| At := now; From := prev; To := itemStatus it; Item := it |} ] |}
      else s
  end.

(** [recordChanges] / [recordStatusChanges]; [now] is the reading of
    [time.Now()] taken at the start of the call. *)
Definition record (now : time) (items : list A) (s : state) : state :=
  foldl (recordItem now)
        {| prevStatus := prevStatus s; updates := prune now (updates s) |}
        items.

(** [Updates]: returns the pruned copy, the log itself is not modified. *)
Definition Updates (now : time) (s : state) : list changeEntry :=
  prune now (updates s).

(** A history of calls on one service, in the order in which they enter the
    critical section, each with its clock reading. *)
Inductive call : Type :=
| CallRecord (now : time) (items : list A)
| CallUpdates (now : time).

Definition callTime (c : call) : time :=
  match c with CallRecord now _ => now | CallUpdates now => now end.

(** Runs a history; returns the final state and what each [Updates]
    returned, oldest first. *)
Fixpoint exec (cs : list call) (s : state) : state * list (list changeEntry) :=
  match cs with
  | [] => (s, [])
  | CallRecord now items :: cs' => exec cs' (record now items s)
  | CallUpdates now :: cs' =>
      let '(s', outs) := exec cs' s in (s', Updates now s :: outs)
  end.

(** Clock readings of a history never go back. *)
Fixpoint monotone (t : time) (cs : list call) : Prop :=
  match cs with
  | [] => True
  | c :: cs' => t <= callTime c /\ monotone (callTime c) cs'
  end.

(** The clock readings of the [record] calls of a history, in the order in
    which these calls enter the critical section; the readings of the
    [Updates] calls play no part in what the log holds. *)
Definition recordTimes (cs : list call) : list time :=
  omap (fun c => match c with
                 | CallRecord now _ => Some now
                 | CallUpdates _ => None
                 end) cs.

(** The two properties of a log. *)
Definition distinctEnds (log : list changeEntry) : Prop :=
  Forall (fun u => From u ≠ To u) log.

Definition chronological (log : list changeEntry) : Prop :=
  StronglySorted (fun u v => At u <= At v) log.

(** Items of one result set agree on the status of an identifier. *)
Definition consistent (items : list A) : Prop :=
  forall a b, a ∈ items -> b ∈ items -> itemID a = itemID b ->
    itemStatus a = itemStatus b.

End Tracker.
Arguments changeEntry A : clear implicits.
Arguments state A : clear implicits.
Arguments call A : clear implicits.
End Tracker.

(* ===================================================================== *)
(** * internal/hive *)
(* ===================================================================== *)

Module Hive.

(** ** models.go *)

Module postStatus.
Record t : Type := { Name : gostring }.
End postStatus.

Module postCategory.
Record t : Type := { Name : gmap (list Z) (list Z) }.
End postCategory.

(** [Translations] and [User] are decoded and never read. *)
Module hiveSubmission.
Record t : Type := {
  ID : gostring;
  Slug : gostring;
  Title : gostring;
  ContentHTML : gostring;
  Upvotes : Z;
  Date : gostring;
  LastModified : gostring;
  Pinned : bool;
  Eta : option gostring;
  PostStatus : option postStatus.t;
  PostCategory : option postCategory.t
}.
End hiveSubmission.

Module hiveResponse.
Record t : Type := {
  Results : list hiveSubmission.t;
  Page : Z;
  Limit : Z;
  TotalPages : Z;
  TotalResults : Z
}.
(** The zero value [hiveResponse{}]. *)
Definition zero : t :=
  {| Results := []; Page := 0; Limit := 0; TotalPages := 0; TotalResults := 0 |}.
End hiveResponse.

Module RoadmapItem.
Record t : Type := {
  ID : gostring;
  Slug : gostring;
  Title : gostring;
  Status : gostring;
  Category : gostring;
  Upvotes : Z;
  Date : gostring;
  LastModified : gostring;
  Pinned : bool;
  ETA : gostring;
  ContentHTML : gostring;
  ContentText : gostring;
  Page : Z;
  Network : gostring;
  ProjectLead : gostring;
  URL : gostring
}.
End RoadmapItem.

Module PageMeta.
Record t : Type := {
  Page : Z;
  Limit : Z;
  TotalPages : Z;
  TotalResults : Z
}.
End PageMeta.

Module RoadmapPage.
Record t : Type := {
  Meta : PageMeta.t;
  Items : list RoadmapItem.t
}.
End RoadmapPage.

#[global] Instance RoadmapItem_tracked : Tracked RoadmapItem.t :=
  {| itemID := RoadmapItem.ID; itemStatus := RoadmapItem.Status |}.

(** ** client.go *)

(** The standard-library functions the client calls and whose code is not
    part of the repository. *)
Class Lib : Type := {
  (** [url.Parse(s)] returns a URL (and not [nil] with an error). *)
  urlParses : gostring -> bool;
  (** [u.RawQuery = params.Encode(); u.String()] for [u] parsed from the
      first argument and [params] holding the given pairs. *)
  urlWithQuery : gostring -> list (gostring * gostring) -> gostring;
  (** [json.Unmarshal(raw, &hr)]: the decoded response, or [None] on error. *)
  jsonUnmarshal : list Z -> option hiveResponse.t
}.

Definition DefaultBaseURL : gostring :=
  runes "https://updates.playhive.com/api/v1/submission".

Definition columnToStatusID : gmap (list Z) (list Z) :=
  list_to_map [
    (runes "in-progress", runes "673d43b2b479f2dff6f8b96e");
    (runes "coming-next", runes "673d43a8b479f2dff6f8b74b");
    (runes "released", runes "67489361029fa6e5e4579b21") ].

Module cacheEntry.
Record t : Type := { body : list Z; expiresAt : time }.
End cacheEntry.

(** [httpClient] is modelled by what it has done: the URLs of the requests
    it has sent upstream, oldest first.  [cache] is the [sync.Map]. *)
Module Client.
Record t : Type := {
  baseURL : gostring;
  httpClient : list gostring;
  cache : gmap (list Z) cacheEntry.t;
  cacheTTL : duration;
  maxConcurrency : Z
}.
Definition withCache (c : t) (m : gmap (list Z) cacheEntry.t) : t :=
  {| baseURL := baseURL c; httpClient := httpClient c; cache := m;
     cacheTTL := cacheTTL c; maxConcurrency := maxConcurrency c |}.
Definition withSent (c : t) (u : gostring) : t :=
  {| baseURL := baseURL c; httpClient := httpClient c ++ [u]; cache := cache c;
     cacheTTL := cacheTTL c; maxConcurrency := maxConcurrency c |}.
End Client.

Definition ClientOption : Type := Client.t -> Client.t.

Definition WithCacheTTL (ttl : duration) : ClientOption :=
  fun c =>
    {| Client.baseURL := Client.baseURL c; Client.httpClient := Client.httpClient c;
       Client.cache := Client.cache c; Client.cacheTTL := ttl;
       Client.maxConcurrency := Client.maxConcurrency c |}.

Definition WithMaxConcurrency (n : Z) : ClientOption :=
  fun c =>
    let n := if bool_decide (n < 1) then 1 else n in
    {| Client.baseURL := Client.baseURL c; Client.httpClient := Client.httpClient c;
       Client.cache := Client.cache c; Client.cacheTTL := Client.cacheTTL c;
       Client.maxConcurrency := n |}.

Definition NewClient (baseURL : gostring) (opts : list ClientOption) : Client.t :=
  foldl (fun c o => o c)
        {| Client.baseURL := baseURL; Client.httpClient := []; Client.cache := ∅;
           Client.cacheTTL := 0; Client.maxConcurrency := 2 |}
        opts.

Module Query.
Record t : Type := {
  Column : gostring;
  Page : Z;
  SortBy : gostring;
  InReview : bool;
  IncludePinned : bool;
  Raw : bool;
  BypassCache : bool
}.
Definition withPage (q : t) (p : Z) : t :=
  {| Column := Column q; Page := p; SortBy := SortBy q; InReview := InReview q;
     IncludePinned := IncludePinned q; Raw := Raw q; BypassCache := BypassCache q |}.
Definition withSortBy (q : t) (s : gostring) : t :=
  {| Column := Column q; Page := Page q; SortBy := s; InReview := InReview q;
     IncludePinned := IncludePinned q; Raw := Raw q; BypassCache := BypassCache q |}.
End Query.

(** What the world answers to one call of [get]: the clock reading at the
    cache check, what becomes of the request, and the clock reading when the
    response is stored. *)
Inductive httpResult : Type :=
| NewRequestFails (msg : gostring)     (* no request leaves *)
| DoFails (msg : gostring)             (* httpClient.Do returns an error *)
| Response (status : Z) (payload : list Z) (readErr : option gostring).

Record getEnv : Type := {
  checkedAt : time;
  reply : httpResult;
  storedAt : time
}.

(** The call log of [FetchAllPages]: page asked for and result of each call
    of [FetchPage], in the order in which the calls returned. *)
Definition callLog : Type := list (Z * outcome hiveResponse.t).

Module pool.
Record t : Type := {
  client : Client.t;
  jobs : list Z;
  busy : list Z;
  results : list hiveResponse.t;
  firstErr : option error;
  calls : callLog;
  panicked : option string
}.
End pool.

Inductive event : Type :=
| Receive
| Return (k : nat) (env : getEnv).

Module fetchAll.
Record t : Type := {
  result : outcome (list hiveResponse.t);
  client : Client.t;
  calls : callLog
}.
End fetchAll.

Module service.
Record t : Type := {
  client : Client.t;
  tracker : Tracker.state RoadmapItem.t
}.
End service.

(** The data [Handlers.ByColumn] answers with. *)
Inductive answer : Type :=
| BadRequest (e : error)
| BadGateway (e : error)
| StatusOK (pages : list RoadmapPage.t)
| Crash (msg : string).

Section WithLib.
Context `{Unicode} `{Lib}.

(** [strconv.FormatBool], [strconv.Itoa]. *)
Definition FormatBool (b : bool) : gostring :=
  if b then runes "true" else runes "false".
Definition Itoa (n : Z) : gostring := runes (pretty n).

Definition statusID (q : Query.t) : outcome gostring :=
  match columnToStatusID !! ToLower (Query.Column q) with
  | Some id => Ok id
  | None => Err (ErrUnknownColumn (Query.Column q))
  end.

(** The page a query asks for once [buildURL] has defaulted it. *)
Definition effectivePage (q : Query.t) : Z :=
  if bool_decide (Query.Page q <= 0) then 1 else Query.Page q.

(** [buildURL].  [url.Parse]'s error is dropped by the code; with a base URL
    that does not parse, [u] is [nil] and the assignment to [u.RawQuery]
    panics. *)
Definition buildURL (c : Client.t) (q : Query.t) : outcome gostring :=
  let q := if bool_decide (Query.Page q <= 0) then Query.withPage q 1 else q in
  let q := if bool_decide (Query.SortBy q = []) then
             Query.withSortBy q (runes "upvotes:desc") else q in
  match statusID q with
  | Err e => Err e
  | Panic m => Panic m
  | Ok id =>
      if urlParses (Client.baseURL c) then
        Ok (urlWithQuery (Client.baseURL c)
              [ (runes "s", id);
                (runes "sortBy", Query.SortBy q);
                (runes "inReview", FormatBool (Query.InReview q));
                (runes "includePinned", FormatBool (Query.IncludePinned q));
                (runes "page", Itoa (Query.Page q)) ])
      else Panic "invalid memory address or nil pointer dereference"
  end.


(** [io.ReadAll(io.LimitReader(r, n))]: at most [n] bytes are read. *)
Fixpoint limitRead (n : Z) (payload : list Z) : list Z :=
  match payload with
  | [] => []
  | b :: rest => if bool_decide (0 < n) then b :: limitRead (n - 1) rest else []
  end.

(** [Client.get]. *)
Definition get (c : Client.t) (env : getEnv) (fullURL : gostring)
    (bypassCache : bool) : outcome (list Z) * Client.t :=
  let useCache := negb bypassCache && bool_decide (0 < Client.cacheTTL c) in
  let fresh :=
    if useCache then
      match Client.cache c !! fullURL with
      | Some entry =>
          if Before (checkedAt env) (cacheEntry.expiresAt entry)
          then Some (cacheEntry.body entry) else None
      | None => None
      end
    else None in
  match fresh with
  | Some body => (Ok body, c)
  | None =>
      (* an entry found expired is deleted *)
      let c := if useCache then Client.withCache c (delete fullURL (Client.cache c))
               else c in
      match reply env with
      | NewRequestFails msg => (Err (ErrNewRequest msg), c)
      | DoFails msg => (Err (ErrTransport msg), Client.withSent c fullURL)
      | Response status payload readErr =>
          let c := Client.withSent c fullURL in
          if bool_decide (400 <= status) then
            (Err (ErrUpstreamStatus status (limitRead (2 * 2 ^ 20) payload)), c)
          else
            match readErr with
            | Some msg => (Err (ErrRead msg), c)
            | None =>
                let body := limitRead (16 * 2 ^ 20) payload in
                let c :=
                  if bool_decide (0 < Client.cacheTTL c) && negb bypassCache then
                    Client.withCache c
                      (<[fullURL := {| cacheEntry.body := body;
                                       cacheEntry.expiresAt :=
                                         Add (storedAt env) (Client.cacheTTL c) |}]>
                         (Client.cache c))
                  else c in
                (Ok body, c)
            end
      end
  end.

(** The cached entry that a call of [get] serves, if any. *)
Definition usable (c : Client.t) (env : getEnv) (fullURL : gostring)
    (bypassCache : bool) (e : cacheEntry.t) : Prop :=
  bypassCache = false /\ 0 < Client.cacheTTL c
  /\ Client.cache c !! fullURL = Some e
  /\ checkedAt env < cacheEntry.expiresAt e.

(** [Client.FetchPage]; the raw body is returned beside the decoded response.
    (On a decoding error Go also returns the raw body, which no caller reads.) *)
Definition FetchPage (c : Client.t) (env : getEnv) (q : Query.t)
    : outcome (hiveResponse.t * list Z) * Client.t :=
  match buildURL c q with
  | Err e => (Err e, c)
  | Panic m => (Panic m, c)
  | Ok u =>
      match get c env u (Query.BypassCache q) with
      | (Err e, c') => (Err e, c')
      | (Panic m, c') => (Panic m, c')
      | (Ok raw, c') =>
          match jsonUnmarshal raw with
          | Some hr => (Ok (hr, raw), c')
          | None => (Err (ErrUnmarshal []), c')
          end
      end
  end.

(** *** FetchAllPages

    The first page is fetched by the caller's goroutine.  Then [workers]
    goroutines range over the unbuffered channel [jobs], on which the caller
    sends the pages [2..total] in order; each worker calls [FetchPage] and,
    holding [mu], records the error or stores the response.

    The interleaving is made explicit as a schedule of events:
    [Receive]: an idle worker receives the next page from the channel;
    [Return k env]: the [k]-th of the calls in flight returns, [env] being
    what the world answered to it.  A call of [FetchPage] takes effect on
    the shared client when it returns; [calls] lists the calls in the order
    in which they returned, with their page and result. *)


Definition dropResult (o : outcome (hiveResponse.t * list Z)) : outcome hiveResponse.t :=
  match o with
  | Ok (hr, _) => Ok hr
  | Err e => Err e
  | Panic m => Panic m
  end.

(** The body of the worker's loop, from [q := base] to [mu.Unlock()]. *)
Definition workerCall (base : Query.t) (st : pool.t) (k : nat) (p : Z)
    (env : getEnv) : pool.t :=
  let q := Query.withPage base p in
  let '(out, c') := FetchPage (pool.client st) env q in
  let log := pool.calls st ++ [(effectivePage q, dropResult out)] in
  let busy := delete k (pool.busy st) in
  match out with
  | Panic m =>
      {| pool.client := c'; pool.jobs := pool.jobs st; pool.busy := busy;
         pool.results := pool.results st; pool.firstErr := pool.firstErr st;
         pool.calls := log; pool.panicked := Some m |}
  | Err e =>
      {| pool.client := c'; pool.jobs := pool.jobs st; pool.busy := busy;
         pool.results := pool.results st;
         pool.firstErr := match pool.firstErr st with
                          | None => Some e
                          | Some e0 => Some e0
                          end;
         pool.calls := log; pool.panicked := None |}
  | Ok (hr, _) =>
      (* results[j.page-1] = hr *)
      if bool_decide (0 <= p - 1 < Z.of_nat (length (pool.results st))) then
        {| pool.client := c'; pool.jobs := pool.jobs st; pool.busy := busy;
           pool.results := <[Z.to_nat (p - 1) := hr]> (pool.results st);
           pool.firstErr := pool.firstErr st;
           pool.calls := log; pool.panicked := None |}
      else
        {| pool.client := c'; pool.jobs := pool.jobs st; pool.busy := busy;
           pool.results := pool.results st; pool.firstErr := pool.firstErr st;
           pool.calls := log; pool.panicked := Some "index out of range" |}
  end.

(** One event; [None] when the event cannot happen in this state. *)
Definition step (base : Query.t) (workers : Z) (st : pool.t) (ev : event)
    : option pool.t :=
  match pool.panicked st with
  | Some _ => None
  | None =>
      match ev with
      | Receive =>
          match pool.jobs st with
          | p :: js =>
              if bool_decide (Z.of_nat (length (pool.busy st)) < workers) then
                Some {| pool.client := pool.client st; pool.jobs := js;
                        pool.busy := pool.busy st ++ [p];
                        pool.results := pool.results st;
                        pool.firstErr := pool.firstErr st;
                        pool.calls := pool.calls st;
                        pool.panicked := None |}
              else None
          | [] => None
          end
      | Return k env =>
          match pool.busy st !! k with
          | Some p => Some (workerCall base st k p env)
          | None => None
          end
      end
  end.

Fixpoint run (base : Query.t) (workers : Z) (sched : list event) (st : pool.t)
    : option pool.t :=
  match sched with
  | [] => Some st
  | ev :: sched' =>
      match step base workers st ev with
      | Some st' => run base workers sched' st'
      | None => None
      end
  end.

(** [wg.Wait()] returns: the channel is closed and drained and no call is in
    flight (or the process has died of a panic). *)
Definition finished (st : pool.t) : bool :=
  match pool.panicked st with
  | Some _ => true
  | None => bool_decide (pool.jobs st = []) && bool_decide (pool.busy st = [])
  end.


(** [make([]hiveResponse, n)].  [runtime.makeslice] panics when [n] is
    negative or when the [n] elements take more than [maxAlloc] bytes, which
    is [2^48] on the 64-bit platforms (linux/amd64, linux/arm64); a
    [hiveResponse] is a slice header and four [int]s, 56 bytes there.  Below
    that bound the allocation is taken to succeed: a machine that has not
    got the memory stops the whole process, which no caller observes. *)
Definition maxAlloc : Z := 2 ^ 48.
Definition sizeofHiveResponse : Z := 56.

Definition makeslicePanics (n : Z) : bool :=
  bool_decide (n < 0) || bool_decide (maxAlloc < sizeofHiveResponse * n).

(** [Client.FetchAllPages].  [env0] answers the first call, [sched] is the
    schedule of the workers; the result is [None] when [sched] is not a
    complete execution of the pool. *)
Definition FetchAllPages (c : Client.t) (env0 : getEnv) (sched : list event)
    (base : Query.t) : option fetchAll.t :=
  let '(out, c') := FetchPage c env0 base in
  let log := [(effectivePage base, dropResult out)] in
  match out with
  | Err e => Some {| fetchAll.result := Err e; fetchAll.client := c'; fetchAll.calls := log |}
  | Panic m => Some {| fetchAll.result := Panic m; fetchAll.client := c'; fetchAll.calls := log |}
  | Ok (first, _) =>
      let total := hiveResponse.TotalPages first in
      if bool_decide (total = 0) then
        Some {| fetchAll.result := Ok [first]; fetchAll.client := c'; fetchAll.calls := log |}
      else if makeslicePanics total then
        (* make([]hiveResponse, total) *)
        Some {| fetchAll.result := Panic "makeslice: len out of range";
                fetchAll.client := c'; fetchAll.calls := log |}
      else
        let results := <[0%nat := first]> (replicate (Z.to_nat total) hiveResponse.zero) in
        let workers := if bool_decide (total < Client.maxConcurrency c)
                       then total else Client.maxConcurrency c in
        if bool_decide (workers < 0) then
          (* wg.Add(workers) *)
          Some {| fetchAll.result := Panic "sync: negative WaitGroup counter";
                  fetchAll.client := c'; fetchAll.calls := log |}
        else
          let st0 := {| pool.client := c'; pool.jobs := seqZ 2 (total - 1);
                        pool.busy := []; pool.results := results;
                        pool.firstErr := None; pool.calls := log;
                        pool.panicked := None |} in
          match run base workers sched st0 with
          | Some st =>
              if finished st then
                Some {| fetchAll.result :=
                          match pool.panicked st with
                          | Some m => Panic m
                          | None =>
                              match pool.firstErr st with
                              | Some e => Err e
                              | None => Ok (pool.results st)
                              end
                          end;
                        fetchAll.client := pool.client st;
                        fetchAll.calls := pool.calls st |}
              else None
          | None => None
          end
  end.

(** The schedule in which one worker does everything, page after page. *)
Fixpoint sequential (envs : list getEnv) : list event :=
  match envs with
  | [] => []
  | env :: envs' => Receive :: Return 0 env :: sequential envs'
  end.

(** The first error in a call log. *)
Fixpoint firstError (log : callLog) : option error :=
  match log with
  | [] => None
  | (_, Err e) :: _ => Some e
  | _ :: log' => firstError log'
  end.

(** The invariant of the pool, for a first response [first] that declares
    [total >= 1] pages: no panic; the channel still holds the pages
    [j..total]; the pages [2..j-1] are those of the worker calls that have
    returned and of those in flight, each once; a response that has returned
    is stored at its page's index; [firstErr] is the first error of the
    call log. *)
Definition poolInv (base : Query.t) (total : Z) (first : hiveResponse.t)
    (st : pool.t) : Prop :=
  pool.panicked st = None
  /\ urlParses (Client.baseURL (pool.client st)) = true
  /\ length (pool.results st) = Z.to_nat total
  /\ pool.results st !! 0%nat = Some first
  /\ pool.firstErr st = firstError (pool.calls st)
  /\ exists (j : Z) (returned : callLog),
       2 <= j <= total + 1
       /\ pool.jobs st = seqZ j (total + 1 - j)
       /\ pool.calls st = (effectivePage base, Ok first) :: returned
       /\ returned.*1 ++ pool.busy st ≡ₚ seqZ 2 (j - 2)
       /\ (forall p m, (p, Panic m) ∉ returned)
       /\ (forall p hr, (p, Ok hr) ∈ returned ->
             pool.results st !! Z.to_nat (p - 1) = Some hr).

Definition columnMap : gmap (list Z) (list Z) := columnToStatusID.

(** *** stripHTML *)

Definition stripTagsStep (st : bool * gostring) (r : rune) : bool * gostring :=
  let '(inTag, b) := st in
  if bool_decide (r = 60) then (true, b)            (* '<' *)
  else if bool_decide (r = 62) then (false, b)      (* '>' *)
  else if inTag then (inTag, b) else (inTag, b ++ [r]).

(** The loop of [stripHTML]: the contents of the builder at its end. *)
Definition stripTags (input : gostring) : gostring :=
  snd (foldl stripTagsStep (false, []) input).

(** [strings.NewReplacer(oldnew...).Replace]: at each position, from left to
    right, the first pair (in argument order) whose old string starts there
    is replaced and the scan resumes after it. *)
Definition isPrefix (p s : gostring) : bool :=
  bool_decide (take (length p) s = p).

Definition lookupAt (oldnew : list (gostring * gostring)) (s : gostring)
    : option (gostring * gostring) :=
  List.find (fun on => isPrefix (fst on) s) oldnew.

Fixpoint replaceFrom (oldnew : list (gostring * gostring)) (skip : nat)
    (s : gostring) : gostring :=
  match s with
  | [] => []
  | r :: rest =>
      match skip with
      | S k => replaceFrom oldnew k rest
      | O =>
          match lookupAt oldnew s with
          | Some (old, new) => new ++ replaceFrom oldnew (length old - 1) rest
          | None => r :: replaceFrom oldnew 0 rest
          end
      end
  end.

Definition Replace (oldnew : list (gostring * gostring)) (s : gostring) : gostring :=
  replaceFrom oldnew 0 s.

Definition entities : list (gostring * gostring) :=
  [ (runes "&nbsp;", runes " ");
    (runes "&amp;", runes "&");
    (runes "&lt;", runes "<");
    (runes "&gt;", runes ">");
    (runes "&#39;", runes "'");
    (runes "&quot;", [34]) ].


Definition stripHTML (input : gostring) : gostring :=
  TrimSpace (Replace entities (stripTags input)).

(** The text of [input] outside markup, said by positions: the rune at
    position [i] is text when it is no bracket and the nearest bracket
    before it, if there is one, is a closing one. *)
Definition isBracket (r : rune) : bool := bool_decide (r = 60) || bool_decide (r = 62).

Definition inMarkup (before : gostring) : bool :=
  bool_decide (last (List.filter isBracket before) = Some 60).

Definition textOutsideTags (input : gostring) : gostring :=
  flat_map
    (fun i => match input !! i with
              | Some r => if isBracket r || inMarkup (take i input) then [] else [r]
              | None => []
              end)
    (seq 0 (length input)).

(** *** MapResponse *)

Definition mapSubmission (page : Z) (s : hiveSubmission.t) : RoadmapItem.t :=
  let status := match hiveSubmission.PostStatus s with
                | Some ps => postStatus.Name ps
                | None => []
                end in
  let cat := match hiveSubmission.PostCategory s with
             | Some pc => default [] (postCategory.Name pc !! runes "en")
             | None => []
             end in
  let eta := default [] (hiveSubmission.Eta s) in
  {| RoadmapItem.ID := hiveSubmission.ID s;
     RoadmapItem.Slug := hiveSubmission.Slug s;
     RoadmapItem.Title := hiveSubmission.Title s;
     RoadmapItem.Status := status;
     RoadmapItem.Category := cat;
     RoadmapItem.Upvotes := hiveSubmission.Upvotes s;
     RoadmapItem.Date := hiveSubmission.Date s;
     RoadmapItem.LastModified := hiveSubmission.LastModified s;
     RoadmapItem.Pinned := hiveSubmission.Pinned s;
     RoadmapItem.ETA := eta;
     RoadmapItem.ContentHTML := hiveSubmission.ContentHTML s;
     RoadmapItem.ContentText := stripHTML (hiveSubmission.ContentHTML s);
     RoadmapItem.Page := page;
     RoadmapItem.Network := [];
     RoadmapItem.ProjectLead := [];
     RoadmapItem.URL := [] |}.

Definition MapResponse (hr : hiveResponse.t) : RoadmapPage.t :=
  {| RoadmapPage.Meta :=
       {| PageMeta.Page := hiveResponse.Page hr;
          PageMeta.Limit := hiveResponse.Limit hr;
          PageMeta.TotalPages := hiveResponse.TotalPages hr;
          PageMeta.TotalResults := hiveResponse.TotalResults hr |};
     RoadmapPage.Items := mapSubmission (hiveResponse.Page hr) <$> hiveResponse.Results hr |}.

Definition ValidateColumn (col : gostring) : option error :=
  match columnToStatusID !! ToLower col with
  | Some _ => None
  | None => Some ErrInvalidColumn
  end.

(** ** The hive service *)


Definition NewService (c : Client.t) : service.t :=
  {| service.client := c; service.tracker := Tracker.empty |}.

Definition recordChanges (now : time) (items : list RoadmapItem.t) (s : service.t)
    : service.t :=
  {| service.client := service.client s;
     service.tracker := Tracker.record now items (service.tracker s) |}.

Definition Updates (now : time) (s : service.t) : list (Tracker.changeEntry RoadmapItem.t) :=
  Tracker.Updates now (service.tracker s).

(** [service.GetPage]; [recordedAt] is the clock reading of [recordChanges]. *)
Definition GetPage (s : service.t) (env : getEnv) (recordedAt : time) (q : Query.t)
    : outcome (RoadmapPage.t * list Z) * service.t :=
  match FetchPage (service.client s) env q with
  | (Err e, c') => (Err e, {| service.client := c'; service.tracker := service.tracker s |})
  | (Panic m, c') => (Panic m, {| service.client := c'; service.tracker := service.tracker s |})
  | (Ok (hr, raw), c') =>
      let page := MapResponse hr in
      (Ok (page, raw),
       recordChanges recordedAt (RoadmapPage.Items page)
         {| service.client := c'; service.tracker := service.tracker s |})
  end.

(** [service.GetAll]. *)
Definition GetAll (s : service.t) (env0 : getEnv) (sched : list event)
    (recordedAt : time) (q : Query.t)
    : option (outcome (list RoadmapPage.t) * service.t) :=
  match FetchAllPages (service.client s) env0 sched q with
  | None => None
  | Some r =>
      let s' := {| service.client := fetchAll.client r; service.tracker := service.tracker s |} in
      match fetchAll.result r with
      | Err e => Some (Err e, s')
      | Panic m => Some (Panic m, s')
      | Ok all =>
          let out := MapResponse <$> all in
          let collected := out ≫= RoadmapPage.Items in
          Some (Ok out, recordChanges recordedAt collected s')
      end
  end.


(** [Handlers.ByColumn] (the revision that serves the whole column): the
    column is validated before the service is called. *)
Definition ByColumn (s : service.t) (env0 : getEnv) (sched : list event)
    (recordedAt : time) (column sortBy : gostring) (inReview includePinned cache : bool)
    : option (answer * service.t) :=
  let column := ToLower column in
  match ValidateColumn column with
  | Some e => Some (BadRequest e, s)
  | None =>
      let q := {| Query.Column := column; Query.Page := 0;
                  Query.SortBy := if bool_decide (sortBy = []) then runes "upvotes:desc" else sortBy;
                  Query.InReview := inReview; Query.IncludePinned := includePinned;
                  Query.Raw := false; Query.BypassCache := negb cache |} in
      match GetAll s env0 sched recordedAt q with
      | None => None
      | Some (Err e, s') => Some (BadGateway e, s')
      | Some (Panic m, s') => Some (Crash m, s')
      | Some (Ok pages, s') => Some (StatusOK pages, s')
      end
  end.

End WithLib.

End Hive.

(* ===================================================================== *)
(** * internal/cubecraft *)
(* ===================================================================== *)

Module Cubecraft.

(** ** models.go *)

Module Card.
Record t : Type := {
  ID : gostring;
  Title : gostring;
  URL : gostring;
  Properties : gmap (list Z) (list Z);
  CreatedAt : Z;
  UpdatedAt : Z;
  ReleasedAt : gostring
}.
End Card.

Module item.
Record t : Type := {
  ID : gostring;
  Slug : gostring;
  Title : gostring;
  Status : gostring;
  Category : gostring;
  Network : gostring;
  ProjectLead : gostring;
  CreatedAt : time;
  UpdatedAt : time;
  ReleasedAt : time;
  URL : gostring;
  ContentHTML : gostring;
  ContentText : gostring
}.
End item.

#[global] Instance item_tracked : Tracked item.t :=
  {| itemID := item.ID; itemStatus := item.Status |}.

(** ** The client and its one-entry cache *)

Definition notionAPIURL : gostring :=
  runes "https://cubecraft.notion.site/api/v3/queryCollection?src=initial_load".
Definition defaultPageSize : Z := 10.

Module cacheEntry.
Record t : Type := { data : list Card.t; expiresAt : time }.
End cacheEntry.

(** [httpClient]: the requests sent so far (their URL), oldest first. *)
Module Client.
Record t : Type := {
  httpClient : list gostring;
  cacheTTL : duration;
  cache : option cacheEntry.t
}.
End Client.

Definition ClientOption : Type := Client.t -> Client.t.

Definition WithCacheTTL (ttl : duration) : ClientOption :=
  fun c => {| Client.httpClient := Client.httpClient c; Client.cacheTTL := ttl;
              Client.cache := Client.cache c |}.

Definition NewClient (opts : list ClientOption) : Client.t :=
  foldl (fun c o => o c)
        {| Client.httpClient := []; Client.cacheTTL := 0; Client.cache := None |}
        opts.

(** What the world answers to one call of [Fetch]: the clock readings, and
    what becomes of the request.  [Decoded cards] stands for a body that
    [json.Unmarshal] accepts, [cards] being what the loop over its blocks
    builds (in the order in which Go happens to range over the map). *)
Inductive notionResult : Type :=
| NewRequestFails (msg : gostring)
| DoFails (msg : gostring)
| ReadFails (msg : gostring)
| UnmarshalFails (msg : gostring)
| Decoded (cards : list Card.t).

Record fetchEnv : Type := {
  checkedAt : time;
  reply : notionResult;
  storedAt : time
}.

Definition sent (c : Client.t) : Client.t :=
  {| Client.httpClient := Client.httpClient c ++ [notionAPIURL];
     Client.cacheTTL := Client.cacheTTL c; Client.cache := Client.cache c |}.

(** [Client.Fetch]. *)
Definition Fetch (c : Client.t) (env : fetchEnv) : outcome (list Card.t) * Client.t :=
  let fresh :=
    if bool_decide (0 < Client.cacheTTL c) then
      match Client.cache c with
      | Some entry =>
          if Before (checkedAt env) (cacheEntry.expiresAt entry)
          then Some (cacheEntry.data entry) else None
      | None => None
      end
    else None in
  match fresh with
  | Some data => (Ok data, c)
  | None =>
      match reply env with
      | NewRequestFails msg => (Err (ErrNewRequest msg), c)
      | DoFails msg => (Err (ErrTransport msg), sent c)
      | ReadFails msg => (Err (ErrRead msg), sent c)
      | UnmarshalFails msg => (Err (ErrUnmarshal msg), sent c)
      | Decoded cards =>
          let c := sent c in
          let c :=
            if bool_decide (0 < Client.cacheTTL c) then
              {| Client.httpClient := Client.httpClient c;
                 Client.cacheTTL := Client.cacheTTL c;
                 Client.cache :=
                   Some {| cacheEntry.data := cards;
                           cacheEntry.expiresAt := Add (storedAt env) (Client.cacheTTL c) |} |}
            else c in
          (Ok cards, c)
      end
  end.

(** The cached entry that a call of [Fetch] serves, if any. *)
Definition usable (k : Client.t) (env : fetchEnv) (e : cacheEntry.t) : Prop :=
  0 < Client.cacheTTL k /\ Client.cache k = Some e
  /\ checkedAt env < cacheEntry.expiresAt e.

Definition keyMap : gmap (list Z) (list Z) :=
  list_to_map [
    (runes "3E6J", runes "status");
    (runes "@@W>", runes "network");
    (runes "K:rY", runes "category");
    (runes "\wxR", runes "projectLead");
    (runes "^NHI", runes "releasePost");
    (runes "created_time", runes "createdAt");
    (runes "last_edited_time", runes "lastUpdated");
    (runes "?igY", runes "releasedAt") ].

(** [renameMap]; [choice] is the order in which this execution of
    [for k, v := range in] yields the entries.  When two keys are renamed to
    the same key, the one that comes last wins. *)
Definition renameMap (choice : list nat) (m : gmap (list Z) (list Z))
    : gmap (list Z) (list Z) :=
  foldl (fun out kv => <[default kv.1 (keyMap !! kv.1) := kv.2]> out) ∅
        (rangeOrder choice m).

(** ** service.go *)

Definition columnToStatus : gmap (list Z) (list (list Z)) :=
  list_to_map [
    (runes "in-progress", [runes "In Progress"]);
    (runes "coming-next", [runes "Testing"]);
    (runes "released", [runes "Released"]) ].

Definition Columns : gmap (list Z) (list Z) :=
  list_to_map [
    (runes "in-progress", runes "notion:in-progress");
    (runes "coming-next", runes "notion:coming-next");
    (runes "released", runes "notion:released") ].

Module service.
Record t : Type := {
  client : Client.t;
  tracker : Tracker.state item.t
}.
End service.

Definition NewService (c : Client.t) : service.t :=
  {| service.client := c; service.tracker := Tracker.empty |}.

(** The time functions of the standard library that [All] calls. *)
Class Lib : Type := {
  (** [time.Parse("2006-01-02", s)]: the instant, or [None] on error. *)
  parseDate : gostring -> option time;
  (** [t.Format(time.RFC3339)]. *)
  formatRFC3339 : time -> gostring
}.

(** The zero [time.Time] (January 1, year 1, UTC), on the scale on which
    [time.Unix(0, 0)] is 0. *)
Definition zeroTime : time := - 62135596800 * Second.
Definition IsZero (t : time) : bool := bool_decide (t = zeroTime).
(** [time.Unix(sec, 0)]. *)
Definition Unix (sec : Z) : time := sec * Second.

Definition contains (arr : list gostring) (v : gostring) : bool :=
  if bool_decide (length arr = 0%nat) then true
  else existsb (fun s => bool_decide (s = v)) arr.

Definition mapStatusLabel (notionStatus : gostring) : gostring :=
  if bool_decide (notionStatus = runes "In Progress") then runes "In Progress"
  else if bool_decide (notionStatus = runes "Released") then runes "Released"
  else if bool_decide (notionStatus = runes "Testing") then runes "Coming Next..."
  else if bool_decide (notionStatus = runes "Information") then runes "Information"
  else notionStatus.

Definition recordStatusChanges (now : time) (items : list item.t) (s : service.t)
    : service.t :=
  {| service.client := service.client s;
     service.tracker := Tracker.record now items (service.tracker s) |}.

Definition Updates (now : time) (s : service.t) : list (Tracker.changeEntry item.t) :=
  Tracker.Updates now (service.tracker s).

(** [sort.SliceStable(items, less)]: for a [less] that orders the items by a
    key, as all the ones of [All] do, the stable sort is the insertion of
    each item after the items that are not greater. *)
Fixpoint insertStable {A} (less : A -> A -> bool) (x : A) (l : list A) : list A :=
  match l with
  | [] => [x]
  | y :: l' => if less y x then y :: insertStable less x l' else x :: l
  end.

Fixpoint SliceStable {A} (less : A -> A -> bool) (l : list A) : list A :=
  match l with
  | [] => []
  | x :: l' => insertStable less x (SliceStable less l')
  end.

(** [items[lo:hi]] for [0 <= lo <= hi <= len(items)]. *)
Definition slice {A} (items : list A) (lo hi : Z) : list A :=
  take (Z.to_nat (hi - lo)) (drop (Z.to_nat lo) items).

(** The one page of an empty result. *)
Definition emptyPage (limit : Z) : Hive.RoadmapPage.t :=
  {| Hive.RoadmapPage.Meta :=
       {| Hive.PageMeta.Page := 1; Hive.PageMeta.Limit := limit;
          Hive.PageMeta.TotalPages := 1; Hive.PageMeta.TotalResults := 0 |};
     Hive.RoadmapPage.Items := [] |}.

(** What the world answers to one call of [All]; [ranges i] is the order in
    which [renameMap] ranges over the properties of the card at index [i]
    in this call. *)
Record allEnv : Type := {
  fetched : fetchEnv;
  recordedAt : time;
  ranges : nat -> list nat
}.

Inductive answer : Type :=
| BadRequest
| BadGateway (e : error)
| StatusOK (pages : list Hive.RoadmapPage.t)
| Crash (msg : string).

Section WithLib.
Context `{Unicode} `{Lib}.

Definition isoOrEmpty (t : time) : gostring :=
  if IsZero t then [] else formatRFC3339 t.

Definition sortKeys : list gostring :=
  [ runes "releasedat:asc"; runes "releasedat:desc";
    runes "lastupdated:asc"; runes "lastupdated:desc";
    runes "createdat:asc"; runes "createdat:desc";
    runes "title:asc"; runes "title:desc" ].

Definition normalizeSort (sortBy column : gostring) : gostring :=
  let sortBy := ToLower (TrimSpace sortBy) in
  if bool_decide (sortBy ∈ sortKeys) then sortBy
  else
    let column := ToLower column in
    if bool_decide (column = runes "released") then runes "releasedat:desc"
    else if bool_decide (column = runes "in-progress")
            || bool_decide (column = runes "coming-next")
         then runes "lastupdated:desc"
         else runes "title:asc".

(** The [less] of [All] for a normalized sort key. *)
Definition less (sortBy : gostring) (a b : item.t) : bool :=
  if bool_decide (sortBy = runes "releasedat:asc") then Before (item.ReleasedAt a) (item.ReleasedAt b)
  else if bool_decide (sortBy = runes "releasedat:desc") then After (item.ReleasedAt a) (item.ReleasedAt b)
  else if bool_decide (sortBy = runes "lastupdated:asc") then Before (item.UpdatedAt a) (item.UpdatedAt b)
  else if bool_decide (sortBy = runes "lastupdated:desc") then After (item.UpdatedAt a) (item.UpdatedAt b)
  else if bool_decide (sortBy = runes "createdat:asc") then Before (item.CreatedAt a) (item.CreatedAt b)
  else if bool_decide (sortBy = runes "createdat:desc") then After (item.CreatedAt a) (item.CreatedAt b)
  else if bool_decide (sortBy = runes "title:desc") then strLess (ToLower (item.Title b)) (ToLower (item.Title a))
  else strLess (ToLower (item.Title a)) (ToLower (item.Title b)).

(** [columnToStatus[strings.ToLower(column)]], [nil] for an unknown column. *)
Definition targetStatuses (column : gostring) : list gostring :=
  default [] (columnToStatus !! ToLower column).

(** The body of the first loop of [All]: the item of a card that passes the
    filter. *)
Definition cardItem (targets : list gostring) (choice : list nat) (c : Card.t)
    : option item.t :=
  let props := renameMap choice (Card.Properties c) in
  let prop k := default [] (props !! runes k) in
  let status := prop "status" in
  if contains targets status then
    let releasedAt :=
      if bool_decide (prop "releasedAt" ≠ []) then
        default zeroTime (parseDate (prop "releasedAt"))
      else zeroTime in
    Some {| item.ID := Card.ID c;
            item.Slug := Card.ID c;
            item.Title := Card.Title c;
            item.Status := mapStatusLabel status;
            item.Category := prop "category";
            item.Network := prop "network";
            item.ProjectLead := prop "projectLead";
            item.CreatedAt := Unix (Z.quot (Card.CreatedAt c) 1000);
            item.UpdatedAt := Unix (Z.quot (Card.UpdatedAt c) 1000);
            item.ReleasedAt := releasedAt;
            item.URL := Card.URL c;
            item.ContentHTML := [];
            item.ContentText := [] |}
  else None.

(** The first loop of [All]: the items of the cards that pass the filter, in
    the order of the cards. *)
Definition cardItems (targets : list gostring) (ranges : nat -> list nat)
    (cards : list Card.t) : list item.t :=
  omap id (imap (fun i c => cardItem targets (ranges i) c) cards).

(** The filtered canonical items of a query, sorted. *)
Definition filteredItems (ranges : nat -> list nat) (column sortBy : gostring)
    (cards : list Card.t) : list item.t :=
  SliceStable (less (normalizeSort sortBy column))
              (cardItems (targetStatuses column) ranges cards).

Definition toDTO (p : Z) (it : item.t) : Hive.RoadmapItem.t :=
  {| Hive.RoadmapItem.ID := item.ID it;
     Hive.RoadmapItem.Slug := item.Slug it;
     Hive.RoadmapItem.Title := item.Title it;
     Hive.RoadmapItem.Status := item.Status it;
     Hive.RoadmapItem.Category := item.Category it;
     Hive.RoadmapItem.Upvotes := 0;
     Hive.RoadmapItem.Date := formatRFC3339 (item.CreatedAt it);
     Hive.RoadmapItem.LastModified := formatRFC3339 (item.UpdatedAt it);
     Hive.RoadmapItem.Pinned := false;
     Hive.RoadmapItem.ETA := isoOrEmpty (item.ReleasedAt it);
     Hive.RoadmapItem.ContentHTML := item.ContentHTML it;
     Hive.RoadmapItem.ContentText := item.ContentText it;
     Hive.RoadmapItem.Page := p;
     Hive.RoadmapItem.Network := item.Network it;
     Hive.RoadmapItem.ProjectLead := item.ProjectLead it;
     Hive.RoadmapItem.URL := item.URL it |}.

(** The pagination loop of [All],
    [for p, offset := 1, 0; offset < total; p, offset = p+1, offset+limit].
    [fuel] bounds the number of iterations; [None] when it runs out. *)
Fixpoint pagesLoop (fuel : nat) (items : list item.t) (total limit p offset : Z)
    (pages : list Hive.RoadmapPage.t) : option (outcome (list Hive.RoadmapPage.t)) :=
  if bool_decide (offset < total) then
    match fuel with
    | O => None
    | S fuel' =>
        let end0 := add offset limit in
        let end1 := if bool_decide (total < end0) then total else end0 in
        if bool_decide (0 <= offset <= end1) && bool_decide (end1 <= total) then
          let pageItems := slice items offset end1 in
          let page :=
            {| Hive.RoadmapPage.Meta :=
                 {| Hive.PageMeta.Page := p;
                    Hive.PageMeta.Limit := limit;
                    Hive.PageMeta.TotalPages := quot (sub (add total limit) 1) limit;
                    Hive.PageMeta.TotalResults := total |};
               Hive.RoadmapPage.Items := toDTO p <$> pageItems |} in
          pagesLoop fuel' items total limit (add p 1) (add offset limit) (pages ++ [page])
        else Some (Panic "slice bounds out of range")
    end
  else Some (Ok pages).

(** [service.All]. *)
Definition All (s : service.t) (env : allEnv) (column : gostring) (limit : Z)
    (sortBy : gostring) : outcome (list Hive.RoadmapPage.t) * service.t :=
  let limit := if bool_decide (limit <= 0) then 10 else limit in
  match Fetch (service.client s) (fetched env) with
  | (Err e, c') => (Err e, {| service.client := c'; service.tracker := service.tracker s |})
  | (Panic m, c') => (Panic m, {| service.client := c'; service.tracker := service.tracker s |})
  | (Ok cards, c') =>
      let s := {| service.client := c'; service.tracker := service.tracker s |} in
      let items := filteredItems (ranges env) column sortBy cards in
      let total := Z.of_nat (length items) in
      if bool_decide (total = 0) then
        (Ok [ {| Hive.RoadmapPage.Meta :=
                   {| Hive.PageMeta.Page := 1; Hive.PageMeta.Limit := limit;
                      Hive.PageMeta.TotalPages := 1; Hive.PageMeta.TotalResults := 0 |};
                 Hive.RoadmapPage.Items := [] |} ], s)
      else
        let s := recordStatusChanges (recordedAt env) items s in
        (* make([]hive.RoadmapPage, 0, (total+limit-1)/limit) *)
        if bool_decide (quot (sub (add total limit) 1) limit < 0) then
          (Panic "makeslice: cap out of range", s)
        else
          match pagesLoop (S (length items)) items total limit 1 0 [] with
          | Some out => (out, s)
          | None => (Panic "unreachable", s)
          end
  end.

(** Pagination by the book: [ceilDiv n l] is the ceiling of [n / l]; page
    [i] (counted from 0) of [items] holds the items at the positions from
    [i * limit] up to, and not including, [(i + 1) * limit] or the end. *)
Definition ceilDiv (n l : Z) : Z := (n + l - 1) / l.

Definition pageAt (items : list item.t) (limit i : Z) : Hive.RoadmapPage.t :=
  let total := Z.of_nat (length items) in
  {| Hive.RoadmapPage.Meta :=
       {| Hive.PageMeta.Page := i + 1;
          Hive.PageMeta.Limit := limit;
          Hive.PageMeta.TotalPages := ceilDiv total limit;
          Hive.PageMeta.TotalResults := total |};
     Hive.RoadmapPage.Items :=
       toDTO (i + 1) <$> slice items (i * limit) (Z.min total ((i + 1) * limit)) |}.

Definition paginate (items : list item.t) (limit : Z) : list Hive.RoadmapPage.t :=
  pageAt items limit <$> seqZ 0 (ceilDiv (Z.of_nat (length items)) limit).

(** [service.Page]. *)
Definition Page (s : service.t) (env : allEnv) (column : gostring) (page limit : Z)
    (sortBy : gostring) : outcome Hive.RoadmapPage.t * service.t :=
  match All s env column limit sortBy with
  | (Err e, s') => (Err e, s')
  | (Panic m, s') => (Panic m, s')
  | (Ok allPages, s') =>
      let page := if bool_decide (page <= 0) then 1 else page in
      if bool_decide (Z.of_nat (length allPages) < page) then
        (Ok {| Hive.RoadmapPage.Meta :=
                 {| Hive.PageMeta.Page := page; Hive.PageMeta.Limit := limit;
                    Hive.PageMeta.TotalPages := Z.of_nat (length allPages);
                    Hive.PageMeta.TotalResults := 0 |};
               Hive.RoadmapPage.Items := [] |}, s')
      else
        match allPages !! Z.to_nat (page - 1) with
        | Some pg => (Ok pg, s')
        | None => (Panic "index out of range", s')
        end
  end.

(** [Handlers.ByColumn]: the handler checks the column, the service does
    not. *)
Definition ByColumn (s : service.t) (env : allEnv) (column sortBy : gostring)
    : answer * service.t :=
  let column := ToLower column in
  match columnToStatus !! column with
  | None => (BadRequest, s)
  | Some _ =>
      match All s env column defaultPageSize sortBy with
      | (Err e, s') => (BadGateway e, s')
      | (Panic m, s') => (Crash m, s')
      | (Ok pages, s') => (StatusOK pages, s')
      end
  end.

End WithLib.

End Cubecraft.

(* ===================================================================== *)
(** * The HTTP handlers and the decoding of the Notion response *)
(* ===================================================================== *)

(** ** The hive handlers (the revision with [page], [raw] and [all]) *)
Module HiveHandlers.

(** [url.Values], the parsed query string of a request; [Get] returns the
    first value of a key, and the empty string when the key has none. *)
Definition Values : Type := gmap (list Z) (list gostring).

Definition Get (v : Values) (key : gostring) : gostring :=
  match v !! key with
  | Some (x :: _) => x
  | _ => []
  end.

(** What a handler reads of a request: [chi.URLParam(r, "column")] and
    [r.URL.Query()]. *)
Module Request.
Record t : Type := { column : gostring; query : Values }.
End Request.

(** [strconv.Atoi]: the number, or [None] when it returns an error. *)
Class Lib : Type := { Atoi : gostring -> option Z }.

(** What a handler writes: [httpError(w, code, err)], or [writeJSON] of a
    value with status 200, or the raw body. *)
Inductive response : Type :=
| Failure (code : Z) (e : error)
| Aggregate (column : gostring) (pages : list Hive.RoadmapPage.t)
| OnePage (page : Hive.RoadmapPage.t)
| RawBody (raw : list Z)
| Crash (msg : string).

Section WithLib.
Context `{Unicode} `{Hive.Lib} `{Lib}.

Definition intFromQuery (r : Request.t) (key : gostring) (def : Z) : Z :=
  let v := Get (Request.query r) key in
  if bool_decide (v = []) then def
  else
    match Atoi v with
    | None => def
    | Some i => if bool_decide (i <= 0) then def else i
    end.

Definition boolFromQuery (r : Request.t) (key : gostring) (def : bool) : bool :=
  let v := ToLower (TrimSpace (Get (Request.query r) key)) in
  if bool_decide (v ∈ [runes "1"; runes "true"; runes "yes"; runes "y"; runes "on"])
  then true
  else if bool_decide (v ∈ [runes "0"; runes "false"; runes "no"; runes "n"; runes "off"])
  then false
  else def.

Definition strFromQuery (r : Request.t) (key def : gostring) : gostring :=
  let v := Get (Request.query r) key in
  if bool_decide (v = []) then def else v.

(** The [Query] that [ByColumn] builds for a valid column. *)
Definition queryOf (r : Request.t) : Hive.Query.t :=
  {| Hive.Query.Column := ToLower (Request.column r);
     Hive.Query.Page := intFromQuery r (runes "page") 1;
     Hive.Query.SortBy := strFromQuery r (runes "sortBy") (runes "upvotes:desc");
     Hive.Query.InReview := boolFromQuery r (runes "inReview") false;
     Hive.Query.IncludePinned := boolFromQuery r (runes "includePinned") true;
     Hive.Query.Raw := boolFromQuery r (runes "raw") false;
     Hive.Query.BypassCache := negb (boolFromQuery r (runes "cache") true) |}.

(** [Handlers.ByColumn]. *)
Definition ByColumn (s : Hive.service.t) (env0 : Hive.getEnv) (sched : list Hive.event)
    (recordedAt : time) (r : Request.t) : option (response * Hive.service.t) :=
  let column := ToLower (Request.column r) in
  match Hive.ValidateColumn column with
  | Some e => Some (Failure 400 e, s)
  | None =>
      let q := queryOf r in
      if boolFromQuery r (runes "all") false then
        match Hive.GetAll s env0 sched recordedAt q with
        | None => None
        | Some (Err e, s') => Some (Failure 502 e, s')
        | Some (Panic m, s') => Some (Crash m, s')
        | Some (Ok pages, s') => Some (Aggregate column pages, s')
        end
      else
        match Hive.GetPage s env0 recordedAt q with
        | (Err e, s') => Some (Failure 502 e, s')
        | (Panic m, s') => Some (Crash m, s')
        | (Ok (page, raw), s') =>
            Some (if Hive.Query.Raw q then RawBody raw else OnePage page, s')
        end
  end.

End WithLib.
End HiveHandlers.

(** ** The decoding half of [cubecraft.Client.Fetch] *)
Module Notion.

(** [keyMap[k]] when the key is there, [k] itself otherwise. *)
Definition renameKey (k : gostring) : gostring := default k (Cubecraft.keyMap !! k).

(** [renameMap], the order in which [range in] yields the entries being
    given: Go leaves it unspecified. *)
Definition renameMapIn (order : list (gostring * gostring)) : gmap (list Z) (list Z) :=
  foldl (fun out kv => <[renameKey kv.1 := kv.2]> out) ∅ order.

(** A JSON value decoded into [any]; the code never reads a number. *)
#[warnings="-register-all"]
Inductive any : Type :=
| Null
| Boolean (b : bool)
| Number (literal : list Z)
| Text (s : gostring)
| Array (l : list any)
| Object (m : gmap (list Z) any).

(** The fields of [rawBlock.Value]; a property value is a [json.RawMessage]. *)
Module rawBlock.
Record t : Type := {
  ParentTable : gostring;
  Properties : gmap (list Z) (list Z);
  CreatedTime : Z;
  LastEditedTime : Z
}.
End rawBlock.

Class Lib : Type := {
  (** [json.Unmarshal(rawv, &arr)] for [arr [][]any]; [None] on error. *)
  unmarshalCells : list Z -> option (list (list any));
  (** [json.Unmarshal(raw, &rb)] for [rb rawBlock]; [None] on error. *)
  unmarshalBlock : list Z -> option rawBlock.t
}.

(** What the loop of [parseProps] has built so far. *)
Module parsed.
Record t : Type := {
  title : gostring;
  props : gmap (list Z) (list Z);
  releasedAt : gostring
}.
Definition zero : t := {| title := []; props := ∅; releasedAt := [] |}.
End parsed.

Definition notionSiteBaseURL : gostring :=
  runes "https://cubecraft.notion.site/e86c96a3ee78465d8e5c24c22489c094".
Definition collectionViewID : gostring := runes "79bd3042-c1cf-42aa-9d4e-d81a3043c505".

(** [strings.ReplaceAll(s, "-", "")]. *)
Definition dropDashes (s : gostring) : gostring :=
  List.filter (fun r => negb (bool_decide (r = 45))) s.

Section WithLib.
Context `{Lib}.

(** The four nested tests on [cell[1]]: it is a non-empty array, whose first
    element is an array of more than one element, whose second element is
    an object that holds a string under "start_date". *)
Definition startDate (cell : list any) : option gostring :=
  match cell with
  | _ :: Array (Array (_ :: Object dm :: _) :: _) :: _ =>
      match dm !! runes "start_date" with
      | Some (Text ds) => Some ds
      | _ => None
      end
  | _ => None
  end.

(** One iteration of the loop of [parseProps], for the property [k] with the
    raw value [rawv]. *)
Definition parseProp (st : parsed.t) (k : gostring) (rawv : list Z) : outcome parsed.t :=
  match unmarshalCells rawv with
  | None => Ok st
  | Some [] => Ok st
  | Some (cell :: _) =>
      match startDate cell with
      | Some ds =>
          Ok {| parsed.title := parsed.title st;
                parsed.props := <[k := ds]> (parsed.props st);
                parsed.releasedAt :=
                  if bool_decide (k = runes "?igY") then ds else parsed.releasedAt st |}
      | None =>
          match cell with
          | [] => Panic "index out of range [0] with length 0"
          | Text text :: _ =>
              Ok {| parsed.title :=
                      if bool_decide (k = runes "title") then text else parsed.title st;
                    parsed.props := <[k := text]> (parsed.props st);
                    parsed.releasedAt := parsed.releasedAt st |}
          | _ :: _ => Ok st
          end
      end
  end.

(** [parseProps], the order in which [range rb.Value.Properties] yields the
    properties being given. *)
Definition parseProps (order : list (gostring * list Z)) : outcome parsed.t :=
  foldl (fun acc kv =>
           match acc with
           | Ok st => parseProp st kv.1 kv.2
           | other => other
           end)
        (Ok parsed.zero) order.

(** What a property contributes, read off its raw value alone. *)
Inductive reading : Type :=
| Skipped
| Dated (ds : gostring)
| Plain (text : gostring)
| EmptyCell.

Definition readProp (rawv : list Z) : reading :=
  match unmarshalCells rawv with
  | None => Skipped
  | Some [] => Skipped
  | Some (cell :: _) =>
      match startDate cell with
      | Some ds => Dated ds
      | None =>
          match cell with
          | [] => EmptyCell
          | Text text :: _ => Plain text
          | _ :: _ => Skipped
          end
      end
  end.

Definition valueOf (rawv : list Z) : option gostring :=
  match readProp rawv with
  | Dated ds => Some ds
  | Plain text => Some text
  | _ => None
  end.

Definition textOf (rawv : list Z) : option gostring :=
  match readProp rawv with Plain text => Some text | _ => None end.

Definition dateOf (rawv : list Z) : option gostring :=
  match readProp rawv with Dated ds => Some ds | _ => None end.

(** The body of the loop over the blocks: the card of a block, [None] for a
    block that is skipped. *)
Definition blockCard (id : gostring) (raw : list Z) : option (outcome Cubecraft.Card.t) :=
  match unmarshalBlock raw with
  | None => None
  | Some rb =>
      if bool_decide (rawBlock.ParentTable rb ≠ runes "collection") then None
      else
        Some match parseProps (map_to_list (rawBlock.Properties rb)) with
             | Ok st =>
                 Ok {| Cubecraft.Card.ID := id;
                       Cubecraft.Card.Title := parsed.title st;
                       Cubecraft.Card.URL :=
                         notionSiteBaseURL ++ runes "?v=" ++ dropDashes collectionViewID
                           ++ runes "&p=" ++ dropDashes id ++ runes "&pm=s";
                       Cubecraft.Card.Properties := parsed.props st;
                       Cubecraft.Card.CreatedAt := rawBlock.CreatedTime rb;
                       Cubecraft.Card.UpdatedAt := rawBlock.LastEditedTime rb;
                       Cubecraft.Card.ReleasedAt := parsed.releasedAt st |}
             | Err e => Err e
             | Panic m => Panic m
             end
  end.

(** The loop over [full.RecordMap.Block], in the order [blocks]. *)
Definition cardsOf (blocks : list (gostring * list Z)) : outcome (list Cubecraft.Card.t) :=
  foldl (fun acc b =>
           match acc with
           | Ok cards =>
               match blockCard b.1 b.2 with
               | None => Ok cards
               | Some (Ok card) => Ok (cards ++ [card])
               | Some (Err e) => Err e
               | Some (Panic m) => Panic m
               end
           | other => other
           end)
        (Ok []) blocks.

End WithLib.
End Notion.

(** ** The cubecraft handlers *)
Module CubecraftHandlers.

Module cubeItemOut.
Record t : Type := {
  ID : gostring;
  Slug : gostring;
  Title : gostring;
  Status : gostring;
  Category : gostring;
  Network : gostring;
  ProjectLead : gostring;
  Date : gostring;
  LastModified : gostring;
  ETA : gostring;
  Released : bool;
  ReleasedAt : gostring;
  DateUnix : Z;
  LastModifiedUnix : Z;
  URL : gostring;
  Source : gostring
}.
End cubeItemOut.

(** The library functions [flattenPages] calls. *)
Class Lib : Type := {
  (** [time.Parse(time.RFC3339, s)]: the instant, or [None] on error. *)
  parseRFC3339 : gostring -> option time;
  (** [strings.EqualFold]. *)
  EqualFold : gostring -> gostring -> bool
}.

(** [t.Unix()]: the whole seconds since the epoch. *)
Definition UnixSeconds (t : time) : Z := t `div` Second.

(** What [ByColumn] writes. *)
Inductive response : Type :=
| Failure (code : Z) (e : option error)
| Items (items : list cubeItemOut.t)
| Crash (msg : string).

Section WithLib.
Context `{Unicode} `{Cubecraft.Lib} `{Lib}.

(** [dateUnix], [lmUnix]: 0 unless the string parses. *)
Definition unixOf (s : gostring) : Z :=
  match parseRFC3339 s with
  | Some t => UnixSeconds t
  | None => 0
  end.

(** The body of the inner loop of [flattenPages]. *)
Definition flattenItem (it : Hive.RoadmapItem.t) : cubeItemOut.t :=
  {| cubeItemOut.ID := Hive.RoadmapItem.ID it;
     cubeItemOut.Slug := Hive.RoadmapItem.Slug it;
     cubeItemOut.Title := Hive.RoadmapItem.Title it;
     cubeItemOut.Status := Hive.RoadmapItem.Status it;
     cubeItemOut.Category := Hive.RoadmapItem.Category it;
     cubeItemOut.Network := Hive.RoadmapItem.Network it;
     cubeItemOut.ProjectLead := Hive.RoadmapItem.ProjectLead it;
     cubeItemOut.Date := Hive.RoadmapItem.Date it;
     cubeItemOut.LastModified := Hive.RoadmapItem.LastModified it;
     cubeItemOut.ETA := Hive.RoadmapItem.ETA it;
     cubeItemOut.Released := EqualFold (Hive.RoadmapItem.Status it) (runes "Released");
     cubeItemOut.ReleasedAt := Hive.RoadmapItem.ETA it;
     cubeItemOut.DateUnix := unixOf (Hive.RoadmapItem.Date it);
     cubeItemOut.LastModifiedUnix := unixOf (Hive.RoadmapItem.LastModified it);
     cubeItemOut.URL := Hive.RoadmapItem.URL it;
     cubeItemOut.Source := runes "cubecraft" |}.

Definition flattenPages (pages : list Hive.RoadmapPage.t) : list cubeItemOut.t :=
  pages ≫= (fun p => flattenItem <$> Hive.RoadmapPage.Items p).

(** [Handlers.ByColumn], [column] being [chi.URLParam(r, "column")] and
    [sortBy] the first value of the query parameter of that name. *)
Definition ByColumn (s : Cubecraft.service.t) (env : Cubecraft.allEnv)
    (column sortBy : gostring) : response * Cubecraft.service.t :=
  match Cubecraft.ByColumn s env column sortBy with
  | (Cubecraft.BadRequest, s') => (Failure 400 None, s')
  | (Cubecraft.BadGateway e, s') => (Failure 502 (Some e), s')
  | (Cubecraft.Crash m, s') => (Crash m, s')
  | (Cubecraft.StatusOK pages, s') => (Items (flattenPages pages), s')
  end.

(** The entry of the flat list for a canonical item. *)
Definition itemOut (it : Cubecraft.item.t) : cubeItemOut.t :=
  flattenItem (Cubecraft.toDTO 0 it).

End WithLib.
End CubecraftHandlers.

(* ===================================================================== *)
(** * Definitions used to state the properties *)
(* ===================================================================== *)

Module TrackerSpec.
Section S.
Context {A : Type} `{Tracked A}.
Import Tracker.
(** The entry that [record] appends for [it] when the index [index] is the
    one the item meets. *)
Definition changeOf (now : time) (index : gmap (list Z) (list Z)) (it : A)
    : option (changeEntry A) :=
  match index !! itemID it with
  | Some prev =>
      if bool_decide (prev ≠ itemStatus it)
      then Some {| At := now; From := prev; To := itemStatus it; Item := it |}
      else None
  | None => None
  end.
End S.
End TrackerSpec.

Module HiveSpec.
(** The pool as [FetchAllPages] sets it up once the first response [first]
    has come back and declared [total >= 1] pages. *)
Definition initialPool (c1 : Hive.Client.t) (base : Hive.Query.t)
    (first : Hive.hiveResponse.t) : Hive.pool.t :=
  {| Hive.pool.client := c1;
     Hive.pool.jobs := seqZ 2 (Hive.hiveResponse.TotalPages first - 1);
     Hive.pool.busy := [];
     Hive.pool.results :=
       <[0%nat := first]> (replicate (Z.to_nat (Hive.hiveResponse.TotalPages first))
                             Hive.hiveResponse.zero);
     Hive.pool.firstErr := None;
     Hive.pool.calls := [(Hive.effectivePage base, @Ok Hive.hiveResponse.t first)];
     Hive.pool.panicked := None |}.

(** [workers := c.maxConcurrency; if workers > total { workers = total }]. *)
Definition workersFor (c : Hive.Client.t) (total : Z) : Z :=
  if bool_decide (total < Hive.Client.maxConcurrency c) then total
  else Hive.Client.maxConcurrency c.

(** The errors that come from the exchange with the upstream, as opposed to
    those that reject the query. *)
Definition upstreamError (e : error) : Prop :=
  match e with
  | ErrUnknownColumn _ | ErrInvalidColumn => False
  | _ => True
  end.
End HiveSpec.

Module NotionSpec.
Section S.
Context `{Notion.Lib}.
(** The card of a block that yields one. *)
Definition cardOk (b : gostring * list Z) : option Cubecraft.Card.t :=
  match Notion.blockCard b.1 b.2 with
  | Some (Ok card) => Some card
  | _ => None
  end.
(** A block whose properties make [parseProps] panic. *)
Definition panics (b : gostring * list Z) : Prop :=
  exists m, Notion.blockCard b.1 b.2 = Some (Panic m).
(** What [parseProps] returns for the properties [m], whatever the order. *)
Definition parsedOf (m : gmap (list Z) (list Z)) (st : Notion.parsed.t) : Prop :=
  Notion.parsed.props st = omap Notion.valueOf m
  /\ Notion.parsed.title st = default [] (m !! runes "title" ≫= Notion.textOf)
  /\ Notion.parsed.releasedAt st = default [] (m !! runes "?igY" ≫= Notion.dateOf).
End S.
End NotionSpec.

(* ===================================================================== *)
(** * Concrete data used to exercise the statements *)
(* ===================================================================== *)

Module Demo.

(** [unicode.ToLower] on ASCII (the other runes are left alone here). *)
Definition asciiToLower (r : rune) : rune :=
  if bool_decide (65 <= r <= 90) then r + 32 else r.

Definition unicode : Unicode := {| unicodeToLower := asciiToLower |}.

(** A roadmap item with the given identifier and status. *)
Definition post (id status : string) : Hive.RoadmapItem.t :=
  {| Hive.RoadmapItem.ID := runes id;
     Hive.RoadmapItem.Slug := runes id;
     Hive.RoadmapItem.Title := [];
     Hive.RoadmapItem.Status := runes status;
     Hive.RoadmapItem.Category := [];
     Hive.RoadmapItem.Upvotes := 0;
     Hive.RoadmapItem.Date := [];
     Hive.RoadmapItem.LastModified := [];
     Hive.RoadmapItem.Pinned := false;
     Hive.RoadmapItem.ETA := [];
     Hive.RoadmapItem.ContentHTML := [];
     Hive.RoadmapItem.ContentText := [];
     Hive.RoadmapItem.Page := 1;
     Hive.RoadmapItem.Network := [];
     Hive.RoadmapItem.ProjectLead := [];
     Hive.RoadmapItem.URL := [] |}.

Definition firstFetch : list Hive.RoadmapItem.t :=
  [post "X" "In Progress"; post "Y" "Released"].
Definition secondFetch : list Hive.RoadmapItem.t :=
  [post "X" "Released"; post "Y" "Released"].

(** Three fetches, then a read, one hour apart. *)
Definition history : list (Tracker.call Hive.RoadmapItem.t) :=
  [ Tracker.CallRecord (1 * Hour) firstFetch;
    Tracker.CallRecord (2 * Hour) secondFetch;
    Tracker.CallRecord (3 * Hour) secondFetch;
    Tracker.CallUpdates (4 * Hour) ].

(** A result set that holds the identifier [X] twice, with two statuses. *)
Definition twoStatuses : list Hive.RoadmapItem.t :=
  [post "X" "In Progress"; post "X" "Released"].

Definition thirdFetch : list Hive.RoadmapItem.t :=
  [post "X" "Released"; post "Y" "In Progress"].

(** Three fetches one hour apart, each but the first finding a change, and
    two reads: one that read the clock at 5 h and took the mutex before the
    fetch of 2 h, one at the end. *)
Definition interleaved : list (Tracker.call Hive.RoadmapItem.t) :=
  [ Tracker.CallRecord (1 * Hour) firstFetch;
    Tracker.CallUpdates (5 * Hour);
    Tracker.CallRecord (2 * Hour) secondFetch;
    Tracker.CallRecord (3 * Hour) thirdFetch;
    Tracker.CallUpdates (4 * Hour) ].

(** Two overlapping fetches after a first one: the clock readings along the
    order in which the calls take the mutex are 1 h, 3 h, 2 h. *)
Definition overlapping : list (Tracker.call Hive.RoadmapItem.t) :=
  [ Tracker.CallRecord (1 * Hour) firstFetch;
    Tracker.CallRecord (3 * Hour) [post "Y" "In Progress"];
    Tracker.CallRecord (2 * Hour) [post "X" "Released"] ].

(** An entry detected at instant [t], and a tracker whose log holds it. *)
Definition entryAt (t : time) : Tracker.changeEntry Hive.RoadmapItem.t :=
  {| Tracker.At := t; Tracker.From := runes "In Progress";
     Tracker.To := runes "Released"; Tracker.Item := post "X" "Released" |}.

Definition loggedAt (t : time) : Tracker.state Hive.RoadmapItem.t :=
  {| Tracker.prevStatus := {[ runes "X" := runes "Released" ]};
     Tracker.updates := [ entryAt t ] |}.

(** A hive client with a 30 s TTL that has cached the body [[1]] for the URL
    [u], valid until instant 100 s; and the world's answer to a call made at
    instant 50 s: status 200 with body [[2]]. *)
Definition u : gostring := runes "https://updates.playhive.com/api/v1/submission?page=1".

Definition cachedClient : Hive.Client.t :=
  {| Hive.Client.baseURL := Hive.DefaultBaseURL;
     Hive.Client.httpClient := [];
     Hive.Client.cache :=
       {[ u := {| Hive.cacheEntry.body := [1];
                  Hive.cacheEntry.expiresAt := 100 * Second |} ]};
     Hive.Client.cacheTTL := 30 * Second;
     Hive.Client.maxConcurrency := 2 |}.

Definition answerAt (t : time) (status : Z) (payload : list Z) : Hive.getEnv :=
  {| Hive.checkedAt := t;
     Hive.reply := Hive.Response status payload None;
     Hive.storedAt := t + Second |}.

(** Stand-ins for the library functions, to run the code on examples: URLs
    are the base followed by the pairs, a response body is the two bytes
    [page; totalPages], dates are not parsed and instants are printed as
    numbers. *)
Definition hiveLib : Hive.Lib :=
  {| Hive.urlParses := fun _ => true;
     Hive.urlWithQuery := fun base params =>
       base ++ runes "?" ++
       flat_map (fun kv => kv.1 ++ runes "=" ++ kv.2 ++ runes "&") params;
     Hive.jsonUnmarshal := fun raw =>
       match raw with
       | [page; total] =>
           Some {| Hive.hiveResponse.Results := [];
                   Hive.hiveResponse.Page := page;
                   Hive.hiveResponse.Limit := 10;
                   Hive.hiveResponse.TotalPages := total;
                   Hive.hiveResponse.TotalResults := 10 * total |}
       | _ => None
       end |}.

Definition cubeLib : Cubecraft.Lib :=
  {| Cubecraft.parseDate := fun _ => None;
     Cubecraft.formatRFC3339 := fun t => runes (pretty t) |}.

(** A query for a column, page [p]. *)
Definition query (column : string) (p : Z) : Hive.Query.t :=
  {| Hive.Query.Column := runes column; Hive.Query.Page := p;
     Hive.Query.SortBy := []; Hive.Query.InReview := false;
     Hive.Query.IncludePinned := true; Hive.Query.Raw := false;
     Hive.Query.BypassCache := false |}.

(** A card with a title and a status. *)
Definition card (id title status : string) : Cubecraft.Card.t :=
  {| Cubecraft.Card.ID := runes id;
     Cubecraft.Card.Title := runes title;
     Cubecraft.Card.URL := [];
     Cubecraft.Card.Properties := {[ runes "3E6J" := runes status ]};
     Cubecraft.Card.CreatedAt := 0;
     Cubecraft.Card.UpdatedAt := 0;
     Cubecraft.Card.ReleasedAt := [] |}.

Definition board : list Cubecraft.Card.t :=
  [ card "a" "Alpha" "Released"; card "b" "Beta" "In Progress";
    card "c" "Gamma" "Released"; card "d" "Delta" "Testing" ].

(** The world answers one call of [All] with the board. *)
Definition boardEnv : Cubecraft.allEnv :=
  {| Cubecraft.fetched :=
       {| Cubecraft.checkedAt := 0; Cubecraft.reply := Cubecraft.Decoded board;
          Cubecraft.storedAt := 0 |};
     Cubecraft.recordedAt := 0;
     Cubecraft.ranges := fun _ => [] |}.

Definition cubeService : Cubecraft.service.t :=
  Cubecraft.NewService (Cubecraft.NewClient []).

(** A hive client as the router builds it, with the cache switched off. *)
Definition client0 : Hive.Client.t :=
  Hive.NewClient Hive.DefaultBaseURL [Hive.WithCacheTTL 0; Hive.WithMaxConcurrency 2].

(** The upstream answers a request for page [p] of three. *)
Definition pageOfThree (p : Z) : Hive.getEnv := answerAt p 200 [p; 3].

Definition failing (t : time) : Hive.getEnv :=
  {| Hive.checkedAt := t; Hive.reply := Hive.DoFails (runes "connection reset");
     Hive.storedAt := t |}.

(** Two workers take the pages 2 and 3; the call for page 3 returns first,
    then the call for page 2, answered by [last]. *)
Definition outOfOrder (last : Hive.getEnv) : list Hive.event :=
  [Hive.Receive; Hive.Receive; Hive.Return 1 (pageOfThree 3); Hive.Return 0 last].

End Demo.

(** More data: the clients as the router builds them, and stand-ins for
    the decoders of the Notion response. *)
Module DemoMore.

(** The hive client as the router builds it. *)
Definition routerOptions : list Hive.ClientOption :=
  [Hive.WithCacheTTL (30 * Second); Hive.WithMaxConcurrency 4].

Definition routerClient : Hive.Client.t :=
  Hive.NewClient Hive.DefaultBaseURL routerOptions.

(** The cubecraft client as the router builds it (a TTL of two minutes). *)
Definition routerCubeClient : Cubecraft.Client.t :=
  Cubecraft.NewClient [Cubecraft.WithCacheTTL (120 * Second)].

(** Stand-ins for the decoders of the Notion response: the raw value [[1]]
    is a title cell, [[2]] a date cell, [[3]] an array holding an empty
    cell; the raw block [[n]] is a card of the collection with the
    properties [title := [1]] and, for [n = 2], [?igY := [2]]. *)
Definition notionLib : Notion.Lib :=
  {| Notion.unmarshalCells := fun rawv =>
       match rawv with
       | [1] => Some [[Notion.Text (runes "Alpha")]]
       | [2] => Some [[Notion.Text (runes "d");
                       Notion.Array
                         [Notion.Array
                            [Notion.Text (runes "d");
                             Notion.Object
                               {[ runes "start_date" := Notion.Text (runes "2024-05-01") ]}]]]]
       | [3] => Some [[]]
       | _ => None
       end;
     Notion.unmarshalBlock := fun raw =>
       match raw with
       | [n] =>
           Some {| Notion.rawBlock.ParentTable :=
                     if bool_decide (n = 0) then runes "space" else runes "collection";
                   Notion.rawBlock.Properties :=
                     if bool_decide (n = 2)
                     then {[ runes "title" := [1]; runes "?igY" := [2] ]}
                     else {[ runes "title" := [1] ]};
                   Notion.rawBlock.CreatedTime := 1000 * n;
                   Notion.rawBlock.LastEditedTime := 2000 * n |}
       | _ => None
       end |}.

(** The first page of three, as [Demo.hiveLib] decodes it. *)
Definition firstOfThree : Hive.hiveResponse.t :=
  {| Hive.hiveResponse.Results := []; Hive.hiveResponse.Page := 1;
     Hive.hiveResponse.Limit := 10; Hive.hiveResponse.TotalPages := 3;
     Hive.hiveResponse.TotalResults := 30 |}.

(** Properties of a card: a status and a category. *)
Definition twoProperties : gmap (list Z) (list Z) :=
  {[ runes "3E6J" := runes "Released"; runes "K:rY" := runes "Games" ]}.

(** Properties that hold both the key "3E6J" and the key it is renamed to. *)
Definition twoKeys : gmap (list Z) (list Z) :=
  {[ runes "3E6J" := runes "Released"; runes "status" := runes "Testing" ]}.

(** A card with the properties [twoProperties]. *)
Definition richCard : Cubecraft.Card.t :=
  {| Cubecraft.Card.ID := runes "r";
     Cubecraft.Card.Title := runes "Rho";
     Cubecraft.Card.URL := [];
     Cubecraft.Card.Properties := twoProperties;
     Cubecraft.Card.CreatedAt := 0;
     Cubecraft.Card.UpdatedAt := 0;
     Cubecraft.Card.ReleasedAt := [] |}.

Definition properties : gmap (list Z) (list Z) :=
  {[ runes "title" := [1]; runes "?igY" := [2] ]}.

(** [strings.EqualFold] on ASCII; dates are not parsed. *)
Definition handlersLib : CubecraftHandlers.Lib :=
  {| CubecraftHandlers.parseRFC3339 := fun _ => None;
     CubecraftHandlers.EqualFold := fun a b =>
       bool_decide ((Demo.asciiToLower <$> a) = (Demo.asciiToLower <$> b)) |}.

End DemoMore.

(* ===================================================================== *)
(** * Properties of the change tracker *)
(* ===================================================================== *)

Section RangeFacts.

Lemma pickOrder_Permutation {B} (n : nat) : forall (choice : list nat) (l : list B),
  length l = n -> pickOrder n choice l ≡ₚ l.
Proof.
  induction n as [|n IH]; intros choice l Hlen; simpl.
  - by apply nil_length_inv in Hlen as ->.
  - assert ((hd 0 choice `mod` length l < length l)%nat) as Hi.
    { apply Nat.mod_upper_bound. lia. }
    destruct (lookup_lt_is_Some_2 l _ Hi) as [x Hx]. rewrite Hx.
    rewrite IH by (rewrite length_delete by eauto; lia).
    symmetry. by apply delete_Permutation.
Qed.

Lemma pickOrder_complete {B} (l' : list B) : forall l : list B,
  l' ≡ₚ l -> exists choice, pickOrder (length l) choice l = l'.
Proof.
  induction l' as [|x l' IH]; intros l Hp.
  - apply Permutation_nil_l in Hp as <-. by exists [].
  - assert (x ∈ l) as Hin by (rewrite <- Hp; left).
    apply list_elem_of_lookup in Hin as [i Hi].
    pose proof (delete_Permutation l i x Hi) as Hd.
    assert (l' ≡ₚ delete i l) as Hp'.
    { apply (Permutation_cons_inv (a:=x)). by rewrite Hp, <- Hd. }
    destruct (IH _ Hp') as [choice Hc].
    assert (length l = S (length (delete i l))) as Hlen.
    { rewrite length_delete by eauto. apply lookup_lt_Some in Hi. lia. }
    exists (i :: choice). rewrite Hlen at 1. simpl.
    rewrite Nat.mod_small by (by eapply lookup_lt_Some).
    by rewrite Hi, Hc.
Qed.

Lemma pickOrder_nil {B} (l : list B) : pickOrder (length l) [] l = l.
Proof.
  induction l as [|x l IH]; [done|].
  cbn [length pickOrder hd tl]. rewrite Nat.Div0.mod_0_l. simpl. by rewrite IH.
Qed.

(** A choice yields every entry of the map once; every order of the entries
    is yielded by some choice; the empty choice yields the order of
    [map_to_list]. *)
Lemma rangeOrder_Permutation {V} (choice : list nat) (m : gmap (list Z) V) :
  rangeOrder choice m ≡ₚ map_to_list m.
Proof. by apply pickOrder_Permutation. Qed.

Lemma rangeOrder_complete {V} (m : gmap (list Z) V) (order : list (list Z * V)) :
  order ≡ₚ map_to_list m -> exists choice, rangeOrder choice m = order.
Proof. apply pickOrder_complete. Qed.

Lemma rangeOrder_nil {V} (m : gmap (list Z) V) : rangeOrder [] m = map_to_list m.
Proof. apply pickOrder_nil. Qed.

Lemma elem_of_rangeOrder {V} (choice : list nat) (m : gmap (list Z) V) k v :
  (k, v) ∈ rangeOrder choice m <-> m !! k = Some v.
Proof. by rewrite rangeOrder_Permutation, elem_of_map_to_list. Qed.

End RangeFacts.

Section TrackerFacts.
Context {A : Type} `{Tracked A}.
Implicit Types (s st : Tracker.state A) (it : A) (items : list A)
  (log : list (Tracker.changeEntry A)) (u : Tracker.changeEntry A).

Import Tracker.

Lemma retention_value : retention = 86400000000000.
Proof. reflexivity. Qed.

Lemma After_true (t u' : time) : After t u' = true <-> u' < t.
Proof. unfold After. rewrite bool_decide_eq_true. tauto. Qed.

Lemma elem_of_prune now log u :
  u ∈ prune now log <-> u ∈ log /\ now - retention < At u.
Proof.
  unfold prune. rewrite !list_elem_of_In, filter_In, After_true.
  unfold keepAfter, Add. intuition lia.
Qed.

Lemma prune_app now log1 log2 :
  prune now (log1 ++ log2) = prune now log1 ++ prune now log2.
Proof. apply List.filter_app. Qed.

Lemma prune_keeps_all now log :
  Forall (fun u => now - retention < At u) log -> prune now log = log.
Proof.
  induction 1 as [|u log Hu Hlog IH]; [done|].
  unfold prune in *. simpl. rewrite IH.
  assert (After (At u) (keepAfter now) = true) as ->; [|done].
  apply After_true. unfold keepAfter, Add. lia.
Qed.

Lemma prune_distinctEnds now log : distinctEnds log -> distinctEnds (prune now log).
Proof.
  unfold distinctEnds. rewrite !Forall_forall. intros Hl u Hu.
  apply elem_of_prune in Hu as [Hu _]. by apply Hl.
Qed.

Lemma prune_chronological now log : chronological log -> chronological (prune now log).
Proof.
  unfold chronological. induction 1 as [|u log Hs IH Hu]; [constructor|].
  unfold prune in *. simpl. destruct (After _ _); [|done].
  constructor; [done|].
  rewrite Forall_forall in *. intros v Hv. apply Hu.
  apply list_elem_of_In, filter_In in Hv. apply list_elem_of_In. tauto.
Qed.

(** The three cases of one iteration. *)
Lemma recordItem_unseen now st it :
  prevStatus st !! itemID it = None ->
  recordItem now st it =
    {| prevStatus := <[itemID it := itemStatus it]> (prevStatus st);
       updates := updates st |}.
Proof. intros Hl. unfold recordItem. by rewrite Hl. Qed.

Lemma recordItem_changed now st it prev :
  prevStatus st !! itemID it = Some prev -> prev ≠ itemStatus it ->
  recordItem now st it =
    {| prevStatus := <[itemID it := itemStatus it]> (prevStatus st);
       updates := updates st ++
         [ {| At := now; From := prev; To := itemStatus it; Item := it |} ] |}.
Proof. intros Hl Hne. unfold recordItem. rewrite Hl. by rewrite bool_decide_true. Qed.

Lemma recordItem_unchanged now st it :
  prevStatus st !! itemID it = Some (itemStatus it) -> recordItem now st it = st.
Proof. intros Hl. unfold recordItem. rewrite Hl. by rewrite bool_decide_false by naive_solver. Qed.

(** What an iteration may add to the log. *)
Lemma recordItem_updates now st it :
  exists new, updates (recordItem now st it) = updates st ++ new
    /\ Forall (fun u => At u = now /\ From u ≠ To u) new.
Proof.
  unfold recordItem. destruct (prevStatus st !! itemID it) as [prev|].
  - case_bool_decide.
    + eexists [_]. split; [done|]. repeat constructor; done.
    + exists []. by rewrite app_nil_r.
  - exists []. by rewrite app_nil_r.
Qed.

Lemma foldl_recordItem_updates now items st :
  exists new, updates (foldl (recordItem now) st items) = updates st ++ new
    /\ Forall (fun u => At u = now /\ From u ≠ To u) new.
Proof.
  revert st. induction items as [|it items IH]; intros st; simpl.
  - exists []. by rewrite app_nil_r.
  - destruct (IH (recordItem now st it)) as (new2 & -> & H2).
    destruct (recordItem_updates now st it) as (new1 & -> & H1).
    exists (new1 ++ new2). rewrite app_assoc. split; [done|]. by apply Forall_app.
Qed.

Lemma record_updates now items s :
  exists new, updates (record now items s) = prune now (updates s) ++ new
    /\ Forall (fun u => At u = now /\ From u ≠ To u) new.
Proof. apply (foldl_recordItem_updates now items). Qed.

Lemma record_snoc now items it s :
  record now (items ++ [it]) s = recordItem now (record now items s) it.
Proof. unfold record. by rewrite foldl_app. Qed.

Lemma record_split now pre it post s :
  record now (pre ++ it :: post) s =
  foldl (recordItem now) (recordItem now (record now pre s) it) post.
Proof. unfold record. by rewrite foldl_app. Qed.

(** After an iteration on [it] the index holds the status of [it]. *)
Lemma recordItem_index_self now st it :
  prevStatus (recordItem now st it) !! itemID it = Some (itemStatus it).
Proof.
  unfold recordItem. destruct (prevStatus st !! itemID it) as [prev|] eqn:Hl.
  - case_bool_decide as Hd; simpl.
    + by rewrite lookup_insert_eq.
    + rewrite Hl. f_equal. by destruct (decide (prev = itemStatus it)).
  - simpl. by rewrite lookup_insert_eq.
Qed.

Lemma recordItem_index_other now st it k :
  k ≠ itemID it -> prevStatus (recordItem now st it) !! k = prevStatus st !! k.
Proof.
  intros Hk. unfold recordItem. destruct (prevStatus st !! itemID it) as [prev|].
  - case_bool_decide; simpl; [|done]. by rewrite lookup_insert_ne.
  - simpl. by rewrite lookup_insert_ne.
Qed.

Lemma foldl_recordItem_index now items st :
  consistent items ->
  forall it, it ∈ items ->
    prevStatus (foldl (recordItem now) st items) !! itemID it = Some (itemStatus it).
Proof.
  induction items as [|x items IH] using rev_ind; intros Hc it Hin.
  - by apply elem_of_nil in Hin.
  - rewrite foldl_app. simpl.
    destruct (decide (itemID it = itemID x)) as [Heq|Hne].
    + rewrite Heq, recordItem_index_self. f_equal. symmetry.
      apply Hc; [done| |done]. apply elem_of_app. right. by apply list_elem_of_singleton.
    + rewrite recordItem_index_other by done.
      apply elem_of_app in Hin as [Hin|Hin].
      * apply IH; [|done]. intros a b Ha Hb. apply Hc; apply elem_of_app; by left.
      * apply list_elem_of_singleton in Hin. by subst.
Qed.

Lemma foldl_recordItem_fixed now items st :
  (forall it, it ∈ items -> prevStatus st !! itemID it = Some (itemStatus it)) ->
  foldl (recordItem now) st items = st.
Proof.
  induction items as [|x items IH]; intros Hall; [done|]. simpl.
  rewrite recordItem_unchanged by (apply Hall; by left).
  apply IH. intros it Hin. apply Hall. by right.
Qed.

Lemma record_prevStatus_prune now items s :
  record now items s =
  foldl (recordItem now) {| prevStatus := prevStatus s; updates := prune now (updates s) |} items.
Proof. done. Qed.

Lemma record_twice now now' items s :
  consistent items ->
  record now' items (record now items s) =
    {| prevStatus := prevStatus (record now items s);
       updates := prune now' (updates (record now items s)) |}.
Proof.
  intros Hc. unfold record at 1. apply foldl_recordItem_fixed.
  intros it Hin. simpl. by apply foldl_recordItem_index.
Qed.

(** The log after a history carries at most the last clock reading. *)
Definition bounded (t : time) log : Prop := Forall (fun u => At u <= t) log.

Lemma record_invariant now t items s :
  t <= now ->
  distinctEnds (updates s) -> chronological (updates s) -> bounded t (updates s) ->
  distinctEnds (updates (record now items s))
  /\ chronological (updates (record now items s))
  /\ bounded now (updates (record now items s)).
Proof.
  intros Ht Hd Hc Hb.
  destruct (record_updates now items s) as (new & -> & Hnew).
  assert (bounded t (prune now (updates s))) as Hb'.
  { unfold bounded in *. rewrite Forall_forall in *. intros u Hu.
    apply elem_of_prune in Hu as [Hu _]. by apply Hb. }
  split; [|split].
  - apply Forall_app. split; [by apply prune_distinctEnds|].
    eapply Forall_impl; [exact Hnew|]. by intros u [_ Hne].
  - apply StronglySorted_app_2.
    + intros u v Hu Hv. unfold bounded in Hb'. rewrite Forall_forall in Hb', Hnew.
      specialize (Hb' u Hu). destruct (Hnew v Hv) as [-> _]. lia.
    + by apply prune_chronological.
    + clear -Hnew. induction Hnew as [|u new [Hu Hne] Hnew' IH]; constructor; [done|].
      eapply Forall_impl; [exact Hnew'|]. simpl. intros v [Hv _]. lia.
  - apply Forall_app. split.
    + eapply Forall_impl; [exact Hb'|]. simpl. intros; lia.
    + eapply Forall_impl; [exact Hnew|]. simpl. intros u [-> _]. lia.
Qed.

Lemma exec_invariant cs : forall t s,
  monotone t cs ->
  distinctEnds (updates s) -> chronological (updates s) -> bounded t (updates s) ->
  distinctEnds (updates (exec cs s).1) /\ chronological (updates (exec cs s).1)
  /\ Forall (fun out => distinctEnds out /\ chronological out) (exec cs s).2.
Proof.
  induction cs as [|[now items|now] cs IH]; intros t s Hm Hd Hc Hb; simpl.
  - by repeat split.
  - destruct Hm as [Ht Hm]. simpl in *.
    destruct (record_invariant now t items s) as (Hd' & Hc' & Hb'); try done.
    by apply (IH now).
  - destruct Hm as [Ht Hm]. simpl in *.
    destruct (IH now s) as (Hd' & Hc' & Houts); try done.
    { eapply Forall_impl; [exact Hb|]. simpl. intros; lia. }
    destruct (exec cs s) as [s' outs]. simpl in *.
    repeat split; try done. constructor; [|done].
    split; [by apply prune_distinctEnds | by apply prune_chronological].
Qed.

Lemma monotone_recordTimes (cs : list (call A)) : forall t,
  monotone t cs ->
  Forall (fun r => t <= r) (recordTimes cs) /\ StronglySorted Z.le (recordTimes cs).
Proof.
  induction cs as [|[now items|now] cs IH]; intros t Hm; simpl.
  - split; constructor.
  - destruct Hm as [Ht Hm]. simpl in *. destruct (IH now Hm) as [Hall Hs].
    split.
    + constructor; [done|]. eapply Forall_impl; [exact Hall|]. simpl. intros; lia.
    + by constructor.
  - destruct Hm as [Ht Hm]. simpl in *. destruct (IH now Hm) as [Hall Hs].
    split; [|done]. eapply Forall_impl; [exact Hall|]. simpl. intros; lia.
Qed.

(** The log stays in order as long as the [record] calls to come carry
    readings that are not below the stamps of the log. *)
Lemma exec_chronological (cs : list (call A)) : forall s,
  StronglySorted Z.le (recordTimes cs) ->
  chronological (updates s) ->
  Forall (fun u => Forall (fun r => At u <= r) (recordTimes cs)) (updates s) ->
  chronological (updates (exec cs s).1) /\ Forall chronological (exec cs s).2.
Proof.
  induction cs as [|[now items|now] cs IH]; intros s Hs Hc Hb; simpl.
  - by split.
  - simpl in Hs. apply StronglySorted_inv in Hs as [Hs Hnow].
    destruct (record_updates now items s) as (new & Heq & Hnew).
    apply IH; [done| |]; rewrite Heq.
    + apply StronglySorted_app_2.
      * intros u v Hu Hv. apply elem_of_prune in Hu as [Hu _].
        rewrite Forall_forall in Hb, Hnew. specialize (Hb u Hu). simpl in Hb.
        apply Forall_inv in Hb. destruct (Hnew v Hv) as [-> _]. done.
      * by apply prune_chronological.
      * clear -Hnew. induction Hnew as [|u new [Hu Hne] Hnew' IH]; constructor; [done|].
        eapply Forall_impl; [exact Hnew'|]. simpl. intros v [Hv _]. lia.
    + apply Forall_app. split.
      * rewrite Forall_forall in Hb. apply Forall_forall. intros u Hu.
        apply elem_of_prune in Hu as [Hu _]. specialize (Hb u Hu). simpl in Hb.
        by apply Forall_inv_tail in Hb.
      * eapply Forall_impl; [exact Hnew|]. simpl. intros u [-> _]. done.
  - destruct (IH s Hs Hc Hb) as [Hc' Houts].
    destruct (exec cs s) as [s' outs]. simpl in *.
    split; [done|]. constructor; [|done]. by apply prune_chronological.
Qed.

Lemma record_distinctEnds now items s :
  distinctEnds (updates s) -> distinctEnds (updates (record now items s)).
Proof.
  intros Hd. destruct (record_updates now items s) as (new & -> & Hnew).
  apply Forall_app. split; [by apply prune_distinctEnds|].
  eapply Forall_impl; [exact Hnew|]. by intros u [_ Hne].
Qed.

Lemma exec_distinctEnds cs : forall s,
  distinctEnds (updates s) ->
  distinctEnds (updates (exec cs s).1) /\ Forall distinctEnds (exec cs s).2.
Proof.
  induction cs as [|[now items|now] cs IH]; intros s Hd; simpl.
  - by split.
  - apply IH. by apply record_distinctEnds.
  - destruct (IH s Hd) as [Hd' Houts].
    destruct (exec cs s) as [s' outs]. simpl in *.
    split; [done|]. constructor; [|done]. by apply prune_distinctEnds.
Qed.

End TrackerFacts.

Section TrackerClaims.
Context {A : Type} `{Tracked A}.
Import Tracker.

(** C4, as the code has it.  In a call of [record], the item [it] that follows the items [pre]
    meets the index as [pre] left it: when its identifier is absent, the
    status is stored and the log stays as it is; when it is present with
    another status [prev], the one entry [{From := prev; To := status}] is
    appended and the index updated; when it is present with the same status,
    nothing changes.  Consequently a second [record] of the same items (items
    that agree on the status of each identifier, as the items of one result
    set do) appends nothing: it leaves the index alone and only prunes. *)
Theorem record_change_cases (now : time) (s : state A) (pre post : list A) (it : A) :
  record now (pre ++ it :: post) s
    = foldl (recordItem now) (recordItem now (record now pre s) it) post
  /\ (prevStatus (record now pre s) !! itemID it = None ->
      recordItem now (record now pre s) it =
        {| prevStatus := <[itemID it := itemStatus it]> (prevStatus (record now pre s));
           updates := updates (record now pre s) |})
  /\ (forall prev,
      prevStatus (record now pre s) !! itemID it = Some prev -> prev ≠ itemStatus it ->
      recordItem now (record now pre s) it =
        {| prevStatus := <[itemID it := itemStatus it]> (prevStatus (record now pre s));
           updates := updates (record now pre s) ++
             [ {| At := now; From := prev; To := itemStatus it; Item := it |} ] |})
  /\ (prevStatus (record now pre s) !! itemID it = Some (itemStatus it) ->
      recordItem now (record now pre s) it = record now pre s)
  /\ (forall now', consistent (pre ++ it :: post) ->
      record now' (pre ++ it :: post) (record now (pre ++ it :: post) s) =
        {| prevStatus := prevStatus (record now (pre ++ it :: post) s);
           updates := prune now' (updates (record now (pre ++ it :: post) s)) |}).
Proof.
  split; [apply record_split|].
  split; [apply recordItem_unseen|].
  split; [intros prev; apply recordItem_changed|].
  split; [apply recordItem_unchanged|].
  intros now' Hc. by apply record_twice.
Qed.

(** C5.  [record] prunes before it appends: its log is the pruned old log
    followed by entries stamped [now].  [Updates] returns exactly the entries
    of the log younger than 24 hours, and so does the log after a [record].
    An entry whose age is 24 hours less one nanosecond is retained by both;
    an entry that has reached the age of 24 hours (in particular 24 hours
    plus one nanosecond) is in no later read, whatever happened in between,
    and in no log left by a later [record]. *)
Theorem retention_window (now : time) (s : state A) (items : list A) :
  (exists new, updates (record now items s) = prune now (updates s) ++ new
               /\ Forall (fun u => At u = now) new)
  /\ (forall u, u ∈ Updates now s <-> u ∈ updates s /\ now - At u < 24 * Hour)
  /\ (forall u, u ∈ updates (record now items s) -> now - At u < 24 * Hour)
  /\ (forall u, u ∈ updates s -> now - At u = 24 * Hour - Nanosecond ->
        u ∈ Updates now s /\ u ∈ updates (record now items s))
  /\ (forall u, now - At u = 24 * Hour + Nanosecond ->
        forall (later : time) (s' : state A) (items' : list A), now <= later ->
          (u ∉ Updates later s') /\ (u ∉ updates (record later items' s')))
  /\ (forall u (later : time) (s' : state A) (items' : list A),
        24 * Hour <= later - At u ->
        (u ∉ Updates later s') /\ (u ∉ updates (record later items' s'))).
Proof.
  assert (forall t (st : state A) its u,
            u ∈ updates (record t its st) -> t - At u < 24 * Hour) as Hrec.
  { intros t st its u Hu.
    destruct (record_updates t its st) as (new & Heq & Hnew). rewrite Heq in Hu.
    apply elem_of_app in Hu as [Hu|Hu].
    - apply elem_of_prune in Hu as [_ Hu]. rewrite retention_value in Hu.
      unfold Hour, Second. lia.
    - rewrite Forall_forall in Hnew. destruct (Hnew u Hu) as [-> _].
      unfold Hour, Second. lia. }
  assert (forall u (later : time) (s' : state A) (items' : list A),
            24 * Hour <= later - At u ->
            (u ∉ Updates later s') /\ (u ∉ updates (record later items' s'))) as Hold.
  { intros u later s' items' Hage. split.
    - unfold Updates. rewrite elem_of_prune, retention_value.
      unfold Hour, Second in Hage. lia.
    - intros Hu. apply Hrec in Hu. lia. }
  split; [|split; [|split; [|split; [|split]]]].
  - destruct (record_updates now items s) as (new & Heq & Hnew).
    exists new. split; [done|]. eapply Forall_impl; [exact Hnew|]. by intros u [? _].
  - intros u. unfold Updates. rewrite elem_of_prune, retention_value.
    unfold Hour, Second. intuition lia.
  - apply Hrec.
  - intros u Hu Hage.
    assert (u ∈ prune now (updates s)) as Hp.
    { apply elem_of_prune. split; [done|]. rewrite retention_value.
      unfold Hour, Second, Nanosecond in Hage. lia. }
    split; [done|].
    destruct (record_updates now items s) as (new & -> & _).
    apply elem_of_app. by left.
  - intros u Hage later s' items' Hlater. apply Hold.
    unfold Nanosecond in Hage. lia.
  - apply Hold.
Qed.

(** C10, as the code has it.  Along every history of [record] and [Updates]
    calls on a new service, every entry of the log, and of every list that
    [Updates] returned, has [From ≠ To].  When the clock readings of the
    [record] calls do not go back along the history (the [record] calls
    enter the critical section in the order in which they read the clock;
    nothing is asked of the [Updates] calls), the entries of the log, and of
    every list returned, stand in non-decreasing order of [At]. *)
Theorem log_invariant (cs : list (call A)) :
  distinctEnds (updates (exec cs empty).1)
  /\ Forall distinctEnds (exec cs empty).2
  /\ (StronglySorted Z.le (recordTimes cs) ->
        chronological (updates (exec cs empty).1)
        /\ Forall chronological (exec cs empty).2).
Proof.
  destruct (exec_distinctEnds cs empty) as [Hd Houts]; [constructor|].
  split; [done|]. split; [done|]. intros Hs.
  apply exec_chronological; [done|constructor|constructor].
Qed.

End TrackerClaims.

(** The scenario of the specification: [X] goes from "In Progress" to
    "Released" between two fetches, a third fetch changes nothing; the log
    holds the one entry. *)
Example tracker_scenario :
  (Tracker.exec Demo.history Tracker.empty).2 =
    [ [ {| Tracker.At := 2 * Hour; Tracker.From := runes "In Progress";
           Tracker.To := runes "Released";
           Tracker.Item := Demo.post "X" "Released" |} ] ].
Proof. vm_compute. reflexivity. Qed.

Lemma secondFetch_consistent : Tracker.consistent Demo.secondFetch.
Proof.
  intros a b Ha Hb. unfold Demo.secondFetch in *.
  repeat (apply elem_of_cons in Ha as [->|Ha]);
    repeat (apply elem_of_cons in Hb as [->|Hb]);
    try (by apply elem_of_nil in Ha); try (by apply elem_of_nil in Hb);
    vm_compute; congruence.
Defined.

Lemma record_change_cases_witness :
  Tracker.consistent Demo.secondFetch
  /\ Tracker.record (3 * Hour) Demo.secondFetch
       (Tracker.record (2 * Hour) Demo.secondFetch
          (Tracker.record (1 * Hour) Demo.firstFetch Tracker.empty))
     = {| Tracker.prevStatus :=
            Tracker.prevStatus
              (Tracker.record (2 * Hour) Demo.secondFetch
                 (Tracker.record (1 * Hour) Demo.firstFetch Tracker.empty));
          Tracker.updates :=
            Tracker.prune (3 * Hour)
              (Tracker.updates
                 (Tracker.record (2 * Hour) Demo.secondFetch
                    (Tracker.record (1 * Hour) Demo.firstFetch Tracker.empty))) |}.
Proof.
  split; [exact secondFetch_consistent|].
  exact (proj2 (proj2 (proj2 (proj2
           (record_change_cases (2 * Hour)
              (Tracker.record (1 * Hour) Demo.firstFetch Tracker.empty)
              [] [Demo.post "Y" "Released"] (Demo.post "X" "Released")))))
           (3 * Hour) secondFetch_consistent).
Defined.

Lemma retention_window_witness :
  (Demo.entryAt (76 * Hour + Nanosecond) ∈ Tracker.Updates (100 * Hour) (Demo.loggedAt (76 * Hour + Nanosecond))
   /\ Demo.entryAt (76 * Hour + Nanosecond)
        ∈ Tracker.updates (Tracker.record (100 * Hour) Demo.secondFetch
                             (Demo.loggedAt (76 * Hour + Nanosecond))))
  /\ ((Demo.entryAt (76 * Hour - Nanosecond)
         ∉ Tracker.Updates (100 * Hour) (Demo.loggedAt (76 * Hour - Nanosecond)))
      /\ (Demo.entryAt (76 * Hour - Nanosecond)
            ∉ Tracker.updates (Tracker.record (100 * Hour) Demo.secondFetch
                                 (Demo.loggedAt (76 * Hour - Nanosecond))))).
Proof.
  split.
  - apply (proj1 (proj2 (proj2 (proj2
             (retention_window (100 * Hour) (Demo.loggedAt (76 * Hour + Nanosecond))
                Demo.secondFetch))))).
    + apply list_elem_of_singleton. reflexivity.
    + reflexivity.
  - apply (proj1 (proj2 (proj2 (proj2 (proj2
             (retention_window (100 * Hour) (Demo.loggedAt (76 * Hour - Nanosecond))
                Demo.secondFetch)))))
             (Demo.entryAt (76 * Hour - Nanosecond))).
    + reflexivity.
    + vm_compute. congruence.
Defined.

(** Three fetches at 1 h, 2 h and 3 h, with a read between them that had
    read the clock at 5 h: the readings of the history go back, those of
    its [record] calls do not; the log holds two entries, in order. *)
Lemma log_invariant_witness :
  StronglySorted Z.le (Tracker.recordTimes Demo.interleaved)
  /\ (Tracker.monotone 0 Demo.interleaved -> False)
  /\ Tracker.At <$> Tracker.updates (Tracker.exec Demo.interleaved Tracker.empty).1
     = [2 * Hour; 3 * Hour]
  /\ (length <$> (Tracker.exec Demo.interleaved Tracker.empty).2) = [0%nat; 2%nat]
  /\ Tracker.chronological
       (Tracker.updates (Tracker.exec Demo.interleaved Tracker.empty).1)
  /\ Forall Tracker.chronological (Tracker.exec Demo.interleaved Tracker.empty).2.
Proof.
  assert (StronglySorted Z.le (Tracker.recordTimes Demo.interleaved)) as Hs.
  { repeat constructor; vm_compute; congruence. }
  split; [exact Hs|].
  split; [intros (_ & _ & Hback & _); vm_compute in Hback; congruence|].
  split; [vm_compute; reflexivity|].
  split; [vm_compute; reflexivity|].
  exact (proj2 (proj2 (log_invariant Demo.interleaved)) Hs).
Defined.

(** The result set [X: In Progress; X: Released] recorded twice: the first
    call stores the first status and finds a change at the second item; the
    second call finds a change at both items, and appends two entries. *)
Lemma record_twice_counterexample :
  (fun u => (Tracker.At u, Tracker.From u, Tracker.To u))
    <$> Tracker.updates
          (Tracker.record (2 * Hour) Demo.twoStatuses
             (Tracker.record (1 * Hour) Demo.twoStatuses Tracker.empty))
  = [ (1 * Hour, runes "In Progress", runes "Released");
      (2 * Hour, runes "Released", runes "In Progress");
      (2 * Hour, runes "In Progress", runes "Released") ]
  /\ length (Tracker.updates (Tracker.record (1 * Hour) Demo.twoStatuses Tracker.empty))
     = 1%nat
  /\ (Tracker.updates
        (Tracker.record (2 * Hour) Demo.twoStatuses
           (Tracker.record (1 * Hour) Demo.twoStatuses Tracker.empty))
      = Tracker.prune (2 * Hour)
          (Tracker.updates (Tracker.record (1 * Hour) Demo.twoStatuses Tracker.empty))
      -> False)
  /\ (Tracker.consistent Demo.twoStatuses -> False).
Proof.
  split; [vm_compute; reflexivity|]. split; [vm_compute; reflexivity|]. split.
  - intros Heq. apply (f_equal length) in Heq. vm_compute in Heq. discriminate.
  - intros Hc.
    specialize (Hc (Demo.post "X" "In Progress") (Demo.post "X" "Released")
                  ltac:(by left) ltac:(by right; left) eq_refl).
    vm_compute in Hc. discriminate.
Qed.

(** Two calls of [record] overlap: the first to read the clock (at 2 h) is
    the second to take the mutex, after the call that read the clock at 3 h.
    Both find a change; the log then holds the entry stamped 3 h before the
    entry stamped 2 h. *)
Lemma log_order_counterexample :
  Tracker.At <$> Tracker.updates (Tracker.exec Demo.overlapping Tracker.empty).1
    = [3 * Hour; 2 * Hour]
  /\ (Tracker.chronological
        (Tracker.updates (Tracker.exec Demo.overlapping Tracker.empty).1) -> False).
Proof.
  split; [vm_compute; reflexivity|].
  intros Hc. vm_compute in Hc.
  apply StronglySorted_inv in Hc as [_ Hc].
  apply Forall_inv in Hc. vm_compute in Hc. congruence.
Qed.

(* ===================================================================== *)
(** * Properties of [stripHTML] *)
(* ===================================================================== *)

Section StripHTMLFacts.
Import Hive.
#[local] Arguments lookupAt : simpl never.

Lemma flat_map_ext_seq {B} (f g : nat -> list B) (n : nat) :
  (forall i, (i < n)%nat -> f i = g i) -> flat_map f (seq 0 n) = flat_map g (seq 0 n).
Proof.
  induction n as [|n IH]; intros Hfg; [done|].
  rewrite seq_S, !flat_map_app. simpl. rewrite IH, Hfg by (intros; auto with lia). done.
Qed.

Lemma inMarkup_snoc (s : gostring) (r : rune) :
  inMarkup (s ++ [r]) =
    if bool_decide (r = 60) then true
    else if bool_decide (r = 62) then false else inMarkup s.
Proof.
  unfold inMarkup. rewrite List.filter_app. simpl. unfold isBracket.
  destruct (decide (r = 60)) as [->|H60].
  { simpl. rewrite last_snoc. by rewrite !bool_decide_true. }
  rewrite (bool_decide_false (r = 60)) by done.
  destruct (decide (r = 62)) as [->|H62].
  { simpl. rewrite last_snoc. by rewrite bool_decide_false. }
  rewrite (bool_decide_false (r = 62)) by done. simpl. by rewrite app_nil_r.
Qed.

Lemma textOutsideTags_snoc (s : gostring) (r : rune) :
  textOutsideTags (s ++ [r]) =
    textOutsideTags s ++ (if isBracket r || inMarkup s then [] else [r]).
Proof.
  unfold textOutsideTags. rewrite length_app. simpl.
  rewrite Nat.add_1_r, seq_S, flat_map_app. simpl. f_equal.
  - apply flat_map_ext_seq. intros i Hi.
    rewrite lookup_app_l by done. by rewrite take_app_le by lia.
  - rewrite list_lookup_middle by done. rewrite take_app_length, app_nil_r. done.
Qed.

Lemma stripTags_fold (s : gostring) :
  foldl stripTagsStep (false, []) s = (inMarkup s, textOutsideTags s).
Proof.
  induction s as [|r s IH] using rev_ind; [done|].
  rewrite foldl_app, IH. simpl.
  rewrite inMarkup_snoc, textOutsideTags_snoc. unfold isBracket.
  repeat case_bool_decide; simpl; rewrite ?app_nil_r; try done; try lia.
  destruct (inMarkup s); simpl; by rewrite ?app_nil_r.
Qed.

Lemma textOutsideTags_no_bracket (s : gostring) :
  Forall (fun r => r ≠ 60 /\ r ≠ 62) (textOutsideTags s).
Proof.
  induction s as [|r s IH] using rev_ind; [constructor|].
  rewrite textOutsideTags_snoc. apply Forall_app. split; [done|].
  unfold isBracket. repeat case_bool_decide; simpl; try constructor.
  destruct (inMarkup s); repeat constructor; done.
Qed.

(** ** The replacer *)

Lemma isPrefix_true (p s : gostring) :
  isPrefix p s = true <-> s = p ++ drop (length p) s.
Proof.
  unfold isPrefix. rewrite bool_decide_eq_true. split.
  - intros Hp. rewrite <- Hp at 1. by rewrite take_drop.
  - intros ->. by rewrite take_app_length.
Qed.

Lemma isPrefix_length (p s : gostring) :
  isPrefix p s = true -> (length p <= length s)%nat.
Proof.
  intros Hp%isPrefix_true. rewrite Hp, length_app. lia.
Qed.

(** An old string with no ampersand after its first rune cannot start in
    [pre] and end in a [t] that starts with an ampersand. *)
Lemma isPrefix_no_straddle (old pre t : gostring) :
  38 ∉ tail old -> pre ≠ [] -> (t = [] \/ head t = Some 38) ->
  isPrefix old (pre ++ t) = isPrefix old pre.
Proof.
  intros Hamp Hpre Ht.
  destruct (decide (length old <= length pre)%nat) as [Hle|Hgt].
  { unfold isPrefix. by rewrite take_app_le. }
  assert (isPrefix old pre = false) as ->.
  { apply not_true_is_false. intros Hp%isPrefix_length. lia. }
  apply not_true_is_false. intros Hp.
  pose proof (isPrefix_length _ _ Hp) as Hlen. rewrite length_app in Hlen.
  apply isPrefix_true in Hp.
  destruct Ht as [->|Ht]; [simpl in Hlen; lia|].
  assert (old !! length pre = Some 38) as Hl.
  { assert ((pre ++ t) !! length pre = Some 38) as Hl.
    { destruct t as [|a t']; simplify_eq/=. by rewrite list_lookup_middle. }
    rewrite Hp in Hl. rewrite lookup_app_l in Hl by lia. done. }
  destruct old as [|o old]; [simpl in *; lia|].
  destruct pre as [|x pre]; [done|]. simpl in *.
  apply Hamp. by eapply list_elem_of_lookup_2.
Qed.

Lemma lookupAt_no_straddle (oldnew : list (gostring * gostring)) (pre t : gostring) :
  Forall (fun on => 38 ∉ tail on.1) oldnew -> pre ≠ [] ->
  (t = [] \/ head t = Some 38) ->
  lookupAt oldnew (pre ++ t) = lookupAt oldnew pre.
Proof.
  intros Hall Hpre Ht. unfold lookupAt.
  induction Hall as [|on oldnew Hon Hall IH]; [done|]. simpl.
  rewrite isPrefix_no_straddle by done. by rewrite IH.
Qed.

Lemma replaceFrom_app (oldnew : list (gostring * gostring)) (t : gostring) :
  Forall (fun on => 38 ∉ tail on.1) oldnew ->
  (t = [] \/ head t = Some 38) ->
  forall (pre : gostring) (k : nat), (k <= length pre)%nat ->
    replaceFrom oldnew k (pre ++ t)
      = replaceFrom oldnew k pre ++ replaceFrom oldnew 0 t.
Proof.
  intros Hall Ht pre. induction pre as [|x pre IH]; intros k Hk.
  - simpl in *. by replace k with 0%nat by lia.
  - destruct k as [|k]; simpl.
    + change (x :: pre ++ t) with ((x :: pre) ++ t).
      rewrite lookupAt_no_straddle by done.
      destruct (lookupAt oldnew (x :: pre)) as [[old new]|] eqn:Hfind.
      * rewrite <- app_assoc. f_equal. apply IH.
        apply find_some in Hfind as [_ Hp]. apply isPrefix_length in Hp.
        simpl in *. lia.
      * simpl. f_equal. apply IH. lia.
    + apply IH. simpl in Hk. lia.
Qed.

Lemma entities_shape :
  Forall (fun on => (38 ∉ tail on.1) /\ head on.1 = Some 38) entities.
Proof.
  unfold entities. repeat constructor; try done; vm_compute;
    intros Hin; repeat (apply elem_of_cons in Hin as [Hin|Hin]; [discriminate|]);
    by apply elem_of_nil in Hin.
Qed.

Lemma Replace_entity_head (old new post : gostring) :
  (old, new) ∈ entities ->
  Replace entities (old ++ post) = new ++ Replace entities post.
Proof.
  unfold entities. intros Hin.
  repeat (apply elem_of_cons in Hin as [Hin|Hin]; [injection Hin as -> ->; reflexivity|]).
  by apply elem_of_nil in Hin.
Qed.

Lemma Replace_entity (old new pre post : gostring) :
  (old, new) ∈ entities ->
  Replace entities (pre ++ old ++ post)
    = Replace entities pre ++ new ++ Replace entities post.
Proof.
  intros Hin. unfold Replace at 1 2.
  pose proof entities_shape as Hshape.
  rewrite replaceFrom_app.
  - f_equal. by apply Replace_entity_head.
  - eapply Forall_impl; [exact Hshape|]. by intros on [? _].
  - right. rewrite Forall_forall in Hshape. destruct (Hshape _ Hin) as [_ Hh].
    simpl in Hh. destruct old; simplify_eq/=. done.
  - lia.
Qed.

Lemma Replace_no_entity (s : gostring) :
  (forall old new pre post, (old, new) ∈ entities -> s ≠ pre ++ old ++ post) ->
  Replace entities s = s.
Proof.
  unfold Replace. induction s as [|x s IH]; intros Hno; [done|]. simpl.
  destruct (lookupAt entities (x :: s)) as [[old new]|] eqn:Hfind.
  - apply find_some in Hfind as [Hin Hp]. apply list_elem_of_In in Hin.
    apply isPrefix_true in Hp. simpl in Hp.
    exfalso. apply (Hno old new [] (drop (length old) (x :: s)) Hin). done.
  - f_equal. apply IH. intros old new pre post Hin ->.
    apply (Hno old new (x :: pre) post Hin). done.
Qed.

End StripHTMLFacts.

(** C9.  [stripHTML] is the trimmed entity decoding of the text outside
    markup.  The text outside markup is the input without its brackets and
    without the runes that follow an opening bracket up to the next closing
    one; no bracket of the input survives.  The decoder knows the six names
    [&nbsp; &amp; &lt; &gt; &#39; &quot;] and no other: each occurrence of
    one of them is replaced by its character (space, ampersand, less-than,
    greater-than, apostrophe, quote) whatever stands around it, and a text
    in which none of the six occurs, such as one with any other entity, is
    left as it is. *)
Theorem stripHTML_spec (input : gostring) :
  Hive.stripHTML input = TrimSpace (Hive.Replace Hive.entities (Hive.stripTags input))
  /\ Hive.stripTags input = Hive.textOutsideTags input
  /\ Forall (fun r => r ≠ 60 /\ r ≠ 62) (Hive.stripTags input)
  /\ Hive.entities =
       [ (runes "&nbsp;", [32]); (runes "&amp;", [38]); (runes "&lt;", [60]);
         (runes "&gt;", [62]); (runes "&#39;", [39]); (runes "&quot;", [34]) ]
  /\ (forall old new pre post : gostring,
        (old, new) ∈ Hive.entities ->
        Hive.Replace Hive.entities (pre ++ old ++ post)
          = Hive.Replace Hive.entities pre ++ new ++ Hive.Replace Hive.entities post)
  /\ (forall s : gostring,
        (forall old new pre post : gostring,
           (old, new) ∈ Hive.entities -> s ≠ pre ++ old ++ post) ->
        Hive.Replace Hive.entities s = s).
Proof.
  assert (Hive.stripTags input = Hive.textOutsideTags input) as Htags.
  { unfold Hive.stripTags. by rewrite stripTags_fold. }
  split; [done|]. split; [done|].
  split; [rewrite Htags; apply textOutsideTags_no_bracket|].
  split; [reflexivity|].
  split; [apply Replace_entity | apply Replace_no_entity].
Qed.

Lemma stripHTML_spec_witness :
  (runes "&lt;", runes "<") ∈ Hive.entities
  /\ Hive.Replace Hive.entities (runes "1 " ++ runes "&lt;" ++ runes " 2 &euro;")
     = Hive.Replace Hive.entities (runes "1 ") ++ runes "<"
         ++ Hive.Replace Hive.entities (runes " 2 &euro;").
Proof.
  assert ((runes "&lt;", runes "<") ∈ Hive.entities) as Hin.
  { unfold Hive.entities. do 2 right. left. }
  split; [exact Hin|].
  exact (proj1 (proj2 (proj2 (proj2 (proj2 (stripHTML_spec [])))))
           (runes "&lt;") (runes "<") (runes "1 ") (runes " 2 &euro;") Hin).
Defined.

Example stripHTML_paragraph :
  Hive.stripHTML (runes "<p>Fish &amp; chips&nbsp;</p> ") = runes "Fish & chips".
Proof. vm_compute. reflexivity. Qed.

Example stripHTML_unknown_entity :
  Hive.stripHTML (runes "&copy; 2024 <b class=x>Hive</b> &amp;lt;")
    = runes "&copy; 2024 Hive &lt;".
Proof. vm_compute. reflexivity. Qed.

(* ===================================================================== *)
(** * Properties of the response caches *)
(* ===================================================================== *)

Section CacheFacts.

Lemma Before_true (t u : time) : Before t u = true <-> t < u.
Proof. unfold Before. rewrite bool_decide_eq_true. tauto. Qed.


Lemma snoc_neq {B} (l : list B) (x : B) : l ++ [x] ≠ l.
Proof. intros Heq. apply (f_equal length) in Heq. rewrite length_app in Heq. simpl in Heq. lia. Qed.

Lemma get_hit c env url bypass e :
  Hive.usable c env url bypass e ->
  Hive.get c env url bypass = (Ok (Hive.cacheEntry.body e), c).
Proof.
  intros (-> & Httl & Hl & Hexp). unfold Hive.get. simpl.
  rewrite bool_decide_true by done. rewrite Hl.
  by rewrite (proj2 (Before_true _ _) Hexp).
Qed.

(** Without a usable entry, [get] goes to the network: it fails, or returns
    what the network sent after having sent the request. *)
Lemma get_miss c env url bypass :
  (forall e, ~ Hive.usable c env url bypass e) ->
  (exists err c', Hive.get c env url bypass = (Err err, c'))
  \/ (exists status payload c',
        Hive.reply env = Hive.Response status payload None
        /\ Hive.get c env url bypass = (Ok (Hive.limitRead (16 * 2 ^ 20) payload), c')
        /\ Hive.Client.httpClient c' = Hive.Client.httpClient c ++ [url]).
Proof.
  intros Hno. unfold Hive.get.
  set (useCache := negb bypass && bool_decide (0 < Hive.Client.cacheTTL c)).
  assert ((if useCache
           then match Hive.Client.cache c !! url with
                | Some entry =>
                    if Before (Hive.checkedAt env) (Hive.cacheEntry.expiresAt entry)
                    then Some (Hive.cacheEntry.body entry) else None
                | None => None
                end
           else None) = None) as ->.
  { destruct useCache eqn:Hu; [|done].
    apply andb_true_iff in Hu as [Hb Httl]. apply bool_decide_eq_true in Httl.
    destruct bypass; [done|].
    destruct (Hive.Client.cache c !! url) as [e|] eqn:Hl; [|done].
    destruct (Before _ _) eqn:Hbefore; [|done].
    exfalso. apply (Hno e). apply Before_true in Hbefore. by repeat split. }
  set (c1 := if useCache then _ else c).
  assert (Hive.Client.httpClient c1 = Hive.Client.httpClient c) as Hc1.
  { subst c1. by destruct useCache. }
  clearbody c1. clear useCache.
  destruct (Hive.reply env) as [msg|msg|status payload [msg|]]; eauto.
  { destruct (bool_decide (400 <= status)); eauto. }
  destruct (bool_decide (400 <= status)); eauto.
  right. exists status, payload. eexists. split; [reflexivity|]. split; [reflexivity|].
  destruct (_ && _); simpl; by rewrite Hc1.
Qed.

Lemma get_keeps_settings c env url bypass :
  Hive.Client.cacheTTL (Hive.get c env url bypass).2 = Hive.Client.cacheTTL c
  /\ Hive.Client.baseURL (Hive.get c env url bypass).2 = Hive.Client.baseURL c
  /\ Hive.Client.maxConcurrency (Hive.get c env url bypass).2 = Hive.Client.maxConcurrency c.
Proof.
  unfold Hive.get.
  repeat match goal with
         | |- context [match ?x with _ => _ end] => destruct x; simpl
         end; done.
Qed.



(** ** The one-entry cache of the cubecraft client *)

Lemma Fetch_hit k env e :
  Cubecraft.usable k env e ->
  Cubecraft.Fetch k env = (Ok (Cubecraft.cacheEntry.data e), k).
Proof.
  intros (Httl & Hc & Hexp). unfold Cubecraft.Fetch.
  rewrite bool_decide_true by done. rewrite Hc.
  by rewrite (proj2 (Before_true _ _) Hexp).
Qed.


End CacheFacts.




(* ===================================================================== *)
(** * Unknown columns *)
(* ===================================================================== *)

Section ColumnFacts.
Context `{Unicode} `{Hive.Lib} `{Cubecraft.Lib}.

Lemma FetchPage_unknown_column c env q :
  Hive.columnToStatusID !! ToLower (Hive.Query.Column q) = None ->
  Hive.FetchPage c env q = (Err (ErrUnknownColumn (Hive.Query.Column q)), c).
Proof.
  intros Hcol. unfold Hive.FetchPage, Hive.buildURL, Hive.statusID.
  repeat case_bool_decide; simpl; by rewrite Hcol.
Qed.

Lemma length_insertStable {B} (less : B -> B -> bool) x l :
  length (Cubecraft.insertStable less x l) = S (length l).
Proof. induction l as [|y l IH]; simpl; [done|]. destruct (less y x); simpl; by rewrite ?IH. Qed.

Lemma length_SliceStable {B} (less : B -> B -> bool) l :
  length (Cubecraft.SliceStable less l) = length l.
Proof. induction l as [|x l IH]; simpl; [done|]. by rewrite length_insertStable, IH. Qed.

Lemma pagesLoop_no_error fuel items total limit : forall p offset pages e,
  Cubecraft.pagesLoop fuel items total limit p offset pages ≠ Some (Err e).
Proof.
  induction fuel as [|fuel IH]; intros p offset pages e; simpl.
  - by case_bool_decide.
  - case_bool_decide; [|done]. destruct (_ && _); [apply IH|done].
Qed.

#[local] Arguments Cubecraft.pagesLoop : simpl never.

Lemma All_error_is_Fetch_error s env column limit sortBy e :
  (Cubecraft.All s env column limit sortBy).1 = Err e ->
  (Cubecraft.Fetch (Cubecraft.service.client s) (Cubecraft.fetched env)).1 = Err e.
Proof.
  unfold Cubecraft.All.
  destruct (Cubecraft.Fetch _ _) as [[cards|e'|m] c']; [simpl|simpl; intros; by simplify_eq..].
  case_bool_decide; [done|]. case_bool_decide; [done|].
  destruct (Cubecraft.pagesLoop _ _ _ _ _ _ _) as [[pages|e'|m]|] eqn:Hloop; simpl; try done.
  by apply pagesLoop_no_error in Hloop.
Qed.

Lemma Page_error_is_Fetch_error s env column page limit sortBy e :
  (Cubecraft.Page s env column page limit sortBy).1 = Err e ->
  (Cubecraft.Fetch (Cubecraft.service.client s) (Cubecraft.fetched env)).1 = Err e.
Proof.
  unfold Cubecraft.Page. intros Hp. apply (All_error_is_Fetch_error s env column limit sortBy).
  destruct (Cubecraft.All s env column limit sortBy) as [[pages|e'|m] s'];
    [simpl in *|simpl in *; by simplify_eq..].
  case_bool_decide; [done|]. by destruct (pages !! _).
Qed.

Lemma cardItem_no_filter (choice : list nat) (c : Cubecraft.Card.t) :
  is_Some (Cubecraft.cardItem [] choice c).
Proof. unfold Cubecraft.cardItem, Cubecraft.contains. simpl. eauto. Qed.

Lemma elem_of_cardItems ts (ranges : nat -> list nat) cards it :
  it ∈ Cubecraft.cardItems ts ranges cards
  <-> exists (i : nat) c, cards !! i = Some c
                          /\ Cubecraft.cardItem ts (ranges i) c = Some it.
Proof.
  unfold Cubecraft.cardItems. rewrite list_elem_of_omap. split.
  - intros (o & Hin & Ho). apply elem_of_lookup_imap in Hin as (i & c & -> & Hc).
    by exists i, c.
  - intros (i & c & Hc & Hit). exists (Some it). split; [|done].
    rewrite <- Hit.
    by apply (elem_of_lookup_imap_2 (fun i c => Cubecraft.cardItem ts (ranges i) c)).
Qed.

Lemma unfiltered_length (ranges : nat -> list nat) column sortBy cards :
  Cubecraft.columnToStatus !! ToLower column = None ->
  length (Cubecraft.filteredItems ranges column sortBy cards) = length cards.
Proof.
  intros Hcol. unfold Cubecraft.filteredItems, Cubecraft.targetStatuses.
  rewrite Hcol, length_SliceStable. simpl. unfold Cubecraft.cardItems.
  revert ranges. induction cards as [|c cards IH]; intros ranges; [done|].
  rewrite imap_cons.
  destruct (cardItem_no_filter (ranges 0%nat) c) as [it Hit].
  cbn [omap list_omap]. rewrite Hit. simpl. f_equal. apply (IH (ranges ∘ S)).
Qed.

End ColumnFacts.

Section ColumnClaims.
Context `{Unicode} `{Hive.Lib} `{Cubecraft.Lib}.

Lemma GetPage_unknown_column s env t q :
  Hive.columnToStatusID !! ToLower (Hive.Query.Column q) = None ->
  Hive.GetPage s env t q = (Err (ErrUnknownColumn (Hive.Query.Column q)), s).
Proof.
  intros Hcol. unfold Hive.GetPage. rewrite FetchPage_unknown_column by done.
  by destruct s.
Qed.

Lemma FetchAllPages_unknown_column c env sched q :
  Hive.columnToStatusID !! ToLower (Hive.Query.Column q) = None ->
  Hive.FetchAllPages c env sched q =
    Some {| Hive.fetchAll.result := Err (ErrUnknownColumn (Hive.Query.Column q));
            Hive.fetchAll.client := c;
            Hive.fetchAll.calls :=
              [(Hive.effectivePage q, Err (ErrUnknownColumn (Hive.Query.Column q)))] |}.
Proof.
  intros Hcol. unfold Hive.FetchAllPages. by rewrite FetchPage_unknown_column.
Qed.

Lemma GetAll_unknown_column s env sched t q :
  Hive.columnToStatusID !! ToLower (Hive.Query.Column q) = None ->
  Hive.GetAll s env sched t q = Some (Err (ErrUnknownColumn (Hive.Query.Column q)), s).
Proof.
  intros Hcol. unfold Hive.GetAll. rewrite FetchAllPages_unknown_column by done.
  simpl. by destruct s.
Qed.

(** C8, as the code has it.  The hive service rejects a query whose column
    is not one of the three: [GetPage] and [GetAll] return the unknown-column
    error and leave the service, its client and the client's record of sent
    requests as they were.  The cubecraft service does not reject: for such a
    column [All] and [Page] filter nothing (every card becomes an item) and
    fail only when [Fetch] fails; it is the handler [ByColumn] that answers
    400 for an unknown column, without calling the service. *)
Theorem unknown_column_rejected (q : Hive.Query.t) (s : Hive.service.t)
    (env : Hive.getEnv) (sched : list Hive.event) (t : time)
    (column sortBy : gostring) (page limit : Z)
    (cs : Cubecraft.service.t) (cenv : Cubecraft.allEnv) :
  (Hive.columnToStatusID !! ToLower (Hive.Query.Column q) = None ->
     Hive.GetPage s env t q = (Err (ErrUnknownColumn (Hive.Query.Column q)), s)
     /\ Hive.GetAll s env sched t q
        = Some (Err (ErrUnknownColumn (Hive.Query.Column q)), s))
  /\ (Cubecraft.columnToStatus !! ToLower column = None ->
        Cubecraft.ByColumn cs cenv column sortBy = (Cubecraft.BadRequest, cs)
        /\ Cubecraft.targetStatuses column = []
        /\ (forall (ranges : nat -> list nat) cards,
              length (Cubecraft.filteredItems ranges column sortBy cards) = length cards)
        /\ (forall e, (Cubecraft.All cs cenv column limit sortBy).1 = Err e ->
              (Cubecraft.Fetch (Cubecraft.service.client cs) (Cubecraft.fetched cenv)).1
                = Err e)
        /\ (forall e, (Cubecraft.Page cs cenv column page limit sortBy).1 = Err e ->
              (Cubecraft.Fetch (Cubecraft.service.client cs) (Cubecraft.fetched cenv)).1
                = Err e)).
Proof.
  split.
  - intros Hcol. split; [by apply GetPage_unknown_column | by apply GetAll_unknown_column].
  - intros Hcol. split; [|split; [|split; [|split]]].
    + unfold Cubecraft.ByColumn. by rewrite Hcol.
    + unfold Cubecraft.targetStatuses. by rewrite Hcol.
    + intros ranges cards. by apply unfiltered_length.
    + apply All_error_is_Fetch_error.
    + apply Page_error_is_Fetch_error.
Qed.

End ColumnClaims.

Section ColumnRuns.
#[local] Existing Instance Demo.unicode.
#[local] Existing Instance Demo.hiveLib.
#[local] Existing Instance Demo.cubeLib.

(** For the column "bogus" the cubecraft service sends its request and
    returns a page, not an error. *)
Lemma cubecraft_unknown_column_counterexample :
  Cubecraft.columnToStatus !! ToLower (runes "bogus") = None
  /\ isOk (Cubecraft.All Demo.cubeService Demo.boardEnv (runes "bogus") 10 []).1 = true
  /\ Cubecraft.Client.httpClient
       (Cubecraft.service.client
          (Cubecraft.All Demo.cubeService Demo.boardEnv (runes "bogus") 10 []).2)
     = [Cubecraft.notionAPIURL].
Proof. vm_compute. repeat split; congruence. Qed.

Lemma unknown_column_rejected_witness :
  Hive.columnToStatusID !! ToLower (Hive.Query.Column (Demo.query "Bogus" 1)) = None
  /\ Hive.GetPage (Hive.NewService Demo.cachedClient) (Demo.answerAt 0 200 [1; 3]) 0
       (Demo.query "Bogus" 1)
     = (Err (ErrUnknownColumn (runes "Bogus")), Hive.NewService Demo.cachedClient)
  /\ Hive.GetAll (Hive.NewService Demo.cachedClient) (Demo.answerAt 0 200 [1; 3]) [] 0
       (Demo.query "Bogus" 1)
     = Some (Err (ErrUnknownColumn (runes "Bogus")), Hive.NewService Demo.cachedClient).
Proof.
  assert (Hive.columnToStatusID !! ToLower (Hive.Query.Column (Demo.query "Bogus" 1)) = None)
    as Hcol by (vm_compute; reflexivity).
  split; [exact Hcol|].
  exact (proj1 (unknown_column_rejected (Demo.query "Bogus" 1)
                  (Hive.NewService Demo.cachedClient) (Demo.answerAt 0 200 [1; 3]) [] 0
                  [] [] 1 10 Demo.cubeService Demo.boardEnv) Hcol).
Defined.

End ColumnRuns.

(* ===================================================================== *)
(** * Pagination *)
(* ===================================================================== *)

Section PaginationFacts.
Context `{Unicode} `{Cubecraft.Lib}.

Lemma wrap_id (z : Z) : inInt z -> wrap z = z.
Proof.
  unfold inInt, minInt, maxInt, wrap. intros Hz.
  rewrite Z.mod_small by lia. lia.
Qed.

Lemma sub_add_wrap (a b : Z) : sub (add a b) 1 = wrap (a + b - 1).
Proof.
  unfold sub, add, wrap. f_equal.
  replace ((a + b + 2 ^ 63) mod 2 ^ 64 - 2 ^ 63 - 1 + 2 ^ 63)
    with ((a + b + 2 ^ 63) mod 2 ^ 64 - 1) by lia.
  rewrite Zminus_mod_idemp_l. f_equal. lia.
Qed.

(** [ceilDiv] is the ceiling. *)
Lemma ceilDiv_spec (n l : Z) :
  0 < l -> l * (Cubecraft.ceilDiv n l - 1) < n <= l * Cubecraft.ceilDiv n l.
Proof.
  intros Hl. unfold Cubecraft.ceilDiv.
  pose proof (Z.div_mod (n + l - 1) l ltac:(lia)) as Hdm.
  pose proof (Z.mod_pos_bound (n + l - 1) l Hl) as Hr. lia.
Qed.

Lemma ceilDiv_lt (n l i : Z) :
  0 < l -> (i * l < n <-> i < Cubecraft.ceilDiv n l).
Proof. intros Hl. pose proof (ceilDiv_spec n l Hl). nia. Qed.

Lemma ceilDiv_0 (l : Z) : 0 < l -> Cubecraft.ceilDiv 0 l = 0.
Proof. intros Hl. unfold Cubecraft.ceilDiv. apply Z.div_small. lia. Qed.

Lemma ceilDiv_pos (n l : Z) : 0 < l -> 0 < n -> 1 <= Cubecraft.ceilDiv n l <= n.
Proof. intros Hl Hn. pose proof (ceilDiv_spec n l Hl). nia. Qed.

(** The page count that [All] computes, when [total + limit - 1] is an [int]. *)
Lemma totalPages_value (total limit : Z) :
  0 <= total -> 0 < limit -> total + limit - 1 <= maxInt ->
  quot (sub (add total limit) 1) limit = Cubecraft.ceilDiv total limit.
Proof.
  intros Ht Hl Hmax. rewrite sub_add_wrap.
  assert (inInt (total + limit - 1)) as Hin by (unfold inInt, minInt, maxInt in *; lia).
  rewrite (wrap_id _ Hin). unfold quot, Cubecraft.ceilDiv.
  rewrite Z.quot_div_nonneg by lia.
  apply wrap_id. unfold inInt, minInt, maxInt in *.
  pose proof (Z.div_pos (total + limit - 1) limit ltac:(lia) Hl).
  pose proof (Z.div_le_upper_bound (total + limit - 1) limit (total + limit - 1) Hl ltac:(nia)).
  lia.
Qed.

Lemma pagesLoop_exit fuel items total limit p offset pages :
  total <= offset ->
  Cubecraft.pagesLoop fuel items total limit p offset pages = Some (Ok pages).
Proof. intros Hle. destruct fuel; simpl; by rewrite bool_decide_false by lia. Qed.

Lemma pagesLoop_step fuel items total limit p offset pages :
  0 <= offset < total -> 0 < limit -> offset + limit <= maxInt ->
  Cubecraft.pagesLoop (S fuel) items total limit p offset pages =
  Cubecraft.pagesLoop fuel items total limit (add p 1) (offset + limit)
    (pages ++
     [ {| Hive.RoadmapPage.Meta :=
            {| Hive.PageMeta.Page := p;
               Hive.PageMeta.Limit := limit;
               Hive.PageMeta.TotalPages := quot (sub (add total limit) 1) limit;
               Hive.PageMeta.TotalResults := total |};
          Hive.RoadmapPage.Items :=
            Cubecraft.toDTO p <$> Cubecraft.slice items offset (Z.min total (offset + limit)) |} ]).
Proof.
  intros Hoff Hl Hmax. simpl.
  assert (add offset limit = offset + limit) as ->.
  { apply wrap_id. unfold inInt, minInt, maxInt in *. lia. }
  rewrite bool_decide_true by lia.
  assert ((if bool_decide (total < offset + limit) then total else offset + limit)
          = Z.min total (offset + limit)) as ->.
  { case_bool_decide; lia. }
  rewrite !bool_decide_true by lia. reflexivity.
Qed.

#[local] Arguments Cubecraft.pagesLoop : simpl never.

Lemma pagesLoop_pages items limit (n : nat) : forall fuel i pages,
  0 < limit -> Z.of_nat (length items) + limit - 1 <= maxInt ->
  0 <= i -> i + Z.of_nat n = Cubecraft.ceilDiv (Z.of_nat (length items)) limit ->
  (n <= fuel)%nat ->
  Cubecraft.pagesLoop fuel items (Z.of_nat (length items)) limit (i + 1) (i * limit) pages
  = Some (Ok (pages ++ (Cubecraft.pageAt items limit <$> seqZ i (Z.of_nat n)))).
Proof.
  induction n as [|n IH]; intros fuel i pages Hl Hmax Hi Hk Hfuel.
  - rewrite pagesLoop_exit; [by rewrite app_nil_r|].
    destruct (decide (i * limit < Z.of_nat (length items))) as [Hlt|]; [|lia].
    apply ceilDiv_lt in Hlt; lia.
  - destruct fuel as [|fuel]; [lia|].
    assert (i < Cubecraft.ceilDiv (Z.of_nat (length items)) limit) as Hik by lia.
    pose proof (proj2 (ceilDiv_lt _ _ _ Hl) Hik) as Hlt.
    pose proof (ceilDiv_spec (Z.of_nat (length items)) limit Hl) as Hspec.
    rewrite pagesLoop_step by nia.
    rewrite totalPages_value by lia.
    rewrite seqZ_cons by lia. rewrite fmap_cons.
    replace (Z.pred (Z.of_nat (S n))) with (Z.of_nat n) by lia.
    match goal with
    | |- context [pages ++ [?pg]] =>
        assert (pg = Cubecraft.pageAt items limit i) as ->
    end.
    { unfold Cubecraft.pageAt. cbn zeta.
      by replace ((i + 1) * limit) with (i * limit + limit) by lia. }
    replace (i * limit + limit) with (Z.succ i * limit) by lia.
    destruct n as [|n'].
    + rewrite pagesLoop_exit; [reflexivity|].
      destruct (decide (Z.succ i * limit < Z.of_nat (length items))) as [Hlt'|]; [|lia].
      apply ceilDiv_lt in Hlt'; lia.
    + assert (add (i + 1) 1 = Z.succ i + 1) as ->.
      { apply wrap_id. pose proof (ceilDiv_pos (Z.of_nat (length items)) limit Hl).
        unfold inInt, minInt, maxInt in *. lia. }
      rewrite (IH fuel (Z.succ i)) by lia.
      by rewrite <- app_assoc.
Qed.

End PaginationFacts.

Section PaginationClaims.
Context `{Unicode} `{Cubecraft.Lib}.
#[local] Arguments Cubecraft.pagesLoop : simpl never.

Lemma All_pages s env column limit sortBy cards c' :
  Cubecraft.Fetch (Cubecraft.service.client s) (Cubecraft.fetched env) = (Ok cards, c') ->
  1 <= limit ->
  Z.of_nat (length (Cubecraft.filteredItems (Cubecraft.ranges env) column sortBy cards)) + limit - 1 <= maxInt ->
  (Cubecraft.All s env column limit sortBy).1 =
    Ok (if bool_decide (length (Cubecraft.filteredItems (Cubecraft.ranges env) column sortBy cards) = 0%nat)
        then [Cubecraft.emptyPage limit]
        else Cubecraft.paginate (Cubecraft.filteredItems (Cubecraft.ranges env) column sortBy cards) limit).
Proof.
  intros Hfetch Hl Hmax. unfold Cubecraft.All. rewrite Hfetch.
  rewrite (bool_decide_false (limit <= 0)) by lia.
  set (items := Cubecraft.filteredItems (Cubecraft.ranges env) column sortBy cards) in *.
  cbn zeta. case_bool_decide as Hz.
  { rewrite bool_decide_true by lia. done. }
  rewrite (bool_decide_false (length items = 0%nat)) by lia.
  rewrite totalPages_value by lia.
  pose proof (ceilDiv_pos (Z.of_nat (length items)) limit ltac:(lia) ltac:(lia)) as Hk.
  rewrite bool_decide_false by lia.
  rewrite (pagesLoop_pages items limit
             (Z.to_nat (Cubecraft.ceilDiv (Z.of_nat (length items)) limit))
             (S (length items)) 0 []) by lia.
  simpl. unfold Cubecraft.paginate. by rewrite Z2Nat.id by lia.
Qed.

Lemma paginate_lookup items limit (i : nat) pg :
  Cubecraft.paginate items limit !! i = Some pg ->
  pg = Cubecraft.pageAt items limit (Z.of_nat i)
  /\ Z.of_nat i < Cubecraft.ceilDiv (Z.of_nat (length items)) limit.
Proof.
  unfold Cubecraft.paginate. rewrite list_lookup_fmap.
  destruct (seqZ 0 _ !! i) as [j|] eqn:Hj; [|done]. simpl. intros [= <-].
  apply lookup_seqZ in Hj as [-> Hlt]. by rewrite Z.add_0_l.
Qed.

Lemma length_paginate items limit :
  0 < limit ->
  Z.of_nat (length (Cubecraft.paginate items limit))
  = Cubecraft.ceilDiv (Z.of_nat (length items)) limit.
Proof.
  intros Hl. unfold Cubecraft.paginate. rewrite length_fmap, length_seqZ.
  pose proof (ceilDiv_spec (Z.of_nat (length items)) limit Hl). rewrite Z2Nat.id; nia.
Qed.

(** [Page] past the last page: the page count is the true one, the result
    count is the constant 0. *)
Lemma Page_beyond_last s env column page limit sortBy pages s' :
  Cubecraft.All s env column limit sortBy = (Ok pages, s') ->
  Z.of_nat (length pages) < (if bool_decide (page <= 0) then 1 else page) ->
  Cubecraft.Page s env column page limit sortBy =
    (Ok {| Hive.RoadmapPage.Meta :=
             {| Hive.PageMeta.Page := if bool_decide (page <= 0) then 1 else page;
                Hive.PageMeta.Limit := limit;
                Hive.PageMeta.TotalPages := Z.of_nat (length pages);
                Hive.PageMeta.TotalResults := 0 |};
           Hive.RoadmapPage.Items := [] |}, s').
Proof.
  intros Hall Hlt. unfold Cubecraft.Page. rewrite Hall. cbn zeta.
  by rewrite bool_decide_true by done.
Qed.

(** C6, as the code has it.  When the fetch succeeds, for a page size
    [limit >= 1] and [N] filtered items such that [N + limit - 1] is an [int]
    (the sum the code divides does not wrap), [All] returns
    [max 1 (ceiling (N / limit))] pages; page [i] (from 0) is numbered
    [i + 1] and its metadata carries that page count, [N] as the result count
    and [limit]; for [N = 0] the result is the one empty page numbered 1,
    with [TotalPages = 1] and [TotalResults = 0]. *)
Theorem total_pages (s : Cubecraft.service.t) (env : Cubecraft.allEnv)
    (column sortBy : gostring) (limit : Z) (cards : list Cubecraft.Card.t)
    (c' : Cubecraft.Client.t) :
  Cubecraft.Fetch (Cubecraft.service.client s) (Cubecraft.fetched env) = (Ok cards, c') ->
  1 <= limit ->
  Z.of_nat (length (Cubecraft.filteredItems (Cubecraft.ranges env) column sortBy cards)) + limit - 1 <= maxInt ->
  exists pages,
    (Cubecraft.All s env column limit sortBy).1 = Ok pages
    /\ Z.of_nat (length pages)
       = Z.max 1 (Cubecraft.ceilDiv
                    (Z.of_nat (length (Cubecraft.filteredItems (Cubecraft.ranges env) column sortBy cards))) limit)
    /\ (limit * (Cubecraft.ceilDiv
                   (Z.of_nat (length (Cubecraft.filteredItems (Cubecraft.ranges env) column sortBy cards))) limit - 1)
        < Z.of_nat (length (Cubecraft.filteredItems (Cubecraft.ranges env) column sortBy cards))
        <= limit * Cubecraft.ceilDiv
                     (Z.of_nat (length (Cubecraft.filteredItems (Cubecraft.ranges env) column sortBy cards))) limit)
    /\ (forall (i : nat) pg, pages !! i = Some pg ->
          Hive.RoadmapPage.Meta pg =
            {| Hive.PageMeta.Page := Z.of_nat i + 1;
               Hive.PageMeta.Limit := limit;
               Hive.PageMeta.TotalPages :=
                 Z.max 1 (Cubecraft.ceilDiv
                            (Z.of_nat (length (Cubecraft.filteredItems (Cubecraft.ranges env) column sortBy cards)))
                            limit);
               Hive.PageMeta.TotalResults :=
                 Z.of_nat (length (Cubecraft.filteredItems (Cubecraft.ranges env) column sortBy cards)) |})
    /\ (length (Cubecraft.filteredItems (Cubecraft.ranges env) column sortBy cards) = 0%nat ->
          pages = [ {| Hive.RoadmapPage.Meta :=
                         {| Hive.PageMeta.Page := 1; Hive.PageMeta.Limit := limit;
                            Hive.PageMeta.TotalPages := 1;
                            Hive.PageMeta.TotalResults := 0 |};
                       Hive.RoadmapPage.Items := [] |} ])
    /\ (length (Cubecraft.filteredItems (Cubecraft.ranges env) column sortBy cards) ≠ 0%nat ->
          pages = Cubecraft.paginate (Cubecraft.filteredItems (Cubecraft.ranges env) column sortBy cards) limit).
Proof.
  intros Hfetch Hl Hmax.
  pose proof (All_pages s env column limit sortBy cards c' Hfetch Hl Hmax) as Hall.
  set (items := Cubecraft.filteredItems (Cubecraft.ranges env) column sortBy cards) in *.
  pose proof (ceilDiv_spec (Z.of_nat (length items)) limit ltac:(lia)) as Hceil.
  eexists. split; [exact Hall|].
  case_bool_decide as Hz.
  - rewrite Hz in *. change (Z.of_nat 0) with 0 in *.
    rewrite ceilDiv_0 in * by lia.
    repeat split; try done; try lia.
    intros [|i] pg; [|done]. by intros [= <-].
  - pose proof (ceilDiv_pos (Z.of_nat (length items)) limit ltac:(lia) ltac:(lia)) as Hk.
    rewrite length_paginate by lia.
    repeat split; try done; try lia.
    intros i pg Hpg. apply paginate_lookup in Hpg as [-> _].
    unfold Cubecraft.pageAt. simpl. f_equal. lia.
Qed.

End PaginationClaims.

Section PaginationRuns.
#[local] Existing Instance Demo.unicode.
#[local] Existing Instance Demo.cubeLib.

(** With the largest page size and four items the sum [total + limit - 1]
    wraps: [All] returns its one page with [TotalPages = 0], where the
    ceiling is 1. *)
Lemma total_pages_overflow_counterexample :
  1 <= maxInt
  /\ length (Cubecraft.filteredItems (Cubecraft.ranges Demo.boardEnv) (runes "bogus") [] Demo.board) = 4%nat
  /\ match (Cubecraft.All Demo.cubeService Demo.boardEnv (runes "bogus") maxInt []).1 with
     | Ok pages => (fun pg => Hive.PageMeta.TotalPages (Hive.RoadmapPage.Meta pg)) <$> pages
     | _ => []
     end = [0]
  /\ Z.max 1 (Cubecraft.ceilDiv 4 maxInt) = 1.
Proof. vm_compute. repeat split; congruence. Qed.

Lemma total_pages_witness :
  exists pages,
    (Cubecraft.All Demo.cubeService Demo.boardEnv (runes "released") 1 []).1 = Ok pages
    /\ Z.of_nat (length pages) = 2.
Proof.
  destruct (total_pages Demo.cubeService Demo.boardEnv (runes "released") [] 1 Demo.board
              (Cubecraft.Fetch (Cubecraft.service.client Demo.cubeService)
                 (Cubecraft.fetched Demo.boardEnv)).2)
    as (pages & Hall & Hlen & _).
  - reflexivity.
  - lia.
  - vm_compute. congruence.
  - exists pages. split; [exact Hall|]. rewrite Hlen. reflexivity.
Defined.

(** C1 on the code: the board has two released items, so with one item per
    page there are two pages and two results; page 5 comes back empty and
    without error, with [TotalPages = 2] and [TotalResults = 0]. *)
Lemma page_beyond_last_reports_zero :
  length (Cubecraft.filteredItems (Cubecraft.ranges Demo.boardEnv) (runes "released") [] Demo.board) = 2%nat
  /\ (Cubecraft.Page Demo.cubeService Demo.boardEnv (runes "released") 5 1 []).1
     = Ok {| Hive.RoadmapPage.Meta :=
               {| Hive.PageMeta.Page := 5; Hive.PageMeta.Limit := 1;
                  Hive.PageMeta.TotalPages := 2; Hive.PageMeta.TotalResults := 0 |};
             Hive.RoadmapPage.Items := [] |}
  /\ match (Cubecraft.All Demo.cubeService Demo.boardEnv (runes "released") 1 []).1 with
     | Ok pages => (fun pg => Hive.PageMeta.TotalResults (Hive.RoadmapPage.Meta pg)) <$> pages
     | _ => []
     end = [2; 2].
Proof. vm_compute. repeat split; congruence. Qed.

End PaginationRuns.

(* ===================================================================== *)
(** * The page fetcher *)
(* ===================================================================== *)

Section FetchAllFacts.
Context `{Unicode} `{Hive.Lib}.

Lemma get_no_panic c env url bypass m : (Hive.get c env url bypass).1 ≠ Panic m.
Proof.
  unfold Hive.get.
  repeat match goal with
         | |- context [match ?x with _ => _ end] => destruct x; simpl
         end; done.
Qed.

Lemma buildURL_parses c q :
  match Hive.buildURL c q with
  | Ok _ => Hive.urlParses (Hive.Client.baseURL c) = true
  | Err _ => True
  | Panic _ => Hive.urlParses (Hive.Client.baseURL c) = false
  end.
Proof.
  unfold Hive.buildURL, Hive.statusID. cbn zeta.
  destruct (Hive.columnToStatusID !! _); simpl; [|done].
  by destruct (Hive.urlParses _) eqn:Hp.
Qed.

Lemma FetchPage_baseURL c env q :
  Hive.Client.baseURL (Hive.FetchPage c env q).2 = Hive.Client.baseURL c.
Proof.
  unfold Hive.FetchPage. destruct (Hive.buildURL c q) as [u|e|m]; [|done..].
  pose proof (get_keeps_settings c env u (Hive.Query.BypassCache q)) as (_ & Hb & _).
  destruct (Hive.get c env u _) as [[raw|e|m] c']; simpl in *; [|done..].
  by destruct (Hive.jsonUnmarshal raw).
Qed.

Lemma FetchPage_no_panic c env q m :
  Hive.urlParses (Hive.Client.baseURL c) = true -> (Hive.FetchPage c env q).1 ≠ Panic m.
Proof.
  intros Hp. unfold Hive.FetchPage. pose proof (buildURL_parses c q) as Hb.
  destruct (Hive.buildURL c q) as [u|e|m']; [|done|congruence].
  pose proof (get_no_panic c env u (Hive.Query.BypassCache q)) as Hg.
  destruct (Hive.get c env u _) as [[raw|e|m'] c']; simpl in *; [|done|by destruct (Hg m')].
  by destruct (Hive.jsonUnmarshal raw).
Qed.

Lemma FetchPage_Ok_parses c env q r :
  (Hive.FetchPage c env q).1 = Ok r -> Hive.urlParses (Hive.Client.baseURL c) = true.
Proof.
  unfold Hive.FetchPage. pose proof (buildURL_parses c q) as Hb.
  destruct (Hive.buildURL c q) as [u|e|m']; [done|done..].
Qed.

Lemma effectivePage_withPage base p :
  0 < p -> Hive.effectivePage (Hive.Query.withPage base p) = p.
Proof. intros Hp. unfold Hive.effectivePage. simpl. by rewrite bool_decide_false by lia. Qed.

Lemma firstError_snoc (log : Hive.callLog) p o :
  Hive.firstError (log ++ [(p, o)]) =
    match Hive.firstError log with
    | Some e => Some e
    | None => match o with Err e => Some e | _ => None end
    end.
Proof.
  induction log as [|[q [hr|e|m]] log IH]; simpl; try done; try by destruct o.
Qed.

Lemma firstError_Some (log : Hive.callLog) :
  (exists p e, (p, Err e) ∈ log) -> is_Some (Hive.firstError log).
Proof.
  intros (p & e & Hin). induction log as [|[q [hr|e'|m]] log IH]; simpl.
  - by apply elem_of_nil in Hin.
  - apply IH. apply elem_of_cons in Hin as [Hin|Hin]; [done|done].
  - eauto.
  - apply IH. apply elem_of_cons in Hin as [Hin|Hin]; [done|done].
Qed.

Lemma firstError_elem (log : Hive.callLog) e :
  Hive.firstError log = Some e -> exists p, (p, Err e) ∈ log.
Proof.
  induction log as [|[q [hr|e'|m]] log IH]; simpl; intros Hf; try done.
  - destruct (IH Hf) as [p Hp]. exists p. by right.
  - simplify_eq. exists q. by left.
  - destruct (IH Hf) as [p Hp]. exists p. by right.
Qed.

Lemma seqZ_snoc (m n : Z) : 0 <= n -> seqZ m (n + 1) = seqZ m n ++ [m + n].
Proof. intros Hn. rewrite seqZ_app by lia. f_equal. Qed.

(** An event keeps the invariant of the pool. *)
Lemma step_inv base total first workers st ev st' :
  1 <= total ->
  Hive.poolInv base total first st ->
  Hive.step base workers st ev = Some st' ->
  Hive.poolInv base total first st'.
Proof.
  intros Htotal (Hpan & Hparse & Hlen & H0' & Hfe & j & ret & Hj & Hjobs & Hcalls & Hperm & Hnp' & Hres) Hstep.
  unfold Hive.step in Hstep. rewrite Hpan in Hstep.
  destruct ev as [|k env].
  - (* Receive *)
    rewrite Hjobs in Hstep.
    destruct (decide (j = total + 1)) as [->|Hne].
    { rewrite seqZ_nil in Hstep by lia. done. }
    rewrite seqZ_cons in Hstep by lia.
    case_bool_decide; [|done]. simplify_eq. unfold Hive.poolInv. simpl.
    repeat split; try done.
    exists (j + 1), ret. repeat split; try done; try lia.
    + f_equal; lia.
    + replace (j + 1 - 2) with ((j - 2) + 1) by lia.
      rewrite seqZ_snoc by lia. rewrite app_assoc, Hperm.
      by replace (2 + (j - 2)) with j by lia.
  - (* Return *)
    destruct (Hive.pool.busy st !! k) as [p|] eqn:Hk; [|done]. simplify_eq.
    assert (p ∈ Hive.pool.busy st) as Hpbusy by (by eapply list_elem_of_lookup_2).
    assert (2 <= p < j) as Hp.
    { assert (p ∈ seqZ 2 (j - 2)) as Hin.
      { rewrite <- Hperm. apply elem_of_app. by right. }
      apply elem_of_seqZ in Hin. lia. }
    assert (NoDup (ret.*1 ++ Hive.pool.busy st)) as Hnd.
    { rewrite Hperm. apply NoDup_seqZ. }
    assert ((ret ++ [(p, Ok first)]).*1 ++ delete k (Hive.pool.busy st)
              ≡ₚ seqZ 2 (j - 2)) as Hperm'.
    { rewrite fmap_app. simpl. rewrite <- app_assoc. simpl.
      rewrite <- Hperm. f_equiv. symmetry. by apply delete_Permutation. }
    unfold Hive.workerCall.
    pose proof (FetchPage_baseURL (Hive.pool.client st) env (Hive.Query.withPage base p)) as Hbase.
    pose proof (FetchPage_no_panic (Hive.pool.client st) env (Hive.Query.withPage base p)) as Hnp.
    rewrite effectivePage_withPage by lia.
    destruct (Hive.FetchPage _ _ _) as [[[hr raw]|e|m] c'] eqn:Hfp; simpl in *.
    + (* a response *)
      rewrite bool_decide_true by lia.
      unfold Hive.poolInv. simpl. rewrite length_insert.
      split; [done|]. split; [by rewrite Hbase|]. split; [done|].
      split. { rewrite list_lookup_insert_ne by lia. done. }
      split. { rewrite firstError_snoc, <- Hfe. by destruct (Hive.pool.firstErr st). }
      exists j, (ret ++ [(p, Ok hr)]). split; [done|]. split; [done|].
      split; [by rewrite Hcalls|]. split. { rewrite <- Hperm'. by rewrite !fmap_app. }
      split. { intros q m Hq. apply elem_of_app in Hq as [Hq|Hq]; [by apply (Hnp' q m)|].
               apply list_elem_of_singleton in Hq. simplify_eq. }
      intros q hr' Hq. apply elem_of_app in Hq as [Hq|Hq].
      * assert (q ∈ ret.*1) as Hq1.
        { apply list_elem_of_fmap. by exists (q, Ok hr'). }
        assert (q ≠ p) as Hqp.
        { intros ->. apply NoDup_app in Hnd as (_ & Hdisj & _). by apply (Hdisj p). }
        assert (2 <= q) as Hq2.
        { assert (q ∈ seqZ 2 (j - 2)) as Hin.
          { rewrite <- Hperm. apply elem_of_app. by left. }
          apply elem_of_seqZ in Hin. lia. }
        rewrite list_lookup_insert_ne by lia. by apply Hres.
      * apply list_elem_of_singleton in Hq. simplify_eq.
        apply list_lookup_insert_eq. lia.
    + (* an error *)
      unfold Hive.poolInv. simpl.
      split; [done|]. split; [by rewrite Hbase|]. split; [done|]. split; [done|].
      split. { rewrite firstError_snoc, <- Hfe. by destruct (Hive.pool.firstErr st). }
      exists j, (ret ++ [(p, Err e)]). split; [done|]. split; [done|].
      split; [by rewrite Hcalls|]. split. { rewrite <- Hperm'. by rewrite !fmap_app. }
      split. { intros q m Hq. apply elem_of_app in Hq as [Hq|Hq]; [by apply (Hnp' q m)|].
               apply list_elem_of_singleton in Hq. simplify_eq. }
      intros q hr' Hq. apply elem_of_app in Hq as [Hq|Hq]; [by apply Hres|].
      apply list_elem_of_singleton in Hq. simplify_eq.
    + by destruct (Hnp m).
Qed.

Lemma run_inv base total first workers sched : forall st st',
  1 <= total ->
  Hive.poolInv base total first st ->
  Hive.run base workers sched st = Some st' ->
  Hive.poolInv base total first st'.
Proof.
  induction sched as [|ev sched IH]; intros st st' Htotal Hinv Hrun; simpl in Hrun.
  - by simplify_eq.
  - destruct (Hive.step base workers st ev) as [st1|] eqn:Hstep; [|done].
    eapply IH; [done| |done]. by eapply step_inv.
Qed.

(** The pool starts in a state that satisfies the invariant. *)
Lemma init_inv base total first (c1 : Hive.Client.t) :
  1 <= total -> Hive.urlParses (Hive.Client.baseURL c1) = true ->
  Hive.poolInv base total first
    {| Hive.pool.client := c1; Hive.pool.jobs := seqZ 2 (total - 1);
       Hive.pool.busy := [];
       Hive.pool.results := <[0%nat := first]> (replicate (Z.to_nat total) Hive.hiveResponse.zero);
       Hive.pool.firstErr := None;
       Hive.pool.calls := [(Hive.effectivePage base, Ok first)];
       Hive.pool.panicked := None |}.
Proof.
  intros Htotal Hparse. unfold Hive.poolInv. simpl.
  rewrite length_insert, length_replicate.
  split; [done|]. split; [done|]. split; [done|].
  split. { apply list_lookup_insert_eq. rewrite length_replicate. lia. }
  split; [done|].
  exists 2, []. repeat split; try done; try lia.
  - f_equal. lia.
  - intros p m Hin. by apply elem_of_nil in Hin.
  - intros p hr Hin. by apply elem_of_nil in Hin.
Qed.

Lemma makeslicePanics_false (n : Z) :
  Hive.makeslicePanics n = false
  <-> 0 <= n /\ Hive.sizeofHiveResponse * n <= Hive.maxAlloc.
Proof.
  unfold Hive.makeslicePanics. rewrite orb_false_iff, !bool_decide_eq_false. lia.
Qed.

(** A declared number of pages that [make] refuses: the fetch ends there,
    after the one call for the first page. *)
Lemma FetchAllPages_makeslice c env0 sched base first raw c1 :
  Hive.FetchPage c env0 base = (Ok (first, raw), c1) ->
  Hive.hiveResponse.TotalPages first ≠ 0 ->
  Hive.makeslicePanics (Hive.hiveResponse.TotalPages first) = true ->
  Hive.FetchAllPages c env0 sched base
  = Some {| Hive.fetchAll.result := Panic "makeslice: len out of range";
            Hive.fetchAll.client := c1;
            Hive.fetchAll.calls := [(Hive.effectivePage base, Ok first)] |}.
Proof.
  intros Hfp Hnz Hp. unfold Hive.FetchAllPages. rewrite Hfp. cbn zeta. simpl.
  rewrite bool_decide_false by done. by rewrite Hp.
Qed.

(** What [FetchAllPages] returns when the first page declares [total >= 1]
    pages, a number that [make] accepts, and the client has at least one
    worker: the outcome of a finished pool that satisfies the invariant. *)
Lemma FetchAllPages_pool c env0 sched base first raw c1 r :
  Hive.FetchPage c env0 base = (Ok (first, raw), c1) ->
  1 <= Hive.hiveResponse.TotalPages first ->
  Hive.sizeofHiveResponse * Hive.hiveResponse.TotalPages first <= Hive.maxAlloc ->
  0 <= Hive.Client.maxConcurrency c ->
  Hive.FetchAllPages c env0 sched base = Some r ->
  exists st,
    Hive.poolInv base (Hive.hiveResponse.TotalPages first) first st
    /\ Hive.pool.jobs st = [] /\ Hive.pool.busy st = []
    /\ Hive.fetchAll.calls r = Hive.pool.calls st
    /\ Hive.fetchAll.client r = Hive.pool.client st
    /\ Hive.fetchAll.result r =
         match Hive.pool.firstErr st with
         | Some e => Err e
         | None => Ok (Hive.pool.results st)
         end.
Proof.
  intros Hfp Htotal Hfit Hmax Hrun. unfold Hive.FetchAllPages in Hrun.
  rewrite Hfp in Hrun. cbn zeta in Hrun. simpl in Hrun.
  rewrite (bool_decide_false (Hive.hiveResponse.TotalPages first = 0)) in Hrun by lia.
  rewrite (proj2 (makeslicePanics_false _)) in Hrun by (split; [lia|done]).
  match type of Hrun with
  | (if bool_decide (?w < 0) then _ else _) = _ =>
      assert (~ w < 0) as Hw
        by (destruct (bool_decide (_ < Hive.Client.maxConcurrency c)); lia);
      rewrite (bool_decide_false (w < 0) Hw) in Hrun
  end.
  destruct (Hive.run _ _ _ _) as [st|] eqn:Hst; [|done].
  destruct (Hive.finished st) eqn:Hfin; [|done]. simplify_eq.
  assert (Hive.poolInv base (Hive.hiveResponse.TotalPages first) first st) as Hinv.
  { eapply run_inv; [done| |exact Hst]. apply init_inv; [done|].
    pose proof (FetchPage_Ok_parses c env0 base (first, raw)) as Hp.
    pose proof (FetchPage_baseURL c env0 base) as Hb.
    rewrite Hfp in Hp, Hb. simpl in *. rewrite Hb. by apply Hp. }
  exists st. split; [done|].
  destruct Hinv as (Hpan & _). unfold Hive.finished in Hfin. rewrite Hpan in Hfin.
  apply andb_true_iff in Hfin as [Hj Hb].
  apply bool_decide_eq_true in Hj, Hb. simpl. by rewrite Hpan.
Qed.

End FetchAllFacts.

Section FetchAllClaims.
Context `{Unicode} `{Hive.Lib}.

Lemma result_of_calls c env0 sched base r :
  Hive.FetchAllPages c env0 sched base = Some r ->
  match Hive.firstError (Hive.fetchAll.calls r) with
  | Some e => Hive.fetchAll.result r = Err e
  | None => forall e, Hive.fetchAll.result r ≠ Err e
  end.
Proof.
  intros Hrun.
  destruct (Hive.FetchPage c env0 base) as [[[first raw]|e|m] c1] eqn:Hfp.
  - destruct (decide (1 <= Hive.hiveResponse.TotalPages first
                      /\ Hive.sizeofHiveResponse * Hive.hiveResponse.TotalPages first
                         <= Hive.maxAlloc
                      /\ 0 <= Hive.Client.maxConcurrency c))
      as [(Htotal & Hfit & Hmax)|Hsmall].
    + destruct (FetchAllPages_pool c env0 sched base first raw c1 r Hfp Htotal Hfit Hmax Hrun)
        as (st & Hinv & _ & _ & Hcalls & _ & Hres).
      destruct Hinv as (_ & _ & _ & _ & Hfe & _).
      rewrite Hcalls, <- Hfe, Hres. by destruct (Hive.pool.firstErr st).
    + unfold Hive.FetchAllPages in Hrun. rewrite Hfp in Hrun. cbn zeta in Hrun.
      simpl in Hrun.
      destruct (bool_decide (Hive.hiveResponse.TotalPages first = 0)) eqn:Hz;
        [by simplify_eq|].
      destruct (Hive.makeslicePanics (Hive.hiveResponse.TotalPages first)) eqn:Hneg;
        [by simplify_eq|].
      apply bool_decide_eq_false in Hz. apply makeslicePanics_false in Hneg as [Hneg Hfit].
      destruct (bool_decide (_ < 0)) eqn:Hw in Hrun; [by simplify_eq|].
      apply bool_decide_eq_false in Hw.
      destruct (decide (Hive.hiveResponse.TotalPages first < Hive.Client.maxConcurrency c));
        [rewrite bool_decide_true in Hw by done
        |rewrite bool_decide_false in Hw by done]; lia.
  - unfold Hive.FetchAllPages in Hrun. rewrite Hfp in Hrun. by simplify_eq.
  - unfold Hive.FetchAllPages in Hrun. rewrite Hfp in Hrun. by simplify_eq.
Qed.

(** C3.  Whatever the schedule of the workers, when some call of [FetchPage]
    made by [FetchAllPages] (the first one or a worker's) returned an error,
    [FetchAllPages] returns an error and no responses, and that error is the
    first one of the call log, the log being in the order in which the calls
    returned; [GetAll] then returns this error, no page, and records no
    item. *)
Theorem first_error_wins (c : Hive.Client.t) (env0 : Hive.getEnv)
    (sched : list Hive.event) (base : Hive.Query.t) (r : Hive.fetchAll.t) :
  Hive.FetchAllPages c env0 sched base = Some r ->
  (exists p e, (p, Err e) ∈ Hive.fetchAll.calls r) ->
  exists e,
    Hive.firstError (Hive.fetchAll.calls r) = Some e
    /\ Hive.fetchAll.result r = Err e
    /\ forall (tr : Tracker.state Hive.RoadmapItem.t) (t : time),
         Hive.GetAll {| Hive.service.client := c; Hive.service.tracker := tr |}
           env0 sched t base
         = Some (Err e, {| Hive.service.client := Hive.fetchAll.client r;
                           Hive.service.tracker := tr |}).
Proof.
  intros Hrun Hfail.
  destruct (firstError_Some _ Hfail) as [e He].
  pose proof (result_of_calls c env0 sched base r Hrun) as Hres. rewrite He in Hres.
  exists e. split; [done|]. split; [done|].
  intros tr t. unfold Hive.GetAll. simpl. rewrite Hrun. by rewrite Hres.
Qed.

End FetchAllClaims.

Section FetchAllOrder.
Context `{Unicode} `{Hive.Lib}.

Lemma seqZ_empty_inv (m n : Z) : seqZ m n = [] -> n <= 0.
Proof.
  intros Hs. apply (f_equal length) in Hs. rewrite length_seqZ in Hs. simpl in Hs. lia.
Qed.

(** When the query asks for page 1 (or leaves the page unset) and no call
    fails: for a first response that declares [total] pages, a number that
    [make] accepts (not negative, and [total] responses within [maxAlloc]),
    every schedule that runs the pool to its end has called [FetchPage] once
    for each page of [1..total] and returns the [total] responses, the
    response to the call for page [i + 1] at index [i]; for [total <= 1] the
    result is the first response alone. *)
Theorem pages_in_order (c : Hive.Client.t) (env0 : Hive.getEnv)
    (sched : list Hive.event) (base : Hive.Query.t)
    (first : Hive.hiveResponse.t) (raw : list Z) (c1 : Hive.Client.t)
    (r : Hive.fetchAll.t) :
  Hive.FetchPage c env0 base = (Ok (first, raw), c1) ->
  Hive.effectivePage base = 1 ->
  0 <= Hive.hiveResponse.TotalPages first ->
  Hive.sizeofHiveResponse * Hive.hiveResponse.TotalPages first <= Hive.maxAlloc ->
  0 <= Hive.Client.maxConcurrency c ->
  Hive.FetchAllPages c env0 sched base = Some r ->
  Hive.firstError (Hive.fetchAll.calls r) = None ->
  (Hive.fetchAll.calls r).*1 ≡ₚ seqZ 1 (Z.max 1 (Hive.hiveResponse.TotalPages first))
  /\ exists results,
       Hive.fetchAll.result r = Ok results
       /\ Z.of_nat (length results) = Z.max 1 (Hive.hiveResponse.TotalPages first)
       /\ (forall (i : nat) hr, results !! i = Some hr ->
             (Z.of_nat i + 1, Ok hr) ∈ Hive.fetchAll.calls r)
       /\ (Hive.hiveResponse.TotalPages first <= 1 -> results = [first]).
Proof.
  intros Hfp Hpage Htotal Hfit Hmax Hrun Hnoerr.
  destruct (decide (Hive.hiveResponse.TotalPages first = 0)) as [Hz|Hnz].
  { unfold Hive.FetchAllPages in Hrun. rewrite Hfp in Hrun. cbn zeta in Hrun. simpl in Hrun.
    rewrite bool_decide_true in Hrun by done. simplify_eq. simpl.
    rewrite Hz, Hpage. split; [done|]. exists [first]. repeat split; try done.
    intros [|i] hr; [|done]. intros [= <-]. by left. }
  destruct (FetchAllPages_pool c env0 sched base first raw c1 r Hfp ltac:(lia) Hfit Hmax Hrun)
    as (st & Hinv & Hjobs & Hbusy & Hcalls & _ & Hres).
  destruct Hinv as (_ & _ & Hlen & H0' & Hfe & j & ret & Hj & Hjobs' & Hcalls' & Hperm & Hnp & Hstored).
  rewrite Hjobs in Hjobs'. symmetry in Hjobs'. apply seqZ_empty_inv in Hjobs'.
  assert (j = Hive.hiveResponse.TotalPages first + 1) as -> by lia.
  rewrite Hbusy, app_nil_r in Hperm.
  replace (Hive.hiveResponse.TotalPages first + 1 - 2)
    with (Hive.hiveResponse.TotalPages first - 1) in Hperm by lia.
  rewrite Z.max_r by lia. rewrite Hcalls, Hcalls', Hpage.
  split.
  { rewrite fmap_cons. simpl. rewrite Hperm.
    rewrite (seqZ_cons 1) by lia. done. }
  rewrite Hcalls, <- Hfe in Hnoerr. rewrite Hnoerr in Hres.
  exists (Hive.pool.results st). split; [done|]. split; [rewrite Hlen; lia|].
  split.
  - intros i hr Hi. destruct i as [|i].
    { rewrite H0' in Hi. simplify_eq. by left. }
    right.
    assert (Z.of_nat (S i) < Hive.hiveResponse.TotalPages first) as Hlt.
    { apply lookup_lt_Some in Hi. lia. }
    assert (Z.of_nat (S i) + 1 ∈ ret.*1) as Hin.
    { rewrite Hperm. apply elem_of_seqZ. lia. }
    apply list_elem_of_fmap in Hin as ([p o] & Hp & Hin). simpl in Hp. subst p.
    destruct o as [hr'|e|m].
    + pose proof (Hstored _ _ Hin) as Hs.
      replace (Z.to_nat (Z.of_nat (S i) + 1 - 1)) with (S i) in Hs by lia.
      rewrite Hi in Hs. by simplify_eq.
    + exfalso. rewrite Hfe, Hcalls' in Hnoerr. simpl in Hnoerr.
      assert (is_Some (Hive.firstError ret)) as [e' He'] by (apply firstError_Some; eauto).
      congruence.
    + by destruct (Hnp _ _ Hin).
  - intros Hone. assert (Hive.hiveResponse.TotalPages first = 1) as H1 by lia.
    rewrite H1 in Hlen. destruct (Hive.pool.results st) as [|x [|y l]]; simplify_eq/=. done.
Qed.

(** The pool cannot get stuck: with at least one worker, a pool that has not
    finished can make a step.  And it comes to an end: a run of [n] events
    lowers [2 * |jobs| + |busy|] by [n]. *)
Lemma pool_progress base total first workers st (env : Hive.getEnv) :
  1 <= workers ->
  Hive.poolInv base total first st -> Hive.finished st = false ->
  exists ev, is_Some (Hive.step base workers st ev).
Proof.
  intros Hw (Hpan & _) Hfin. unfold Hive.finished in Hfin. rewrite Hpan in Hfin.
  unfold Hive.step. rewrite Hpan.
  destruct (Hive.pool.busy st) as [|p busy] eqn:Hbusy.
  - destruct (Hive.pool.jobs st) as [|p js] eqn:Hjobs.
    + by rewrite !bool_decide_true in Hfin.
    + exists Hive.Receive. simpl. rewrite bool_decide_true by lia. eauto.
  - exists (Hive.Return 0 env). simpl. eauto.
Qed.

Lemma workerCall_queue base st k p env :
  Hive.pool.jobs (Hive.workerCall base st k p env) = Hive.pool.jobs st
  /\ Hive.pool.busy (Hive.workerCall base st k p env) = delete k (Hive.pool.busy st).
Proof.
  unfold Hive.workerCall.
  destruct (Hive.FetchPage _ _ _) as [[[hr raw]|e|m] c']; simpl; try done.
  by case_bool_decide.
Qed.

Lemma step_measure base workers st ev st' :
  Hive.step base workers st ev = Some st' ->
  (S (2 * length (Hive.pool.jobs st') + length (Hive.pool.busy st'))
   = 2 * length (Hive.pool.jobs st) + length (Hive.pool.busy st))%nat.
Proof.
  unfold Hive.step. destruct (Hive.pool.panicked st); [done|].
  destruct ev as [|k env].
  - destruct (Hive.pool.jobs st) as [|p js]; [done|].
    case_bool_decide; [|done]. intros [= <-]. simpl. rewrite length_app. simpl. lia.
  - destruct (Hive.pool.busy st !! k) as [p|] eqn:Hk; [|done]. intros [= <-].
    destruct (workerCall_queue base st k p env) as [-> ->].
    apply lookup_lt_Some in Hk. rewrite length_delete by eauto using lookup_lt_is_Some_2. lia.
Qed.

Lemma run_measure base workers sched : forall st st',
  Hive.run base workers sched st = Some st' ->
  (length sched + 2 * length (Hive.pool.jobs st') + length (Hive.pool.busy st')
   = 2 * length (Hive.pool.jobs st) + length (Hive.pool.busy st))%nat.
Proof.
  induction sched as [|ev sched IH]; intros st st' Hrun; simpl in *.
  - by simplify_eq.
  - destruct (Hive.step base workers st ev) as [st1|] eqn:Hstep; [|done].
    apply step_measure in Hstep. apply IH in Hrun. lia.
Qed.

(** The sequential schedule runs the pool to its end. *)
Lemma run_sequential base total first workers (envs : list Hive.getEnv) : forall st,
  1 <= total -> 1 <= workers ->
  Hive.poolInv base total first st ->
  Hive.pool.busy st = [] -> length (Hive.pool.jobs st) = length envs ->
  exists st', Hive.run base workers (Hive.sequential envs) st = Some st'
              /\ Hive.finished st' = true.
Proof.
  induction envs as [|env envs IH]; intros st Htotal Hw Hinv Hbusy Hlen.
  - exists st. split; [done|]. destruct Hinv as (Hpan & _).
    unfold Hive.finished. rewrite Hpan, Hbusy.
    destruct (Hive.pool.jobs st); [done|done].
  - destruct (Hive.pool.jobs st) as [|p js] eqn:Hjobs; [done|].
    pose proof Hinv as (Hpan & _).
    assert (exists st1, Hive.step base workers st Hive.Receive = Some st1
                        /\ Hive.pool.jobs st1 = js /\ Hive.pool.busy st1 = [p])
      as (st1 & Hs1 & Hj1 & Hb1).
    { unfold Hive.step. rewrite Hpan, Hjobs, Hbusy. simpl.
      rewrite bool_decide_true by lia. eauto. }
    pose proof (step_inv _ _ _ _ _ _ _ Htotal Hinv Hs1) as Hinv1.
    pose proof Hinv1 as (Hpan1 & _).
    assert (Hive.step base workers st1 (Hive.Return 0 env)
            = Some (Hive.workerCall base st1 0 p env)) as Hs2.
    { unfold Hive.step. rewrite Hpan1, Hb1. done. }
    pose proof (step_inv _ _ _ _ _ _ _ Htotal Hinv1 Hs2) as Hinv2.
    destruct (workerCall_queue base st1 0 p env) as [Hj2 Hb2].
    destruct (IH (Hive.workerCall base st1 0 p env)) as (st' & Hrun & Hfin); try done.
    { by rewrite Hb2, Hb1. }
    { rewrite Hj2, Hj1. simpl in Hlen. lia. }
    exists st'. split; [|done]. simpl. rewrite Hs1, Hs2. done.
Qed.

Lemma sequential_completes c env0 base first raw c1 (envs : list Hive.getEnv) :
  Hive.FetchPage c env0 base = (Ok (first, raw), c1) ->
  1 <= Hive.hiveResponse.TotalPages first ->
  1 <= Hive.Client.maxConcurrency c ->
  length envs = Z.to_nat (Hive.hiveResponse.TotalPages first - 1) ->
  is_Some (Hive.FetchAllPages c env0 (Hive.sequential envs) base).
Proof.
  intros Hfp Htotal Hmax Hlen.
  destruct (Hive.makeslicePanics (Hive.hiveResponse.TotalPages first)) eqn:Hmake.
  { erewrite FetchAllPages_makeslice; [by eexists|done|lia|done]. }
  unfold Hive.FetchAllPages. rewrite Hfp. cbn zeta. simpl.
  rewrite (bool_decide_false (Hive.hiveResponse.TotalPages first = 0)) by lia.
  rewrite Hmake.
  set (workers := if bool_decide (_ < Hive.Client.maxConcurrency c) then _ else _).
  assert (1 <= workers) as Hw by (subst workers; case_bool_decide; lia).
  rewrite (bool_decide_false (workers < 0)) by lia.
  edestruct (run_sequential base (Hive.hiveResponse.TotalPages first) first workers envs)
    as (st' & Hrun & Hfin); [done|done| | | |].
  - apply init_inv; [done|].
    pose proof (FetchPage_Ok_parses c env0 base (first, raw)) as Hp.
    pose proof (FetchPage_baseURL c env0 base) as Hb.
    rewrite Hfp in Hp, Hb. simpl in *. rewrite Hb. by apply Hp.
  - done.
  - simpl. rewrite length_seqZ. lia.
  - rewrite Hrun, Hfin. eauto.
Qed.

End FetchAllOrder.

Section FetchAllRuns.
#[local] Existing Instance Demo.unicode.
#[local] Existing Instance Demo.hiveLib.

(** C2 on the code: asked for all pages with a query whose [Page] is 3, and
    told by the first response that there are three pages, [FetchAllPages]
    calls [FetchPage] for the pages 3, 2 and 3, sends these three requests,
    and returns the responses of the pages 3, 2, 3: page 1 is never asked
    for, page 3 is asked for twice and its response stands first. *)
Lemma fetch_all_from_page_three :
  (fun r => (Hive.fetchAll.calls r).*1)
    <$> Hive.FetchAllPages Demo.client0 (Demo.pageOfThree 3)
          (Hive.sequential [Demo.pageOfThree 2; Demo.pageOfThree 3])
          (Demo.query "released" 3)
  = Some [3; 2; 3]
  /\ (fun r => match Hive.fetchAll.result r with
               | Ok all => Hive.hiveResponse.Page <$> all
               | _ => []
               end)
       <$> Hive.FetchAllPages Demo.client0 (Demo.pageOfThree 3)
             (Hive.sequential [Demo.pageOfThree 2; Demo.pageOfThree 3])
             (Demo.query "released" 3)
     = Some [3; 2; 3]
  /\ (fun r => length (Hive.Client.httpClient (Hive.fetchAll.client r)))
       <$> Hive.FetchAllPages Demo.client0 (Demo.pageOfThree 3)
             (Hive.sequential [Demo.pageOfThree 2; Demo.pageOfThree 3])
             (Demo.query "released" 3)
     = Some 3%nat.
Proof. vm_compute. repeat split; congruence. Qed.

(** A first response that declares a negative number of pages makes
    [make([]hiveResponse, total)] panic. *)
Example fetch_all_negative_total :
  Hive.fetchAll.result
    <$> Hive.FetchAllPages Demo.client0 (Demo.answerAt 0 200 [1; -1]) []
          (Demo.query "released" 1)
  = Some (Panic "makeslice: len out of range").
Proof. vm_compute. reflexivity. Qed.

(** So does a number of pages whose responses do not fit in [maxAlloc]:
    5026338869833 responses of 56 bytes are the most that [make] accepts. *)
Example fetch_all_huge_total :
  Hive.fetchAll.result
    <$> Hive.FetchAllPages Demo.client0 (Demo.answerAt 0 200 [1; 5026338869834]) []
          (Demo.query "released" 1)
  = Some (Panic "makeslice: len out of range")
  /\ Hive.makeslicePanics 5026338869833 = false.
Proof. vm_compute. split; reflexivity. Qed.

(** The scenario of the specification: three pages, two workers; page 3
    returns first, then the request for page 2 fails. *)
Lemma first_error_wins_witness :
  exists r,
    Hive.FetchAllPages Demo.client0 (Demo.pageOfThree 1)
      (Demo.outOfOrder (Demo.failing 4))
      (Demo.query "released" 1) = Some r
    /\ (2, Err (ErrTransport (runes "connection reset"))) ∈ Hive.fetchAll.calls r
    /\ (Hive.fetchAll.calls r).*1 = [1; 3; 2]
    /\ Hive.fetchAll.result r = Err (ErrTransport (runes "connection reset")).
Proof.
  destruct (Hive.FetchAllPages Demo.client0 (Demo.pageOfThree 1)
              (Demo.outOfOrder (Demo.failing 4))
              (Demo.query "released" 1)) as [r|] eqn:Hrun;
    [|vm_compute in Hrun; discriminate].
  assert ((2, Err (ErrTransport (runes "connection reset"))) ∈ Hive.fetchAll.calls r
          /\ (Hive.fetchAll.calls r).*1 = [1; 3; 2]
          /\ Hive.firstError (Hive.fetchAll.calls r)
             = Some (ErrTransport (runes "connection reset"))) as (Hin & Hpages & Hfirst).
  { pose proof Hrun as Hr. vm_compute in Hr. injection Hr as <-.
    split; [|split; reflexivity]. do 2 right. left. }
  destruct (first_error_wins Demo.client0 (Demo.pageOfThree 1)
              (Demo.outOfOrder (Demo.failing 4)) (Demo.query "released" 1) r Hrun)
    as (e & He & Hres & _); [eauto|].
  exists r. split; [reflexivity|]. split; [exact Hin|]. split; [exact Hpages|].
  rewrite Hres. f_equal. congruence.
Defined.

Lemma pages_in_order_witness :
  exists r,
    Hive.FetchAllPages Demo.client0 (Demo.pageOfThree 1)
      (Demo.outOfOrder (Demo.pageOfThree 2))
      (Demo.query "released" 1) = Some r
    /\ (Hive.fetchAll.calls r).*1 = [1; 3; 2]
    /\ (Hive.fetchAll.calls r).*1 ≡ₚ seqZ 1 3
    /\ match Hive.fetchAll.result r with
       | Ok all => Hive.hiveResponse.Page <$> all
       | _ => []
       end = [1; 2; 3].
Proof.
  destruct (Hive.FetchAllPages Demo.client0 (Demo.pageOfThree 1)
              (Demo.outOfOrder (Demo.pageOfThree 2))
              (Demo.query "released" 1)) as [r|] eqn:Hrun;
    [|vm_compute in Hrun; discriminate].
  destruct (Hive.FetchPage Demo.client0 (Demo.pageOfThree 1) (Demo.query "released" 1))
    as [[[first raw]|e|m] c1] eqn:Hfp;
    [|vm_compute in Hfp; discriminate..].
  assert (Hive.hiveResponse.TotalPages first = 3) as Htotal.
  { vm_compute in Hfp. by injection Hfp as <- _ _. }
  assert ((Hive.fetchAll.calls r).*1 = [1; 3; 2]
          /\ Hive.firstError (Hive.fetchAll.calls r) = None
          /\ match Hive.fetchAll.result r with
             | Ok all => Hive.hiveResponse.Page <$> all
             | _ => []
             end = [1; 2; 3]) as (Hpages & Hnone & Hres).
  { pose proof Hrun as Hr. vm_compute in Hr. injection Hr as <-.
    split; [reflexivity|]. split; reflexivity. }
  destruct (pages_in_order Demo.client0 (Demo.pageOfThree 1)
              (Demo.outOfOrder (Demo.pageOfThree 2)) (Demo.query "released" 1)
              first raw c1 r Hfp) as (Hperm & _).
  - vm_compute. reflexivity.
  - rewrite Htotal. lia.
  - rewrite Htotal. vm_compute. congruence.
  - vm_compute. congruence.
  - exact Hrun.
  - exact Hnone.
  - exists r. split; [reflexivity|]. split; [exact Hpages|].
    split; [|exact Hres]. rewrite Htotal in Hperm. exact Hperm.
Defined.

End FetchAllRuns.

(* ===================================================================== *)
(** * Properties of the index and of the log of the tracker *)
(* ===================================================================== *)

Section TrackerIndex.
Context {A : Type} `{Tracked A}.
Import Tracker.

Lemma foldl_recordItem_lookup now (items : list A) : forall (st : state A) (k : gostring),
  prevStatus (foldl (recordItem now) st items) !! k =
    match last (filter (fun it => itemID it = k) items) with
    | Some it => Some (itemStatus it)
    | None => prevStatus st !! k
    end.
Proof.
  induction items as [|x items IH] using rev_ind; intros st k; [done|].
  rewrite foldl_app, filter_app. simpl.
  destruct (decide (itemID x = k)) as [<-|Hne].
  - rewrite filter_cons_True by done. rewrite filter_nil, last_snoc.
    apply recordItem_index_self.
  - rewrite filter_cons_False by done. rewrite filter_nil, app_nil_r.
    rewrite recordItem_index_other by done. apply IH.
Qed.

Lemma recordItem_step now (st : state A) it :
  updates (recordItem now st it)
  = updates st ++ option_list (TrackerSpec.changeOf now (prevStatus st) it).
Proof.
  unfold recordItem, TrackerSpec.changeOf.
  destruct (prevStatus st !! itemID it) as [prev|]; simpl.
  - case_bool_decide; simpl; by rewrite ?app_nil_r.
  - by rewrite app_nil_r.
Qed.

Lemma changeOf_other now (st : state A) x it :
  itemID it ≠ itemID x ->
  TrackerSpec.changeOf now (prevStatus (recordItem now st x)) it
  = TrackerSpec.changeOf now (prevStatus st) it.
Proof.
  intros Hne. unfold TrackerSpec.changeOf. by rewrite recordItem_index_other.
Qed.

Lemma foldl_recordItem_distinct now (items : list A) : forall (st : state A),
  NoDup (itemID <$> items) ->
  updates (foldl (recordItem now) st items)
  = updates st ++ omap (TrackerSpec.changeOf now (prevStatus st)) items.
Proof.
  induction items as [|x items IH]; intros st Hnd; simpl.
  - by rewrite app_nil_r.
  - rewrite fmap_cons in Hnd. apply NoDup_cons in Hnd as [Hx Hnd].
    rewrite IH by done. rewrite recordItem_step, <- app_assoc. f_equal.
    assert (omap (TrackerSpec.changeOf now (prevStatus (recordItem now st x))) items
            = omap (TrackerSpec.changeOf now (prevStatus st)) items) as ->.
    { clear IH Hnd. induction items as [|y items IH]; [done|].
      cbn [omap list_omap]. rewrite changeOf_other.
      - rewrite IH; [done|]. intros Hin. apply Hx. rewrite fmap_cons. by right.
      - intros Heq. apply Hx. rewrite fmap_cons, Heq. by left. }
    by destruct (TrackerSpec.changeOf now (prevStatus st) x).
Qed.

(** After [record], the index holds for every identifier the status of the
    last item of the call that carries it, and what it held before when no
    item of the call carries it.  So an identifier is never dropped from the
    index, and every item of the call is indexed afterwards. *)
Theorem record_index (now : time) (s : state A) (items : list A) (k : gostring) :
  prevStatus (record now items s) !! k =
    match last (filter (fun it => itemID it = k) items) with
    | Some it => Some (itemStatus it)
    | None => prevStatus s !! k
    end
  /\ (is_Some (prevStatus s !! k) -> is_Some (prevStatus (record now items s) !! k))
  /\ (forall it, it ∈ items -> is_Some (prevStatus (record now items s) !! itemID it)).
Proof.
  assert (prevStatus (record now items s) !! k =
            match last (filter (fun it => itemID it = k) items) with
            | Some it => Some (itemStatus it)
            | None => prevStatus s !! k
            end) as Hk.
  { unfold record. by rewrite foldl_recordItem_lookup. }
  split; [done|]. split.
  - intros Hs. rewrite Hk. destruct (last _); [by eexists|done].
  - clear Hk. intros it Hin. unfold record. rewrite foldl_recordItem_lookup.
    destruct (last _) as [y|] eqn:Hl; [by eexists|].
    apply last_None in Hl.
    assert (it ∈ filter (fun it0 => itemID it0 = itemID it) items) as Hf.
    { apply list_elem_of_filter. split; [reflexivity|exact Hin]. }
    rewrite Hl in Hf. by apply elem_of_nil in Hf.
Qed.

(** When the items of a call carry distinct identifiers, the log that
    [record] leaves is the pruned old log followed by one entry for each
    item whose status differs from the one indexed before the call, in the
    order of the items.  A call on an empty index (the first fetch) appends
    nothing, and a call appends at most one entry per item. *)
Theorem record_distinct_ids (now : time) (s : state A) (items : list A) :
  NoDup (itemID <$> items) ->
  updates (record now items s)
    = prune now (updates s) ++ omap (TrackerSpec.changeOf now (prevStatus s)) items
  /\ (prevStatus s = ∅ -> updates (record now items s) = prune now (updates s))
  /\ (length (updates (record now items s))
      <= length (updates s) + length items)%nat.
Proof.
  intros Hnd.
  assert (updates (record now items s)
          = prune now (updates s) ++ omap (TrackerSpec.changeOf now (prevStatus s)) items) as Heq.
  { unfold record. by rewrite foldl_recordItem_distinct. }
  split; [done|]. split.
  - intros Hempty. rewrite Heq, Hempty.
    assert (omap (TrackerSpec.changeOf now ∅) items = []) as ->; [|by rewrite app_nil_r].
    clear. induction items as [|x items IH]; [done|].
    cbn [omap list_omap]. unfold TrackerSpec.changeOf at 1. by rewrite lookup_empty.
  - rewrite Heq, length_app.
    assert (length (prune now (updates s)) <= length (updates s))%nat.
    { unfold prune. apply List.filter_length_le. }
    assert (length (omap (TrackerSpec.changeOf now (prevStatus s)) items) <= length items)%nat.
    { clear. induction items as [|x items IH]; [done|].
      cbn [omap list_omap]. destruct (TrackerSpec.changeOf _ _ x); simpl; lia. }
    lia.
Qed.

End TrackerIndex.

(* ===================================================================== *)
(** * Properties of the hive client: options, cache frame, round trips *)
(* ===================================================================== *)

Section ClientFacts.
Context `{Unicode} `{Hive.Lib}.

Lemma foldl_options base (opts : list Hive.ClientOption) : forall c,
  Forall (fun o => (exists ttl, o = Hive.WithCacheTTL ttl)
                   \/ (exists n, o = Hive.WithMaxConcurrency n)) opts ->
  1 <= Hive.Client.maxConcurrency c ->
  Hive.Client.baseURL c = base -> Hive.Client.cache c = ∅ -> Hive.Client.httpClient c = [] ->
  1 <= Hive.Client.maxConcurrency (foldl (fun c o => o c) c opts)
  /\ Hive.Client.baseURL (foldl (fun c o => o c) c opts) = base
  /\ Hive.Client.cache (foldl (fun c o => o c) c opts) = ∅
  /\ Hive.Client.httpClient (foldl (fun c o => o c) c opts) = [].
Proof.
  induction opts as [|o opts IH]; intros c Hall Hmax Hb Hc Hs; [done|].
  apply Forall_cons in Hall as [Ho Hall]. simpl. apply IH; try done.
  - destruct Ho as [[ttl ->]|[n ->]]; simpl; [done|]. case_bool_decide; lia.
  - by destruct Ho as [[ttl ->]|[n ->]].
  - by destruct Ho as [[ttl ->]|[n ->]].
  - by destruct Ho as [[ttl ->]|[n ->]].
Qed.

(** [NewClient] with options made by [WithCacheTTL] and
    [WithMaxConcurrency]: the client has at least one worker (an option
    [WithMaxConcurrency n] with [n <= 0] sets 1), the base URL it was given,
    an empty cache, and has sent nothing; of several options of one kind the
    last one decides. *)
Theorem NewClient_workers (base : gostring) (opts : list Hive.ClientOption) :
  Forall (fun o => (exists ttl, o = Hive.WithCacheTTL ttl)
                   \/ (exists n, o = Hive.WithMaxConcurrency n)) opts ->
  1 <= Hive.Client.maxConcurrency (Hive.NewClient base opts)
  /\ Hive.Client.baseURL (Hive.NewClient base opts) = base
  /\ Hive.Client.cache (Hive.NewClient base opts) = ∅
  /\ Hive.Client.httpClient (Hive.NewClient base opts) = []
  /\ (forall n, Hive.Client.maxConcurrency
                  (Hive.NewClient base (opts ++ [Hive.WithMaxConcurrency n])) = Z.max 1 n)
  /\ (forall ttl, Hive.Client.cacheTTL
                    (Hive.NewClient base (opts ++ [Hive.WithCacheTTL ttl])) = ttl).
Proof.
  intros Hall. unfold Hive.NewClient.
  destruct (foldl_options base opts
              {| Hive.Client.baseURL := base; Hive.Client.httpClient := [];
                 Hive.Client.cache := ∅; Hive.Client.cacheTTL := 0;
                 Hive.Client.maxConcurrency := 2 |} Hall) as (Hmax & Hb & Hc & Hs);
    [simpl; lia|done..|].
  split; [done|]. split; [done|]. split; [done|]. split; [done|]. split.
  - intros n. rewrite foldl_app. simpl. case_bool_decide; lia.
  - intros ttl. by rewrite foldl_app.
Qed.

Lemma get_cache_other c env url bypass url' :
  url' ≠ url ->
  Hive.Client.cache (Hive.get c env url bypass).2 !! url' = Hive.Client.cache c !! url'.
Proof.
  intros Hne. unfold Hive.get.
  repeat match goal with
         | |- context [match ?x with _ => _ end] => destruct x eqn:?; simpl
         end; rewrite ?lookup_insert_ne, ?lookup_delete_ne by done; done.
Qed.

Lemma get_error_cache c env url bypass e :
  (Hive.get c env url bypass).1 = Err e ->
  Hive.Client.cache (Hive.get c env url bypass).2 ⊆ Hive.Client.cache c
  /\ (bypass = false -> 0 < Hive.Client.cacheTTL c ->
      Hive.Client.cache (Hive.get c env url bypass).2 !! url = None).
Proof.
  unfold Hive.get.
  destruct bypass; simpl.
  - destruct (Hive.reply env) as [msg|msg|status payload [msg|]]; simpl; try done.
    + by destruct (bool_decide (400 <= status)).
    + destruct (bool_decide (400 <= status)); [done|]. simpl. by rewrite andb_false_r.
  - case_bool_decide as Httl; simpl.
    + destruct (Hive.Client.cache c !! url) as [entry|] eqn:Hl.
      * destruct (Before _ _); [done|].
        destruct (Hive.reply env) as [msg|msg|status payload [msg|]]; simpl;
          try (intros _; split; [apply delete_subseteq|intros; apply lookup_delete_eq]).
        -- destruct (bool_decide (400 <= status)); simpl;
             intros _; (split; [apply delete_subseteq|intros; apply lookup_delete_eq]).
        -- destruct (bool_decide (400 <= status)); simpl; [|done].
           intros _; (split; [apply delete_subseteq|intros; apply lookup_delete_eq]).
      * destruct (Hive.reply env) as [msg|msg|status payload [msg|]]; simpl;
          try (intros _; split; [apply delete_subseteq|intros; apply lookup_delete_eq]).
        -- destruct (bool_decide (400 <= status)); simpl;
             intros _; (split; [apply delete_subseteq|intros; apply lookup_delete_eq]).
        -- destruct (bool_decide (400 <= status)); simpl; [|done].
           intros _; (split; [apply delete_subseteq|intros; apply lookup_delete_eq]).
    + destruct (Hive.reply env) as [msg|msg|status payload [msg|]]; simpl;
        try (intros _; split; [done|intros; lia]).
      * destruct (bool_decide (400 <= status)); simpl; intros _; (split; [done|intros; lia]).
      * destruct (bool_decide (400 <= status)); simpl; [|done].
        intros _; (split; [done|intros; lia]).
Qed.

Lemma get_requests c env url bypass :
  Hive.Client.httpClient (Hive.get c env url bypass).2 = Hive.Client.httpClient c
  \/ Hive.Client.httpClient (Hive.get c env url bypass).2 = Hive.Client.httpClient c ++ [url].
Proof.
  unfold Hive.get.
  repeat match goal with
         | |- context [match ?x with _ => _ end] => destruct x eqn:?; simpl
         end; auto.
Qed.

(** What [Client.get] leaves alone.  The cache entries of the other URLs
    are untouched; a call that returns an error adds nothing to the cache
    and, when it does not bypass a cache that is switched on, leaves no
    entry for its URL (an expired one was deleted by the lookup); and one
    call sends at most one request, to its URL. *)
Theorem get_frame (c : Hive.Client.t) (env : Hive.getEnv) (url : gostring) (bypass : bool) :
  (forall url', url' ≠ url ->
     Hive.Client.cache (Hive.get c env url bypass).2 !! url' = Hive.Client.cache c !! url')
  /\ (forall e, (Hive.get c env url bypass).1 = Err e ->
        Hive.Client.cache (Hive.get c env url bypass).2 ⊆ Hive.Client.cache c
        /\ (bypass = false -> 0 < Hive.Client.cacheTTL c ->
            Hive.Client.cache (Hive.get c env url bypass).2 !! url = None))
  /\ (Hive.Client.httpClient (Hive.get c env url bypass).2 = Hive.Client.httpClient c
      \/ Hive.Client.httpClient (Hive.get c env url bypass).2
         = Hive.Client.httpClient c ++ [url]).
Proof.
  split; [|split].
  - intros url'. apply get_cache_other.
  - intros e. apply get_error_cache.
  - apply get_requests.
Qed.

Lemma get_stores c env url body c' :
  0 < Hive.Client.cacheTTL c ->
  Hive.get c env url false = (Ok body, c') -> c' ≠ c ->
  Hive.Client.cache c' !! url
    = Some {| Hive.cacheEntry.body := body;
              Hive.cacheEntry.expiresAt := Add (Hive.storedAt env) (Hive.Client.cacheTTL c) |}
  /\ Hive.Client.cacheTTL c' = Hive.Client.cacheTTL c
  /\ Hive.Client.baseURL c' = Hive.Client.baseURL c.
Proof.
  intros Httl Hg Hne. unfold Hive.get in Hg. simpl in Hg.
  rewrite (bool_decide_true (0 < Hive.Client.cacheTTL c)) in Hg by done.
  destruct (Hive.Client.cache c !! url) as [entry|] eqn:Hl.
  - destruct (Before _ _); [by simplify_eq|].
    destruct (Hive.reply env) as [msg|msg|status payload [msg|]]; simpl in Hg; try done.
    + by destruct (bool_decide (400 <= status)).
    + destruct (bool_decide (400 <= status)); [done|]. simpl in Hg.
      rewrite (bool_decide_true (0 < Hive.Client.cacheTTL c)) in Hg by done.
      simpl in Hg. simplify_eq. simpl. by rewrite lookup_insert_eq.
  - destruct (Hive.reply env) as [msg|msg|status payload [msg|]]; simpl in Hg; try done.
    + by destruct (bool_decide (400 <= status)).
    + destruct (bool_decide (400 <= status)); [done|]. simpl in Hg.
      rewrite (bool_decide_true (0 < Hive.Client.cacheTTL c)) in Hg by done.
      simpl in Hg. simplify_eq. simpl. by rewrite lookup_insert_eq.
Qed.

Lemma buildURL_baseURL c c' q :
  Hive.Client.baseURL c' = Hive.Client.baseURL c -> Hive.buildURL c' q = Hive.buildURL c q.
Proof. intros Hb. unfold Hive.buildURL. by rewrite Hb. Qed.

(** Round trip through the cache.  With a positive TTL, a [FetchPage] that
    went to the upstream and returned a response stored the body: a later
    [FetchPage] of a query with the same URL, made strictly before the
    expiry, returns the same response and the same raw body and leaves the
    client as it is (no request, no change of the cache). *)
Theorem FetchPage_cached_again (c : Hive.Client.t) (env env' : Hive.getEnv)
    (q q' : Hive.Query.t) (hr : Hive.hiveResponse.t) (raw : list Z) (c1 : Hive.Client.t) :
  0 < Hive.Client.cacheTTL c ->
  Hive.Query.BypassCache q = false -> Hive.Query.BypassCache q' = false ->
  Hive.FetchPage c env q = (Ok (hr, raw), c1) -> c1 ≠ c ->
  Hive.buildURL c q' = Hive.buildURL c q ->
  Hive.checkedAt env' < Add (Hive.storedAt env) (Hive.Client.cacheTTL c) ->
  Hive.FetchPage c1 env' q' = (Ok (hr, raw), c1).
Proof.
  intros Httl Hb Hb' Hfp Hne Hurl Hfresh.
  unfold Hive.FetchPage in Hfp.
  destruct (Hive.buildURL c q) as [u|e|m] eqn:Hu; [|by simplify_eq..].
  rewrite Hb in Hfp.
  destruct (Hive.get c env u false) as [[body|e|m] c2] eqn:Hg; [|by simplify_eq..].
  destruct (Hive.jsonUnmarshal body) as [hr'|] eqn:Hj; [|by simplify_eq].
  simplify_eq.
  destruct (get_stores c env u raw c1 Httl Hg Hne) as (Hentry & Httl' & Hbase).
  unfold Hive.FetchPage.
  rewrite (buildURL_baseURL c c1 q' Hbase), Hurl, Hb'.
  assert (Hive.usable c1 env' u false
            {| Hive.cacheEntry.body := raw;
               Hive.cacheEntry.expiresAt :=
                 Add (Hive.storedAt env) (Hive.Client.cacheTTL c) |}) as Hus.
  { split; [done|]. split; [lia|]. split; [exact Hentry|exact Hfresh]. }
  rewrite (get_hit _ _ _ _ _ Hus). simpl. by rewrite Hj.
Qed.

(** [get] stores the body before [FetchPage] decodes it.  A body that came
    with a status below 400 and does not decode is cached: the call returns
    the decoding error after one request, and the same query made again
    before the expiry returns the same error from the cache, without a
    request. *)
Theorem FetchPage_undecodable_cached (c : Hive.Client.t) (env env' : Hive.getEnv)
    (q : Hive.Query.t) (u : gostring) (status : Z) (payload : list Z) :
  0 < Hive.Client.cacheTTL c -> Hive.Query.BypassCache q = false ->
  Hive.buildURL c q = Ok u ->
  (forall e, ~ Hive.usable c env u false e) ->
  Hive.reply env = Hive.Response status payload None -> status < 400 ->
  Hive.jsonUnmarshal (Hive.limitRead (16 * 2 ^ 20) payload) = None ->
  Hive.checkedAt env' < Add (Hive.storedAt env) (Hive.Client.cacheTTL c) ->
  (Hive.FetchPage c env q).1 = Err (ErrUnmarshal [])
  /\ Hive.Client.httpClient (Hive.FetchPage c env q).2 = Hive.Client.httpClient c ++ [u]
  /\ Hive.FetchPage (Hive.FetchPage c env q).2 env' q
     = (Err (ErrUnmarshal []), (Hive.FetchPage c env q).2).
Proof.
  intros Httl Hb Hu Hmiss Hreply Hstatus Hbad Hfresh.
  destruct (get_miss c env u false Hmiss) as [(err & c' & Hg)|(st & pl & c' & Hr & Hg & Hsent)].
  { exfalso. unfold Hive.get in Hg. simpl in Hg.
    rewrite (bool_decide_true (0 < Hive.Client.cacheTTL c)) in Hg by done.
    rewrite Hreply in Hg.
    rewrite (bool_decide_false (400 <= status)) in Hg by lia.
    destruct (Hive.Client.cache c !! u) as [entry|]; [destruct (Before _ _)|]; done. }
  rewrite Hreply in Hr. injection Hr as <- <-.
  assert (c' ≠ c) as Hne.
  { intros ->. symmetry in Hsent. by apply snoc_neq in Hsent. }
  destruct (get_stores c env u _ c' Httl Hg Hne) as (Hentry & Httl' & Hbase).
  assert (Hive.FetchPage c env q = (Err (ErrUnmarshal []), c')) as Hfp.
  { unfold Hive.FetchPage. rewrite Hu, Hb, Hg. by rewrite Hbad. }
  rewrite Hfp. simpl. split; [done|]. split; [done|].
  unfold Hive.FetchPage. rewrite (buildURL_baseURL c c' q Hbase), Hu, Hb.
  assert (Hive.usable c' env' u false
            {| Hive.cacheEntry.body := Hive.limitRead (16 * 2 ^ 20) payload;
               Hive.cacheEntry.expiresAt :=
                 Add (Hive.storedAt env) (Hive.Client.cacheTTL c) |}) as Hus.
  { split; [done|]. split; [lia|]. split; [exact Hentry|exact Hfresh]. }
  rewrite (get_hit _ _ _ _ _ Hus). simpl. by rewrite Hbad.
Qed.

End ClientFacts.

(* ===================================================================== *)
(** * Properties of the worker pool *)
(* ===================================================================== *)

Section FetchAllMore.
Context `{Unicode} `{Hive.Lib}.

Lemma FetchAllPages_run c env0 sched base first raw c1 r :
  Hive.FetchPage c env0 base = (Ok (first, raw), c1) ->
  1 <= Hive.hiveResponse.TotalPages first ->
  Hive.sizeofHiveResponse * Hive.hiveResponse.TotalPages first <= Hive.maxAlloc ->
  0 <= Hive.Client.maxConcurrency c ->
  Hive.FetchAllPages c env0 sched base = Some r ->
  exists st,
    Hive.run base (HiveSpec.workersFor c (Hive.hiveResponse.TotalPages first)) sched
      (HiveSpec.initialPool c1 base first) = Some st
    /\ Hive.poolInv base (Hive.hiveResponse.TotalPages first) first st
    /\ Hive.pool.jobs st = [] /\ Hive.pool.busy st = []
    /\ Hive.fetchAll.calls r = Hive.pool.calls st
    /\ Hive.fetchAll.client r = Hive.pool.client st
    /\ Hive.fetchAll.result r =
         match Hive.pool.firstErr st with
         | Some e => Err e
         | None => Ok (Hive.pool.results st)
         end.
Proof.
  intros Hfp Htotal Hfit Hmax Hrun. unfold Hive.FetchAllPages in Hrun.
  rewrite Hfp in Hrun. cbn zeta in Hrun. simpl in Hrun.
  rewrite (bool_decide_false (Hive.hiveResponse.TotalPages first = 0)) in Hrun by lia.
  rewrite (proj2 (makeslicePanics_false _)) in Hrun by (split; [lia|done]).
  match type of Hrun with
  | (if bool_decide (?w < 0) then _ else _) = _ =>
      assert (~ w < 0) as Hw
        by (destruct (bool_decide (_ < Hive.Client.maxConcurrency c)); lia);
      rewrite (bool_decide_false (w < 0) Hw) in Hrun
  end.
  unfold HiveSpec.workersFor, HiveSpec.initialPool.
  destruct (Hive.run _ _ _ _) as [st|] eqn:Hst; [|done].
  destruct (Hive.finished st) eqn:Hfin; [|done]. simplify_eq.
  assert (Hive.poolInv base (Hive.hiveResponse.TotalPages first) first st) as Hinv.
  { eapply run_inv; [done| |exact Hst]. apply init_inv; [done|].
    pose proof (FetchPage_Ok_parses c env0 base (first, raw)) as Hp.
    pose proof (FetchPage_baseURL c env0 base) as Hb.
    rewrite Hfp in Hp, Hb. simpl in *. rewrite Hb. by apply Hp. }
  exists st. split; [done|]. split; [done|].
  destruct Hinv as (Hpan & _). unfold Hive.finished in Hfin. rewrite Hpan in Hfin.
  apply andb_true_iff in Hfin as [Hj Hb].
  apply bool_decide_eq_true in Hj, Hb. simpl. by rewrite Hpan.
Qed.

(** For any query (whatever its page) whose first response declares
    [total >= 1] pages.  When [make] accepts that number ([total] responses
    within [maxAlloc]), every schedule that runs the pool to its end has
    called [FetchPage] for the page of the query and once for each page of
    [2..total], and for no other page; it has exactly [2 * (total - 1)]
    events (one receive and one return per job); and the fetch does not end
    in a panic.  When [make] refuses it, the fetch ends in the panic of
    [make], the one call for the first page made. *)
Theorem every_page_requested (c : Hive.Client.t) (env0 : Hive.getEnv)
    (sched : list Hive.event) (base : Hive.Query.t)
    (first : Hive.hiveResponse.t) (raw : list Z) (c1 : Hive.Client.t)
    (r : Hive.fetchAll.t) :
  Hive.FetchPage c env0 base = (Ok (first, raw), c1) ->
  1 <= Hive.hiveResponse.TotalPages first ->
  0 <= Hive.Client.maxConcurrency c ->
  Hive.FetchAllPages c env0 sched base = Some r ->
  (Hive.sizeofHiveResponse * Hive.hiveResponse.TotalPages first <= Hive.maxAlloc ->
     (Hive.fetchAll.calls r).*1
       ≡ₚ Hive.effectivePage base :: seqZ 2 (Hive.hiveResponse.TotalPages first - 1)
     /\ Z.of_nat (length sched) = 2 * (Hive.hiveResponse.TotalPages first - 1)
     /\ (forall m, Hive.fetchAll.result r ≠ Panic m))
  /\ (Hive.maxAlloc < Hive.sizeofHiveResponse * Hive.hiveResponse.TotalPages first ->
       Hive.fetchAll.result r = Panic "makeslice: len out of range"
       /\ Hive.fetchAll.calls r = [(Hive.effectivePage base, Ok first)]).
Proof.
  intros Hfp Htotal Hmax Hrun. split; [intros Hfit|intros Hbig].
  2:{ rewrite (FetchAllPages_makeslice c env0 sched base first raw c1 Hfp) in Hrun;
        [by simplify_eq|lia|].
      destruct (Hive.makeslicePanics _) eqn:Hmake; [done|].
      apply makeslicePanics_false in Hmake. lia. }
  destruct (FetchAllPages_run c env0 sched base first raw c1 r Hfp Htotal Hfit Hmax Hrun)
    as (st & Hst & Hinv & Hjobs & Hbusy & Hcalls & _ & Hres).
  destruct Hinv as (_ & _ & _ & _ & _ & j & ret & Hj & Hjobs' & Hcalls' & Hperm & _ & _).
  rewrite Hjobs in Hjobs'. symmetry in Hjobs'. apply seqZ_empty_inv in Hjobs'.
  assert (j = Hive.hiveResponse.TotalPages first + 1) as -> by lia.
  rewrite Hbusy, app_nil_r in Hperm.
  split; [|split].
  - rewrite Hcalls, Hcalls', fmap_cons. simpl. rewrite Hperm.
    by replace (Hive.hiveResponse.TotalPages first + 1 - 2)
      with (Hive.hiveResponse.TotalPages first - 1) by lia.
  - apply run_measure in Hst. rewrite Hjobs, Hbusy in Hst. simpl in Hst.
    rewrite length_seqZ in Hst. lia.
  - intros m. rewrite Hres. by destruct (Hive.pool.firstErr st).
Qed.

(** The pool cannot get stuck.  With at least one worker, the schedule that
    runs the jobs one after the other completes the fetch, whatever the
    upstream answers; and every run from the initial pool that has not
    finished is shorter than [2 * (total - 1)] events and has an event it can
    take next. *)
Theorem pool_never_stuck (c : Hive.Client.t) (env0 : Hive.getEnv) (base : Hive.Query.t)
    (first : Hive.hiveResponse.t) (raw : list Z) (c1 : Hive.Client.t) :
  Hive.FetchPage c env0 base = (Ok (first, raw), c1) ->
  1 <= Hive.hiveResponse.TotalPages first ->
  1 <= Hive.Client.maxConcurrency c ->
  (forall envs : list Hive.getEnv,
     length envs = Z.to_nat (Hive.hiveResponse.TotalPages first - 1) ->
     is_Some (Hive.FetchAllPages c env0 (Hive.sequential envs) base))
  /\ (forall (sched : list Hive.event) (st : Hive.pool.t) (env : Hive.getEnv),
        Hive.run base (HiveSpec.workersFor c (Hive.hiveResponse.TotalPages first)) sched
          (HiveSpec.initialPool c1 base first) = Some st ->
        Hive.finished st = false ->
        (length sched < 2 * Z.to_nat (Hive.hiveResponse.TotalPages first - 1))%nat
        /\ exists ev,
             is_Some (Hive.step base
                        (HiveSpec.workersFor c (Hive.hiveResponse.TotalPages first)) st ev)).
Proof.
  intros Hfp Htotal Hmax. split.
  - intros envs Hlen. by eapply sequential_completes.
  - intros sched st env Hst Hfin.
    assert (Hive.poolInv base (Hive.hiveResponse.TotalPages first) first st) as Hinv.
    { eapply run_inv; [done| |exact Hst]. apply init_inv; [done|].
      pose proof (FetchPage_Ok_parses c env0 base (first, raw)) as Hp.
      pose proof (FetchPage_baseURL c env0 base) as Hb.
      rewrite Hfp in Hp, Hb. simpl in *. rewrite Hb. by apply Hp. }
    split.
    + apply run_measure in Hst. simpl in Hst. rewrite length_seqZ in Hst.
      destruct Hinv as (Hpan & _). unfold Hive.finished in Hfin. rewrite Hpan in Hfin.
      destruct (Hive.pool.jobs st) as [|p js]; destruct (Hive.pool.busy st) as [|b bs];
        simpl in *; try done; lia.
    + apply (pool_progress base (Hive.hiveResponse.TotalPages first) first _ st env);
        [|exact Hinv|exact Hfin].
      unfold HiveSpec.workersFor. case_bool_decide; lia.
Qed.

End FetchAllMore.

(* ===================================================================== *)
(** * Properties of the hive handlers *)
(* ===================================================================== *)

Section ErrorFacts.
Context `{Unicode} `{Hive.Lib}.

Lemma get_error_upstream c env url bypass e :
  (Hive.get c env url bypass).1 = Err e -> HiveSpec.upstreamError e.
Proof.
  unfold Hive.get.
  repeat match goal with
         | |- context [match ?x with _ => _ end] => destruct x eqn:?; simpl
         end; intros; by simplify_eq.
Qed.

Lemma FetchPage_error_upstream c env q e :
  is_Some (Hive.columnToStatusID !! ToLower (Hive.Query.Column q)) ->
  (Hive.FetchPage c env q).1 = Err e -> HiveSpec.upstreamError e.
Proof.
  intros [id Hid]. unfold Hive.FetchPage, Hive.buildURL, Hive.statusID. cbn zeta.
  assert (forall q', Hive.Query.Column q' = Hive.Query.Column q ->
            Hive.columnToStatusID !! ToLower (Hive.Query.Column q') = Some id) as Hcol.
  { by intros q' ->. }
  rewrite Hcol by (by repeat case_bool_decide).
  destruct (Hive.urlParses _); [|simpl; intros; by simplify_eq].
  pose proof (get_error_upstream c env) as Hg.
  match goal with
  | |- context [Hive.get c env ?u ?b] =>
      specialize (Hg u b); destruct (Hive.get c env u b) as [[raw|e'|m] c']
  end; simpl in *.
  - destruct (Hive.jsonUnmarshal raw); simpl; intros; by simplify_eq.
  - intros; simplify_eq. by apply Hg.
  - intros; by simplify_eq.
Qed.

Lemma step_errors base workers st ev st' :
  is_Some (Hive.columnToStatusID !! ToLower (Hive.Query.Column base)) ->
  (forall p e, (p, Err e) ∈ Hive.pool.calls st -> HiveSpec.upstreamError e) ->
  Hive.step base workers st ev = Some st' ->
  forall p e, (p, Err e) ∈ Hive.pool.calls st' -> HiveSpec.upstreamError e.
Proof.
  intros Hcol Hinv Hstep. unfold Hive.step in Hstep.
  destruct (Hive.pool.panicked st); [done|].
  destruct ev as [|k env].
  - destruct (Hive.pool.jobs st) as [|p js]; [done|].
    case_bool_decide; [|done]. by simplify_eq.
  - destruct (Hive.pool.busy st !! k) as [p|]; [|done]. simplify_eq.
    unfold Hive.workerCall.
    pose proof (FetchPage_error_upstream (Hive.pool.client st) env (Hive.Query.withPage base p))
      as Hfp.
    destruct (Hive.FetchPage _ _ _) as [[[hr raw]|e|m] c'] eqn:Heq; simpl in *.
    + case_bool_decide; simpl; intros q e Hin;
        (apply elem_of_app in Hin as [Hin|Hin]; [by eapply Hinv|]);
        apply list_elem_of_singleton in Hin; by simplify_eq.
    + intros q e' Hin. apply elem_of_app in Hin as [Hin|Hin]; [by eapply Hinv|].
      apply list_elem_of_singleton in Hin. simplify_eq. by apply Hfp.
    + intros q e' Hin. apply elem_of_app in Hin as [Hin|Hin]; [by eapply Hinv|].
      apply list_elem_of_singleton in Hin. by simplify_eq.
Qed.

Lemma run_errors base workers sched : forall st st',
  is_Some (Hive.columnToStatusID !! ToLower (Hive.Query.Column base)) ->
  (forall p e, (p, Err e) ∈ Hive.pool.calls st -> HiveSpec.upstreamError e) ->
  Hive.run base workers sched st = Some st' ->
  forall p e, (p, Err e) ∈ Hive.pool.calls st' -> HiveSpec.upstreamError e.
Proof.
  induction sched as [|ev sched IH]; intros st st' Hcol Hinv Hrun; simpl in Hrun.
  - by simplify_eq.
  - destruct (Hive.step base workers st ev) as [st1|] eqn:Hstep; [|done].
    eapply IH; [done| |done]. by eapply step_errors.
Qed.

Lemma FetchAllPages_error_upstream c env0 sched q r e :
  is_Some (Hive.columnToStatusID !! ToLower (Hive.Query.Column q)) ->
  Hive.FetchAllPages c env0 sched q = Some r ->
  Hive.fetchAll.result r = Err e -> HiveSpec.upstreamError e.
Proof.
  intros Hcol Hrun Hres.
  pose proof (result_of_calls c env0 sched q r Hrun) as Hfirst.
  destruct (Hive.firstError (Hive.fetchAll.calls r)) as [e'|] eqn:Hfe;
    [|by destruct (Hfirst e)].
  rewrite Hfirst in Hres. simplify_eq.
  apply firstError_elem in Hfe as [p Hin].
  pose proof (FetchPage_error_upstream c env0 q) as Hfp.
  destruct (Hive.FetchPage c env0 q) as [[[first raw]|e0|m] c1] eqn:Heq.
  - destruct (decide (1 <= Hive.hiveResponse.TotalPages first
                      /\ Hive.sizeofHiveResponse * Hive.hiveResponse.TotalPages first
                         <= Hive.maxAlloc
                      /\ 0 <= Hive.Client.maxConcurrency c))
      as [(Htotal & Hfit & Hmax)|Hsmall].
    + destruct (FetchAllPages_run c env0 sched q first raw c1 r Heq Htotal Hfit Hmax Hrun)
        as (st & Hst & _ & _ & _ & Hcalls & _).
      rewrite Hcalls in Hin.
      eapply (run_errors q _ sched _ st Hcol); [|exact Hst|exact Hin].
      intros p' e' Hin'. simpl in Hin'. apply list_elem_of_singleton in Hin'. by simplify_eq.
    + unfold Hive.FetchAllPages in Hrun. rewrite Heq in Hrun. cbn zeta in Hrun.
      simpl in Hrun.
      destruct (bool_decide (Hive.hiveResponse.TotalPages first = 0)) eqn:Hz.
      { by simplify_eq. }
      destruct (Hive.makeslicePanics (Hive.hiveResponse.TotalPages first)) eqn:Hneg.
      { by simplify_eq. }
      apply bool_decide_eq_false in Hz. apply makeslicePanics_false in Hneg as [Hneg Hfit].
      destruct (bool_decide (_ < 0)) eqn:Hw in Hrun.
      { by simplify_eq. }
      apply bool_decide_eq_false in Hw.
      destruct (decide (Hive.hiveResponse.TotalPages first < Hive.Client.maxConcurrency c));
        [rewrite bool_decide_true in Hw by done
        |rewrite bool_decide_false in Hw by done]; lia.
  - unfold Hive.FetchAllPages in Hrun. rewrite Heq in Hrun. simplify_eq. simpl in *.
    apply list_elem_of_singleton in Hin. simplify_eq. by apply Hfp.
  - unfold Hive.FetchAllPages in Hrun. rewrite Heq in Hrun. by simplify_eq.
Qed.

Lemma GetAll_error_upstream s env0 sched t q e s' :
  is_Some (Hive.columnToStatusID !! ToLower (Hive.Query.Column q)) ->
  Hive.GetAll s env0 sched t q = Some (Err e, s') -> HiveSpec.upstreamError e.
Proof.
  intros Hcol Hg. unfold Hive.GetAll in Hg.
  destruct (Hive.FetchAllPages _ _ _ _) as [r|] eqn:Hrun; [|done].
  destruct (Hive.fetchAll.result r) as [all|e'|m] eqn:Hres; simplify_eq.
  by eapply FetchAllPages_error_upstream.
Qed.

Lemma GetPage_error_upstream s env t q e s' :
  is_Some (Hive.columnToStatusID !! ToLower (Hive.Query.Column q)) ->
  Hive.GetPage s env t q = (Err e, s') -> HiveSpec.upstreamError e.
Proof.
  intros Hcol Hg. unfold Hive.GetPage in Hg.
  pose proof (FetchPage_error_upstream (Hive.service.client s) env q) as Hfp.
  destruct (Hive.FetchPage _ _ _) as [[[hr raw]|e'|m] c'] eqn:Heq; simplify_eq.
  by apply Hfp.
Qed.

Lemma ValidateColumn_None col :
  Hive.ValidateColumn col = None <-> is_Some (Hive.columnToStatusID !! ToLower col).
Proof.
  unfold Hive.ValidateColumn. destruct (Hive.columnToStatusID !! ToLower col); split;
    try done; try (by eexists); try (by intros [? ?]).
Qed.

End ErrorFacts.

Section HandlerFacts.
Context `{Unicode} `{Hive.Lib} `{HiveHandlers.Lib}.

(** The answers of the two revisions of [Handlers.ByColumn].  A column
    outside the table is answered 400 with [ErrInvalidColumn] and the
    service is left as it is.  Any other failure is a 502 whose error comes
    from the exchange with the upstream (never a column error).  A raw body
    is only written when it decodes, and the tracker has then recorded the
    items of the page. *)
Theorem hive_ByColumn_answers (s : Hive.service.t) (env0 : Hive.getEnv)
    (sched : list Hive.event) (t : time) (r : HiveHandlers.Request.t)
    (sortBy : gostring) (inReview includePinned cache : bool) :
  (Hive.columnToStatusID !! ToLower (ToLower (HiveHandlers.Request.column r)) = None ->
     HiveHandlers.ByColumn s env0 sched t r
       = Some (HiveHandlers.Failure 400 ErrInvalidColumn, s)
     /\ Hive.ByColumn s env0 sched t (HiveHandlers.Request.column r) sortBy
          inReview includePinned cache
        = Some (Hive.BadRequest ErrInvalidColumn, s))
  /\ (forall code e s',
        HiveHandlers.ByColumn s env0 sched t r = Some (HiveHandlers.Failure code e, s') ->
        (code = 400 /\ e = ErrInvalidColumn /\ s' = s
         /\ Hive.columnToStatusID !! ToLower (ToLower (HiveHandlers.Request.column r)) = None)
        \/ (code = 502 /\ HiveSpec.upstreamError e))
  /\ (forall e s',
        Hive.ByColumn s env0 sched t (HiveHandlers.Request.column r) sortBy
          inReview includePinned cache = Some (Hive.BadGateway e, s') ->
        HiveSpec.upstreamError e)
  /\ (forall raw s',
        HiveHandlers.ByColumn s env0 sched t r = Some (HiveHandlers.RawBody raw, s') ->
        exists hr,
          Hive.jsonUnmarshal raw = Some hr
          /\ Hive.service.tracker s'
             = Tracker.record t (Hive.RoadmapPage.Items (Hive.MapResponse hr))
                 (Hive.service.tracker s)).
Proof.
  split; [|split; [|split]].
  - intros Hcol. unfold HiveHandlers.ByColumn, Hive.ByColumn, Hive.ValidateColumn.
    by rewrite Hcol.
  - intros code e s' Hb. unfold HiveHandlers.ByColumn in Hb.
    destruct (Hive.ValidateColumn _) as [e0|] eqn:Hv.
    + left. unfold Hive.ValidateColumn in Hv.
      destruct (Hive.columnToStatusID !! _) eqn:Hcol; [done|]. by simplify_eq.
    + right. apply ValidateColumn_None in Hv.
      destruct (HiveHandlers.boolFromQuery r (runes "all") false).
      * destruct (Hive.GetAll _ _ _ _ _) as [[[pages|e'|m] s1]|] eqn:Hg; simplify_eq.
        split; [done|]. by eapply (GetAll_error_upstream s env0 sched t (HiveHandlers.queryOf r)).
      * destruct (Hive.GetPage _ _ _ _) as [[[page raw]|e'|m] s1] eqn:Hg.
        -- by destruct (Hive.Query.Raw _).
        -- simplify_eq. split; [done|].
           by eapply (GetPage_error_upstream s env0 t (HiveHandlers.queryOf r)).
        -- by simplify_eq.
  - intros e s' Hb. unfold Hive.ByColumn in Hb.
    destruct (Hive.ValidateColumn _) as [e0|] eqn:Hv; [by simplify_eq|].
    apply ValidateColumn_None in Hv.
    destruct (Hive.GetAll _ _ _ _ _) as [[[pages|e'|m] s1]|] eqn:Hg; simplify_eq.
    eapply GetAll_error_upstream; [|exact Hg]. done.
  - intros raw s' Hb. unfold HiveHandlers.ByColumn in Hb.
    destruct (Hive.ValidateColumn _) as [e0|] eqn:Hv; [by simplify_eq|].
    destruct (HiveHandlers.boolFromQuery r (runes "all") false).
    { by destruct (Hive.GetAll _ _ _ _ _) as [[[pages|e'|m] s1]|]. }
    unfold Hive.GetPage in Hb.
    destruct (Hive.FetchPage _ _ _) as [[[hr raw']|e'|m] c'] eqn:Hfp; try done.
    destruct (Hive.Query.Raw _); [|done]. simplify_eq. simpl.
    exists hr. split; [|done].
    unfold Hive.FetchPage in Hfp.
    destruct (Hive.buildURL _ _); [|done..].
    destruct (Hive.get _ _ _ _) as [[body|e'|m] c1]; [|done..].
    destruct (Hive.jsonUnmarshal body) eqn:Hj; by simplify_eq.
Qed.

(** The readers of the query string.  A parameter that is absent or empty
    reads as the default, for the three readers; [intFromQuery] with a
    positive default is positive (zero, negative and unparsable values give
    the default), [strFromQuery] with a non-empty default is non-empty; so
    the page [ByColumn] asks the service for is the page of its query, never
    zero or negative. *)
Theorem query_readers (r : HiveHandlers.Request.t) (key : gostring)
    (d : Z) (sd : gostring) (b : bool) :
  (HiveHandlers.Get (HiveHandlers.Request.query r) key = [] ->
     HiveHandlers.intFromQuery r key d = d
     /\ HiveHandlers.strFromQuery r key sd = sd
     /\ HiveHandlers.boolFromQuery r key b = b)
  /\ (HiveHandlers.Request.query r !! key = None ->
        HiveHandlers.Get (HiveHandlers.Request.query r) key = [])
  /\ (0 < d -> 0 < HiveHandlers.intFromQuery r key d)
  /\ (sd ≠ [] -> HiveHandlers.strFromQuery r key sd ≠ [])
  /\ Hive.effectivePage (HiveHandlers.queryOf r) = Hive.Query.Page (HiveHandlers.queryOf r).
Proof.
  assert (forall d', 0 < d' -> 0 < HiveHandlers.intFromQuery r key d') as Hpos.
  { intros d' Hd. unfold HiveHandlers.intFromQuery. cbn zeta.
    case_bool_decide; [done|]. destruct (HiveHandlers.Atoi _) as [i|]; [|done].
    case_bool_decide; lia. }
  split; [|split; [|split; [|split]]].
  - intros Hg. unfold HiveHandlers.intFromQuery, HiveHandlers.strFromQuery,
      HiveHandlers.boolFromQuery. rewrite Hg. simpl. done.
  - intros Hnone. unfold HiveHandlers.Get. by rewrite Hnone.
  - apply Hpos.
  - intros Hsd. unfold HiveHandlers.strFromQuery. cbn zeta. by case_bool_decide.
  - unfold Hive.effectivePage. simpl.
    assert (0 < HiveHandlers.intFromQuery r (runes "page") 1) as Hp.
    { unfold HiveHandlers.intFromQuery. cbn zeta.
      case_bool_decide; [done|]. destruct (HiveHandlers.Atoi _) as [i|]; [|done].
      case_bool_decide; lia. }
    by rewrite bool_decide_false by lia.
Qed.

End HandlerFacts.

(* ===================================================================== *)
(** * More on [stripHTML] *)
(* ===================================================================== *)

Section StripMore.
Import Hive.
#[local] Arguments lookupAt : simpl never.

Lemma foldl_stripTagsStep_inTag (post b : gostring) :
  62 ∉ post -> foldl stripTagsStep (true, b) post = (true, b).
Proof.
  induction post as [|r post IH]; intros Hno; [done|]. cbn [foldl].
  assert (r ≠ 62) as Hr by (intros ->; apply Hno; by left).
  assert (62 ∉ post) as Hpost by (intros Hin; apply Hno; by right).
  assert (stripTagsStep (true, b) r = (true, b)) as ->; [|by apply IH].
  unfold stripTagsStep. case_bool_decide; [done|]. by rewrite bool_decide_false.
Qed.

Lemma stripTags_unclosed (pre post : gostring) :
  62 ∉ post -> stripTags (pre ++ 60 :: post) = stripTags pre.
Proof.
  intros Hno. unfold stripTags. rewrite foldl_app. simpl.
  destruct (foldl stripTagsStep (false, []) pre) as [inTag b]. simpl.
  by rewrite foldl_stripTagsStep_inTag.
Qed.

Lemma length_foldl_stripTagsStep (s : gostring) : forall st,
  (length (foldl stripTagsStep st s).2 <= length st.2 + length s)%nat.
Proof.
  induction s as [|r s IH]; intros [inTag b]; simpl; [lia|].
  etrans; [apply IH|]. repeat case_bool_decide; simpl; try lia.
  destruct inTag; simpl; rewrite ?length_app; simpl; lia.
Qed.

Lemma length_replaceFrom (s : gostring) : forall k,
  (length (replaceFrom entities k s) <= length s)%nat.
Proof.
  induction s as [|r s IH]; intros k; simpl; [done|].
  destruct k as [|k]; [|etrans; [apply IH|lia]].
  destruct (lookupAt entities (r :: s)) as [[old new]|] eqn:Hfind.
  - apply find_some in Hfind as [Hin _]. apply list_elem_of_In in Hin.
    assert (length new = 1%nat) as Hnew.
    { unfold entities in Hin.
      repeat (apply elem_of_cons in Hin as [Hin|Hin]; [by injection Hin as -> ->|]).
      by apply elem_of_nil in Hin. }
    rewrite length_app, Hnew. specialize (IH (length old - 1)%nat). lia.
  - simpl. specialize (IH 0%nat). lia.
Qed.

Lemma dropWhile_suffix {B} (f : B -> bool) (l : list B) :
  exists pre, l = pre ++ dropWhile f l.
Proof.
  induction l as [|x l [pre IH]]; [by exists []|]. simpl.
  destruct (f x); [|by exists []]. exists (x :: pre). simpl. by f_equal.
Qed.

Lemma length_dropWhile {B} (f : B -> bool) (l : list B) :
  (length (dropWhile f l) <= length l)%nat.
Proof.
  destruct (dropWhile_suffix f l) as [pre Hpre]. rewrite Hpre at 2.
  rewrite length_app. lia.
Qed.

Lemma head_dropWhile {B} (f : B -> bool) (l : list B) x :
  head (dropWhile f l) = Some x -> f x = false.
Proof.
  induction l as [|y l IH]; simpl; [done|].
  destruct (f y) eqn:Hy; [done|]. simpl. by intros [= <-].
Qed.

Lemma last_dropWhile {B} (f : B -> bool) (l : list B) x :
  last (dropWhile f l) = Some x -> last l = Some x.
Proof.
  destruct (dropWhile_suffix f l) as [pre Hpre]. intros Hl. rewrite Hpre.
  destruct (dropWhile f l) as [|y t] eqn:Hd; [done|].
  rewrite last_app. by rewrite Hl.
Qed.

Lemma TrimSpace_ends (s : gostring) :
  (length (TrimSpace s) <= length s)%nat
  /\ (forall r, head (TrimSpace s) = Some r -> isSpace r = false)
  /\ (forall r, last (TrimSpace s) = Some r -> isSpace r = false).
Proof.
  unfold TrimSpace. split; [|split].
  - rewrite length_reverse. etrans; [apply length_dropWhile|].
    rewrite length_reverse. apply length_dropWhile.
  - intros r Hh. rewrite head_reverse in Hh.
    apply last_dropWhile in Hh. rewrite last_reverse in Hh.
    by apply head_dropWhile in Hh.
  - intros r Hl. rewrite last_reverse in Hl. by apply head_dropWhile in Hl.
Qed.

(** An opening bracket that is never closed swallows the rest of the
    input: the text from a ['<'] with no ['>'] after it to the end is
    dropped, by [stripTags] and by [stripHTML]. *)
Theorem stripHTML_unclosed_tag (pre post : gostring) :
  62 ∉ post ->
  stripTags (pre ++ 60 :: post) = stripTags pre
  /\ stripHTML (pre ++ 60 :: post) = stripHTML pre.
Proof.
  intros Hno. pose proof (stripTags_unclosed pre post Hno) as Htags.
  split; [done|]. unfold stripHTML. by rewrite Htags.
Qed.

(** [stripHTML] never lengthens its input, its result neither starts nor
    ends with white space, and every rune the tag loop keeps is a rune of
    the input other than a bracket. *)
Theorem stripHTML_bounds (input : gostring) :
  (length (stripHTML input) <= length input)%nat
  /\ (forall r, head (stripHTML input) = Some r -> isSpace r = false)
  /\ (forall r, last (stripHTML input) = Some r -> isSpace r = false)
  /\ (forall r, r ∈ stripTags input -> r ∈ input /\ r ≠ 60 /\ r ≠ 62).
Proof.
  unfold stripHTML.
  destruct (TrimSpace_ends (Replace entities (stripTags input))) as (Hlen & Hhead & Hlast).
  split; [|split; [done|split; [done|]]].
  - etrans; [exact Hlen|]. unfold Replace. etrans; [apply length_replaceFrom|].
    unfold stripTags. etrans; [apply length_foldl_stripTagsStep|]. simpl. lia.
  - intros r Hin. unfold stripTags in Hin. rewrite stripTags_fold in Hin. simpl in Hin.
    split.
    + unfold textOutsideTags in Hin. apply list_elem_of_In, in_flat_map in Hin
        as (i & _ & Hi).
      destruct (input !! i) as [x|] eqn:Hx; [|done].
      destruct (_ || _); [done|]. destruct Hi as [<-|[]].
      by eapply list_elem_of_lookup_2.
    + pose proof (textOutsideTags_no_bracket input) as Hnb.
      rewrite Forall_forall in Hnb. by apply Hnb.
Qed.

End StripMore.

(* ===================================================================== *)
(** * Sorting *)
(* ===================================================================== *)

Section SortFacts.

Lemma strLess_nil_r (s : gostring) : strLess s [] = false.
Proof. by destruct s. Qed.

Lemma strLess_asym (s : gostring) : forall t, strLess s t = true -> strLess t s = false.
Proof.
  induction s as [|a s IH]; intros [|b t]; simpl; try done.
  intros Hlt. apply orb_true_iff in Hlt as [Hlt|Hlt].
  - apply bool_decide_eq_true in Hlt.
    rewrite (bool_decide_false (b < a)) by lia.
    by rewrite (bool_decide_false (b = a)) by lia.
  - apply andb_true_iff in Hlt as [Heq Hlt]. apply bool_decide_eq_true in Heq. subst b.
    rewrite (bool_decide_false (a < a)) by lia. rewrite bool_decide_true by done.
    simpl. by apply IH.
Qed.

Lemma strLess_negtrans (s : gostring) : forall t u,
  strLess t s = false -> strLess u t = false -> strLess u s = false.
Proof.
  induction s as [|a s IH]; intros t u Hts Hut; [apply strLess_nil_r|].
  destruct t as [|b t]; [done|]. destruct u as [|c u]; [done|].
  simpl in *.
  apply orb_false_iff in Hts as [Hba Hts]. apply orb_false_iff in Hut as [Hcb Hut].
  apply bool_decide_eq_false in Hba, Hcb.
  apply orb_false_iff. split; [apply bool_decide_eq_false; lia|].
  destruct (decide (c = a)) as [->|Hne]; [|by rewrite (bool_decide_false (c = a))].
  assert (b = a) as -> by lia.
  rewrite bool_decide_true in Hts, Hut by done. rewrite bool_decide_true by done.
  simpl in *. by eapply IH.
Qed.

Context {B : Type} (less : B -> B -> bool).
Hypothesis less_asym : forall a b, less a b = true -> less b a = false.
Hypothesis less_negtrans : forall a b c, less b a = false -> less c b = false -> less c a = false.

Lemma insertStable_Permutation x l : Cubecraft.insertStable less x l ≡ₚ x :: l.
Proof.
  induction l as [|y l IH]; simpl; [done|].
  destruct (less y x); [|done]. rewrite IH. apply Permutation_swap.
Qed.

Lemma SliceStable_Permutation l : Cubecraft.SliceStable less l ≡ₚ l.
Proof.
  induction l as [|x l IH]; simpl; [done|]. by rewrite insertStable_Permutation, IH.
Qed.

Lemma insertStable_sorted x l :
  StronglySorted (fun a b => less b a = false) l ->
  StronglySorted (fun a b => less b a = false) (Cubecraft.insertStable less x l).
Proof.
  induction 1 as [|y l Hs IH Hy]; simpl; [repeat constructor|].
  destruct (less y x) eqn:Hyx.
  - constructor; [done|]. rewrite insertStable_Permutation.
    constructor; [by apply less_asym|done].
  - constructor; [by constructor|]. constructor; [done|].
    eapply Forall_impl; [exact Hy|]. simpl. intros z Hz. by eapply less_negtrans.
Qed.

Lemma SliceStable_sorted l :
  StronglySorted (fun a b => less b a = false) (Cubecraft.SliceStable less l).
Proof.
  induction l as [|x l IH]; simpl; [constructor|]. by apply insertStable_sorted.
Qed.

Lemma insertStable_stable (z x : B) l :
  filter (fun y => less z y = false /\ less y z = false) (Cubecraft.insertStable less x l)
  = filter (fun y => less z y = false /\ less y z = false) (x :: l).
Proof.
  induction l as [|y l IH]; simpl; [done|].
  destruct (less y x) eqn:Hyx; [|done].
  destruct (decide (less z x = false /\ less x z = false)) as [[Hzx Hxz]|Hn].
  - assert (~ (less z y = false /\ less y z = false)) as Hny.
    { intros [Hzy Hyz]. rewrite (less_negtrans x z y) in Hyx; done. }
    rewrite (filter_cons_False _ y) by done.
    rewrite IH. rewrite (filter_cons_True _ x) by done.
    rewrite (filter_cons_True _ x) by done.
    by rewrite (filter_cons_False _ y) by done.
  - rewrite (filter_cons_False _ x (y :: l)) by done.
    rewrite (filter_cons _ y (Cubecraft.insertStable less x l)), (filter_cons _ y l).
    rewrite IH. by rewrite (filter_cons_False _ x l) by done.
Qed.

Lemma SliceStable_stable (z : B) l :
  filter (fun y => less z y = false /\ less y z = false) (Cubecraft.SliceStable less l)
  = filter (fun y => less z y = false /\ less y z = false) l.
Proof.
  induction l as [|x l IH]; simpl; [done|].
  rewrite insertStable_stable. by rewrite !filter_cons, IH.
Qed.

End SortFacts.

Section CubecraftOrder.
Context `{Unicode} `{Cubecraft.Lib}.

Lemma less_asymmetric (k : gostring) (a b : Cubecraft.item.t) :
  Cubecraft.less k a b = true -> Cubecraft.less k b a = false.
Proof.
  unfold Cubecraft.less, Before, After.
  repeat case_bool_decide; try lia; try done; apply strLess_asym.
Qed.

Lemma less_negatively_transitive (k : gostring) (a b c : Cubecraft.item.t) :
  Cubecraft.less k b a = false -> Cubecraft.less k c b = false ->
  Cubecraft.less k c a = false.
Proof.
  unfold Cubecraft.less, Before, After.
  repeat case_bool_decide; try lia; try done; intros; eapply strLess_negtrans; eassumption.
Qed.

Lemma normalizeSort_in (sortBy column : gostring) :
  Cubecraft.normalizeSort sortBy column ∈ Cubecraft.sortKeys.
Proof.
  unfold Cubecraft.normalizeSort. cbn zeta. case_bool_decide as Hin; [done|].
  unfold Cubecraft.sortKeys.
  case_bool_decide; [do 1 right; left|].
  destruct (_ || _); [do 3 right; left|do 6 right; left].
Qed.

(** [normalizeSort] always returns one of the eight sort keys: the
    trimmed, lower-cased input when that is one of them, and otherwise the
    default of the column ("releasedat:desc" for released,
    "lastupdated:desc" for in-progress and coming-next, "title:asc" for
    any other column). *)
Theorem normalizeSort_range (sortBy column : gostring) :
  Cubecraft.normalizeSort sortBy column ∈ Cubecraft.sortKeys
  /\ (ToLower (TrimSpace sortBy) ∈ Cubecraft.sortKeys ->
      Cubecraft.normalizeSort sortBy column = ToLower (TrimSpace sortBy))
  /\ (ToLower (TrimSpace sortBy) ∉ Cubecraft.sortKeys ->
      Cubecraft.normalizeSort sortBy column
      = if bool_decide (ToLower column = runes "released") then runes "releasedat:desc"
        else if bool_decide (ToLower column = runes "in-progress"
                             \/ ToLower column = runes "coming-next")
             then runes "lastupdated:desc" else runes "title:asc").
Proof.
  split; [apply normalizeSort_in|]. split.
  - intros Hin. unfold Cubecraft.normalizeSort. cbn zeta. by rewrite bool_decide_true.
  - intros Hout. unfold Cubecraft.normalizeSort. cbn zeta.
    rewrite bool_decide_false by done.
    case_bool_decide; [done|].
    destruct (decide (ToLower column = runes "in-progress")) as [->|Hip].
    { by rewrite (bool_decide_true (_ \/ _)) by (by left). }
    rewrite (bool_decide_false (ToLower column = runes "in-progress")) by done.
    destruct (decide (ToLower column = runes "coming-next")) as [->|Hcn].
    { by rewrite (bool_decide_true (_ \/ _)) by (by right). }
    rewrite (bool_decide_false (ToLower column = runes "coming-next")) by done.
    rewrite (bool_decide_false (_ \/ _)) by (by intros [?|?]). done.
Qed.

(** The items [All] pages are the items of the cards that pass the filter,
    each once (a permutation); they are sorted for the order of the
    normalised sort key; and the sort is stable: items that the order does
    not tell apart keep the order of the cards. *)
Theorem All_items_sorted (ranges : nat -> list nat) (column sortBy : gostring)
    (cards : list Cubecraft.Card.t) :
  Cubecraft.filteredItems ranges column sortBy cards
    ≡ₚ Cubecraft.cardItems (Cubecraft.targetStatuses column) ranges cards
  /\ StronglySorted
       (fun a b => Cubecraft.less (Cubecraft.normalizeSort sortBy column) b a = false)
       (Cubecraft.filteredItems ranges column sortBy cards)
  /\ (forall z : Cubecraft.item.t,
        filter (fun y => Cubecraft.less (Cubecraft.normalizeSort sortBy column) z y = false
                         /\ Cubecraft.less (Cubecraft.normalizeSort sortBy column) y z = false)
          (Cubecraft.filteredItems ranges column sortBy cards)
        = filter (fun y => Cubecraft.less (Cubecraft.normalizeSort sortBy column) z y = false
                           /\ Cubecraft.less (Cubecraft.normalizeSort sortBy column) y z = false)
            (Cubecraft.cardItems (Cubecraft.targetStatuses column) ranges cards)).
Proof.
  unfold Cubecraft.filteredItems. split; [|split].
  - apply SliceStable_Permutation.
  - apply SliceStable_sorted; [apply less_asymmetric|apply less_negatively_transitive].
  - intros z. apply SliceStable_stable. apply less_negatively_transitive.
Qed.

End CubecraftOrder.

(* ===================================================================== *)
(** * [renameMap] and the order of iteration *)
(* ===================================================================== *)

Section RenameFacts.

Lemma renameMapIn_lookup (l : list (gostring * gostring)) :
  NoDup (Notion.renameKey <$> l.*1) ->
  forall k' v, Notion.renameMapIn l !! k' = Some v <->
    exists k, (k, v) ∈ l /\ Notion.renameKey k = k'.
Proof.
  unfold Notion.renameMapIn.
  induction l as [|[k v] l IH] using rev_ind; intros Hnd k' v'.
  - simpl. rewrite lookup_empty. split; [done|]. intros (k & Hin & _).
    by apply elem_of_nil in Hin.
  - rewrite !fmap_app in Hnd. simpl in Hnd.
    apply NoDup_app in Hnd as (Hnd & Hfresh & _).
    rewrite foldl_app. simpl.
    destruct (decide (Notion.renameKey k = k')) as [<-|Hne].
    + rewrite lookup_insert_eq. split.
      * intros [= <-]. exists k. split; [|done]. apply elem_of_app. right. by left.
      * intros (k0 & Hin & Hk0). apply elem_of_app in Hin as [Hin|Hin].
        -- exfalso. apply (Hfresh (Notion.renameKey k)); [|by left].
           rewrite <- Hk0. apply list_elem_of_fmap. exists k0. split; [done|].
           apply list_elem_of_fmap. by exists (k0, v').
        -- apply list_elem_of_singleton in Hin. by simplify_eq.
    + rewrite lookup_insert_ne by done. rewrite (IH Hnd). split.
      * intros (k0 & Hin & Hk0). exists k0. split; [|done]. apply elem_of_app. by left.
      * intros (k0 & Hin & Hk0). apply elem_of_app in Hin as [Hin|Hin]; [by exists k0|].
        apply list_elem_of_singleton in Hin. by simplify_eq.
Qed.

(** The value under [k'] after the loop, when the entries that are renamed to
    [k'] carry one value. *)
Lemma renameMapIn_lookup_at (l : list (gostring * gostring)) (k' : gostring) :
  (forall k1 v1 k2 v2, (k1, v1) ∈ l -> (k2, v2) ∈ l ->
     Notion.renameKey k1 = k' -> Notion.renameKey k2 = k' -> v1 = v2) ->
  forall v, Notion.renameMapIn l !! k' = Some v <->
    exists k, (k, v) ∈ l /\ Notion.renameKey k = k'.
Proof.
  unfold Notion.renameMapIn.
  induction l as [|[k v] l IH] using rev_ind; intros Hone v'.
  - simpl. rewrite lookup_empty. split; [done|]. intros (k & Hin & _).
    by apply elem_of_nil in Hin.
  - rewrite foldl_app. simpl.
    destruct (decide (Notion.renameKey k = k')) as [Hk|Hne].
    + rewrite Hk, lookup_insert_eq. split.
      * intros [= <-]. exists k. split; [|done]. apply elem_of_app. right. by left.
      * intros (k0 & Hin & Hk0). f_equal.
        apply (Hone k v k0 v'); [|done|done|done]. apply elem_of_app. right. by left.
    + rewrite lookup_insert_ne by done. rewrite IH.
      * split.
        -- intros (k0 & Hin & Hk0). exists k0. split; [|done]. apply elem_of_app. by left.
        -- intros (k0 & Hin & Hk0). apply elem_of_app in Hin as [Hin|Hin]; [by exists k0|].
           apply list_elem_of_singleton in Hin. by simplify_eq.
      * intros k1 v1 k2 v2 H1 H2. apply Hone; apply elem_of_app; by left.
Qed.

(** The keys that are renamed to "status". *)
Lemma renameKey_status (k : gostring) :
  Notion.renameKey k = runes "status" -> k = runes "3E6J" \/ k = runes "status".
Proof.
  unfold Notion.renameKey. destruct (Cubecraft.keyMap !! k) as [v|] eqn:Hk; simpl; [|by right].
  intros ->. apply elem_of_list_to_map_2 in Hk.
  repeat (apply elem_of_cons in Hk as [Hk|Hk];
          [pose proof (f_equal fst Hk) as Hk1; pose proof (f_equal snd Hk) as Hk2;
           simpl in Hk1, Hk2;
           first [by left | by (vm_compute in Hk2; discriminate)]|]).
  by apply elem_of_nil in Hk.
Qed.

(** The status [All] reads off a card that does not hold both the key
    "3E6J" and the key "status": the value of the one it holds, whatever
    the order of the loop. *)
Lemma renameMap_status (choice : list nat) (m : gmap (list Z) (list Z)) :
  m !! runes "3E6J" = None \/ m !! runes "status" = None ->
  Cubecraft.renameMap choice m !! runes "status"
  = match m !! runes "3E6J" with
    | Some v => Some v
    | None => m !! runes "status"
    end.
Proof.
  intros Hone. apply option_eq. intros v.
  change (Cubecraft.renameMap choice m) with (Notion.renameMapIn (rangeOrder choice m)).
  rewrite renameMapIn_lookup_at.
  2:{ intros k1 v1 k2 v2 H1 H2 Hk1 Hk2. apply elem_of_rangeOrder in H1, H2.
      apply renameKey_status in Hk1, Hk2.
      destruct Hone, Hk1 as [-> | ->], Hk2 as [-> | ->]; congruence. }
  split.
  - intros (k & Hin & Hk). apply elem_of_rangeOrder in Hin.
    apply renameKey_status in Hk as [-> | ->].
    + by rewrite Hin.
    + destruct Hone as [H3|Hs]; [by rewrite H3|congruence].
  - intros Hv. destruct (m !! runes "3E6J") as [v3|] eqn:H3.
    + simplify_eq. exists (runes "3E6J"). split; [by apply elem_of_rangeOrder|].
      vm_compute. reflexivity.
    + exists (runes "status"). split; [by apply elem_of_rangeOrder|].
      vm_compute. reflexivity.
Qed.

Lemma NoDup_renamed (m : gmap (list Z) (list Z)) (order : list (gostring * gostring)) :
  order ≡ₚ map_to_list m ->
  (forall k1 k2, is_Some (m !! k1) -> is_Some (m !! k2) ->
     Notion.renameKey k1 = Notion.renameKey k2 -> k1 = k2) ->
  NoDup (Notion.renameKey <$> order.*1).
Proof.
  intros Hperm Hinj. rewrite Hperm.
  pose proof (NoDup_fst_map_to_list m) as Hnd.
  assert (forall k, k ∈ (map_to_list m).*1 -> is_Some (m !! k)) as Hdom.
  { intros k Hk. apply list_elem_of_fmap in Hk as ([k0 v] & -> & Hin).
    apply elem_of_map_to_list in Hin. by eexists. }
  induction Hnd as [|k ks Hk Hnd IH]; [constructor|].
  rewrite fmap_cons. constructor.
  - intros Hin. apply list_elem_of_fmap in Hin as (k0 & Heq & Hk0).
    assert (k = k0) as ->; [|done].
    apply Hinj; [apply Hdom; by left|apply Hdom; by right|done].
  - apply IH. intros k0 Hk0. apply Hdom. by right.
Qed.

(** [renameMap] does not depend on the order in which Go ranges over the
    map, provided no two keys of the map are renamed to the same key: every
    order of iteration builds the same map, which holds the value of [k]
    under the renamed [k] and nothing else. *)
Theorem renameMap_any_order (m : gmap (list Z) (list Z))
    (order : list (gostring * gostring)) :
  order ≡ₚ map_to_list m ->
  (forall k1 k2, is_Some (m !! k1) -> is_Some (m !! k2) ->
     Notion.renameKey k1 = Notion.renameKey k2 -> k1 = k2) ->
  (forall choice, Notion.renameMapIn order = Cubecraft.renameMap choice m)
  /\ (forall choice k v, m !! k = Some v ->
        Cubecraft.renameMap choice m !! Notion.renameKey k = Some v)
  /\ (forall choice k' v, Cubecraft.renameMap choice m !! k' = Some v ->
        exists k, m !! k = Some v /\ Notion.renameKey k = k').
Proof.
  intros Hperm Hinj.
  assert (forall l, l ≡ₚ map_to_list m ->
          forall k' v, Notion.renameMapIn l !! k' = Some v <->
            exists k, m !! k = Some v /\ Notion.renameKey k = k') as Hspec.
  { intros l Hl k' v. rewrite renameMapIn_lookup by (by apply (NoDup_renamed m)).
    split; intros (k & Hin & Hk); exists k; (split; [|done]).
    - apply elem_of_map_to_list. by rewrite <- Hl.
    - rewrite Hl. by apply elem_of_map_to_list. }
  assert (forall choice,
            Cubecraft.renameMap choice m = Notion.renameMapIn (rangeOrder choice m)) as Hin.
  { done. }
  split; [|split].
  - intros choice. apply map_eq. intros k'. apply option_eq. intros v.
    rewrite Hin, (Hspec order Hperm), (Hspec _ (rangeOrder_Permutation choice m)). done.
  - intros choice k v Hk. rewrite Hin.
    apply (Hspec _ (rangeOrder_Permutation choice m)). by exists k.
  - intros choice k' v. rewrite Hin. apply (Hspec _ (rangeOrder_Permutation choice m)).
Qed.

End RenameFacts.

(* ===================================================================== *)
(** * The cubecraft filter, pages and cache *)
(* ===================================================================== *)

Section CubecraftMore.
Context `{Unicode} `{Cubecraft.Lib}.
#[local] Arguments Cubecraft.pagesLoop : simpl never.

Lemma contains_singleton (t v : gostring) :
  Cubecraft.contains [t] v = true <-> v = t.
Proof.
  unfold Cubecraft.contains. simpl. rewrite orb_false_r.
  rewrite bool_decide_eq_true. split; by intros ->.
Qed.

Lemma cardItem_Some ts choice c it :
  Cubecraft.cardItem ts choice c = Some it ->
  Cubecraft.contains ts
    (default [] (Cubecraft.renameMap choice (Cubecraft.Card.Properties c)
                   !! runes "status")) = true
  /\ Cubecraft.item.ID it = Cubecraft.Card.ID c
  /\ Cubecraft.item.Title it = Cubecraft.Card.Title c
  /\ Cubecraft.item.Status it
     = Cubecraft.mapStatusLabel
         (default [] (Cubecraft.renameMap choice (Cubecraft.Card.Properties c)
                        !! runes "status")).
Proof.
  unfold Cubecraft.cardItem. cbn zeta.
  destruct (Cubecraft.contains ts _) eqn:Hc; [|done].
  intros [= <-]. done.
Qed.

Lemma columnToStatus_Some k ts :
  Cubecraft.columnToStatus !! k = Some ts ->
  (k = runes "in-progress" /\ ts = [runes "In Progress"])
  \/ (k = runes "coming-next" /\ ts = [runes "Testing"])
  \/ (k = runes "released" /\ ts = [runes "Released"]).
Proof.
  intros Hl. apply elem_of_list_to_map_2 in Hl.
  repeat (apply elem_of_cons in Hl as [Hl|Hl]; [injection Hl as -> ->; tauto|]).
  by apply elem_of_nil in Hl.
Qed.

(** For a column of the table and any order of the loops of [renameMap]:
    the items of [All] are exactly the items of the cards whose status, as
    this run renamed the properties, is the status of the column; all of
    them carry the one label of the column ("In Progress",
    "Coming Next..." or "Released"); and for a card that does not hold
    both the key "3E6J" and the key "status" that status is the value of
    the one it holds, in every order. *)
Theorem column_filter (ranges : nat -> list nat) (column sortBy : gostring)
    (cards : list Cubecraft.Card.t) (ts : list gostring) :
  Cubecraft.columnToStatus !! ToLower column = Some ts ->
  (forall it, it ∈ Cubecraft.filteredItems ranges column sortBy cards <->
     exists (i : nat) c, cards !! i = Some c
                         /\ Cubecraft.cardItem ts (ranges i) c = Some it)
  /\ (forall choice c,
        is_Some (Cubecraft.cardItem ts choice c) <->
        default [] (Cubecraft.renameMap choice (Cubecraft.Card.Properties c)
                      !! runes "status") ∈ ts)
  /\ (forall choice c,
        Cubecraft.Card.Properties c !! runes "3E6J" = None
        \/ Cubecraft.Card.Properties c !! runes "status" = None ->
        Cubecraft.renameMap choice (Cubecraft.Card.Properties c) !! runes "status"
        = match Cubecraft.Card.Properties c !! runes "3E6J" with
          | Some v => Some v
          | None => Cubecraft.Card.Properties c !! runes "status"
          end)
  /\ exists label,
       (ToLower column, label) ∈
         [ (runes "in-progress", runes "In Progress");
           (runes "coming-next", runes "Coming Next...");
           (runes "released", runes "Released") ]
       /\ forall it, it ∈ Cubecraft.filteredItems ranges column sortBy cards ->
            Cubecraft.item.Status it = label.
Proof.
  intros Hcol.
  assert (Cubecraft.targetStatuses column = ts) as Hts.
  { unfold Cubecraft.targetStatuses. by rewrite Hcol. }
  assert (forall it, it ∈ Cubecraft.filteredItems ranges column sortBy cards <->
            exists (i : nat) c, cards !! i = Some c
                                /\ Cubecraft.cardItem ts (ranges i) c = Some it) as Hmem.
  { intros it. unfold Cubecraft.filteredItems.
    rewrite SliceStable_Permutation, Hts. apply elem_of_cardItems. }
  split; [done|].
  apply columnToStatus_Some in Hcol.
  split; [|split].
  - intros choice c. unfold Cubecraft.cardItem. cbn zeta.
    destruct Hcol as [[_ ->]|[[_ ->]|[_ ->]]];
      (destruct (Cubecraft.contains _ _) eqn:Hc;
       [apply contains_singleton in Hc; rewrite Hc; split; [intros _; by left|by eexists]
       |split; [by intros [? ?]|]; intros Hin; apply list_elem_of_singleton in Hin;
        apply contains_singleton in Hin; congruence]).
  - intros choice c. apply renameMap_status.
  - destruct Hcol as [[Hk ->]|[[Hk ->]|[Hk ->]]]; rewrite Hk.
    + exists (runes "In Progress"). split; [left|].
      intros it (i & c & _ & Hit)%Hmem. apply cardItem_Some in Hit as (Hc & _ & _ & ->).
      apply contains_singleton in Hc. by rewrite Hc.
    + exists (runes "Coming Next..."). split; [right; left|].
      intros it (i & c & _ & Hit)%Hmem. apply cardItem_Some in Hit as (Hc & _ & _ & ->).
      apply contains_singleton in Hc. by rewrite Hc.
    + exists (runes "Released"). split; [do 2 right; left|].
      intros it (i & c & _ & Hit)%Hmem. apply cardItem_Some in Hit as (Hc & _ & _ & ->).
      apply contains_singleton in Hc. by rewrite Hc.
Qed.

(** ** Pages as a partition of the items *)

Lemma take_min_length {B} (n : nat) (l : list B) : take (n `min` length l) l = take n l.
Proof.
  destruct (decide (n <= length l)%nat); [by rewrite Nat.min_l by lia|].
  rewrite Nat.min_r by lia. rewrite firstn_all. by rewrite take_ge by lia.
Qed.

Lemma pageAt_items items limit i :
  0 < limit -> 0 <= i -> i * limit <= Z.of_nat (length items) ->
  Hive.RoadmapPage.Items (Cubecraft.pageAt items limit i)
  = Cubecraft.toDTO (i + 1)
      <$> take (Z.to_nat limit) (drop (Z.to_nat (i * limit)) items).
Proof.
  intros Hl Hi Hle. unfold Cubecraft.pageAt, Cubecraft.slice. simpl. f_equal.
  rewrite <- (take_min_length (Z.to_nat limit)). f_equal.
  rewrite length_drop. lia.
Qed.

Lemma paginate_join items limit (m : nat) :
  0 < limit -> Z.of_nat m * limit < Z.of_nat (length items) + limit ->
  (Cubecraft.pageAt items limit <$> seqZ 0 (Z.of_nat m)) ≫= Hive.RoadmapPage.Items
  = imap (fun k it => Cubecraft.toDTO (Z.of_nat k / limit + 1) it)
      (take (Z.to_nat (Z.of_nat m * limit)) items).
Proof.
  intros Hl. induction m as [|m IH]; intros Hm.
  - done.
  - replace (Z.of_nat (S m)) with (Z.of_nat m + 1) by lia.
    rewrite seqZ_snoc by lia. rewrite fmap_app, bind_app, IH by lia.
    assert ((Cubecraft.pageAt items limit <$> [0 + Z.of_nat m]) ≫= Hive.RoadmapPage.Items
            = Hive.RoadmapPage.Items (Cubecraft.pageAt items limit (Z.of_nat m))) as ->.
    { rewrite Z.add_0_l. simpl. apply app_nil_r. }
    rewrite pageAt_items by lia.
    replace (Z.to_nat ((Z.of_nat m + 1) * limit))
      with (Z.to_nat (Z.of_nat m * limit) + Z.to_nat limit)%nat by lia.
    rewrite <- (take_drop (Z.to_nat (Z.of_nat m * limit))
                  (take (Z.to_nat (Z.of_nat m * limit) + Z.to_nat limit) items)).
    rewrite take_take, Nat.min_l by lia.
    rewrite <- take_drop_commute. rewrite imap_app. f_equal.
    rewrite length_take, Nat.min_l by lia.
    rewrite <- (imap_const (Cubecraft.toDTO (Z.of_nat m + 1))).
    apply imap_ext. intros j x Hj. simpl.
    apply lookup_lt_Some in Hj. rewrite length_take in Hj.
    f_equal. f_equal.
    assert ((Z.of_nat (Z.to_nat (Z.of_nat m * limit) + j)) = Z.of_nat j + Z.of_nat m * limit)
      as -> by lia.
    rewrite Z.div_add by lia. rewrite Z.div_small by lia. lia.
Qed.

Lemma paginate_items items limit :
  0 < limit ->
  Cubecraft.paginate items limit ≫= Hive.RoadmapPage.Items
  = imap (fun k it => Cubecraft.toDTO (Z.of_nat k / limit + 1) it) items.
Proof.
  intros Hl. unfold Cubecraft.paginate.
  pose proof (ceilDiv_spec (Z.of_nat (length items)) limit Hl) as Hc.
  assert (0 <= Cubecraft.ceilDiv (Z.of_nat (length items)) limit) as Hn by nia.
  rewrite <- (Z2Nat.id (Cubecraft.ceilDiv _ _)) at 1 by done.
  rewrite paginate_join by (rewrite ?Z2Nat.id by done; lia).
  rewrite Z2Nat.id by done. by rewrite take_ge by lia.
Qed.

Lemma pageAt_length items limit (i : Z) :
  0 < limit -> 0 <= i < Cubecraft.ceilDiv (Z.of_nat (length items)) limit ->
  0 < Z.of_nat (length (Hive.RoadmapPage.Items (Cubecraft.pageAt items limit i))) <= limit
  /\ (i + 1 < Cubecraft.ceilDiv (Z.of_nat (length items)) limit ->
      Z.of_nat (length (Hive.RoadmapPage.Items (Cubecraft.pageAt items limit i))) = limit).
Proof.
  intros Hl [Hi Hlt].
  pose proof (proj2 (ceilDiv_lt (Z.of_nat (length items)) limit i Hl) Hlt) as Hil.
  rewrite pageAt_items by lia.
  rewrite length_fmap, length_take, length_drop. split; [lia|].
  intros Hnext. apply (ceilDiv_lt _ _ _ Hl) in Hnext. lia.
Qed.

(** The pages of [All] partition the sorted items.  Joined in order, the
    items of the pages are the sorted items, the item at index [k] carrying
    the page number [k / limit + 1]; when there is an item, no page is
    empty, every page but the last holds exactly [limit] items, and the items
    of the page at index [i] carry the page number [i + 1]. *)
Theorem pages_partition (s : Cubecraft.service.t) (env : Cubecraft.allEnv)
    (column sortBy : gostring) (limit : Z) (cards : list Cubecraft.Card.t)
    (c' : Cubecraft.Client.t) :
  Cubecraft.Fetch (Cubecraft.service.client s) (Cubecraft.fetched env) = (Ok cards, c') ->
  1 <= limit ->
  Z.of_nat (length (Cubecraft.filteredItems (Cubecraft.ranges env) column sortBy cards)) + limit - 1 <= maxInt ->
  exists pages,
    (Cubecraft.All s env column limit sortBy).1 = Ok pages
    /\ pages ≫= Hive.RoadmapPage.Items
       = imap (fun k it => Cubecraft.toDTO (Z.of_nat k / limit + 1) it)
           (Cubecraft.filteredItems (Cubecraft.ranges env) column sortBy cards)
    /\ (Cubecraft.filteredItems (Cubecraft.ranges env) column sortBy cards ≠ [] ->
        forall (i : nat) pg, pages !! i = Some pg ->
          0 < Z.of_nat (length (Hive.RoadmapPage.Items pg)) <= limit
          /\ (S i < length pages -> Z.of_nat (length (Hive.RoadmapPage.Items pg)) = limit)%nat
          /\ Forall (fun d => Hive.RoadmapItem.Page d = Z.of_nat i + 1)
               (Hive.RoadmapPage.Items pg)).
Proof.
  intros Hfetch Hl Hmax.
  pose proof (All_pages s env column limit sortBy cards c' Hfetch Hl Hmax) as Hall.
  set (items := Cubecraft.filteredItems (Cubecraft.ranges env) column sortBy cards) in *.
  eexists. split; [exact Hall|].
  case_bool_decide as Hz.
  - apply nil_length_inv in Hz. rewrite Hz. split; [done|]. done.
  - split; [apply paginate_items; lia|].
    intros _ i pg Hpg. apply paginate_lookup in Hpg as [-> Hlt].
    destruct (pageAt_length items limit (Z.of_nat i)) as [Hlen Hfull]; [lia|lia|].
    split; [done|]. split.
    + intros Hnext. apply Hfull.
      pose proof (length_paginate items limit ltac:(lia)). lia.
    + unfold Cubecraft.pageAt. simpl. apply Forall_fmap, Forall_forall. done.
Qed.

(** [Page] on the pages of [All]: a page number within range returns that
    page of [All] (a number below 1 counting as 1); a page number beyond the
    last returns an empty page that reports the page count, the limit as the
    caller gave it and zero results; [Page] never fails when [All]
    succeeds. *)
Theorem Page_of_All (s : Cubecraft.service.t) (env : Cubecraft.allEnv)
    (column sortBy : gostring) (page limit : Z)
    (pages : list Hive.RoadmapPage.t) (s' : Cubecraft.service.t) :
  Cubecraft.All s env column limit sortBy = (Ok pages, s') ->
  (forall pg, pages !! Z.to_nat (Z.max page 1 - 1) = Some pg ->
     Cubecraft.Page s env column page limit sortBy = (Ok pg, s'))
  /\ (Z.of_nat (length pages) < Z.max page 1 ->
      Cubecraft.Page s env column page limit sortBy
      = (Ok {| Hive.RoadmapPage.Meta :=
                 {| Hive.PageMeta.Page := Z.max page 1;
                    Hive.PageMeta.Limit := limit;
                    Hive.PageMeta.TotalPages := Z.of_nat (length pages);
                    Hive.PageMeta.TotalResults := 0 |};
               Hive.RoadmapPage.Items := [] |}, s'))
  /\ (exists pg, Cubecraft.Page s env column page limit sortBy = (Ok pg, s')).
Proof.
  intros Hall.
  assert ((if bool_decide (page <= 0) then 1 else page) = Z.max page 1) as Hp.
  { case_bool_decide; lia. }
  unfold Cubecraft.Page. rewrite Hall. cbn zeta. rewrite Hp. clear Hp.
  split; [|split].
  - intros pg Hpg. pose proof (lookup_lt_Some _ _ _ Hpg) as Hlt.
    rewrite bool_decide_false by lia. by rewrite Hpg.
  - intros Hlt. by rewrite bool_decide_true by done.
  - case_bool_decide as Hlt; [by eexists|].
    destruct (pages !! Z.to_nat (Z.max page 1 - 1)) as [pg|] eqn:Hpg; [by eexists|].
    apply lookup_ge_None in Hpg. lia.
Qed.

Lemma Fetch_error_cache (k : Cubecraft.Client.t) (env : Cubecraft.fetchEnv) e :
  (Cubecraft.Fetch k env).1 = Err e ->
  Cubecraft.Client.cache (Cubecraft.Fetch k env).2 = Cubecraft.Client.cache k.
Proof.
  unfold Cubecraft.Fetch.
  destruct (if bool_decide _ then _ else _); [done|].
  by destruct (Cubecraft.reply env).
Qed.

(** Round trip through the one-entry cache of the cubecraft client.  With
    a positive TTL, a [Fetch] that went to Notion (one request, to the
    query URL) stored the cards: a [Fetch] strictly before the expiry
    returns them and leaves the client as it is; and a later [Fetch] that
    fails leaves the stored entry in place. *)
Theorem Fetch_cached_again (k : Cubecraft.Client.t) (env env' : Cubecraft.fetchEnv)
    (cards : list Cubecraft.Card.t) (k1 : Cubecraft.Client.t) :
  0 < Cubecraft.Client.cacheTTL k ->
  Cubecraft.Fetch k env = (Ok cards, k1) -> k1 ≠ k ->
  Cubecraft.checkedAt env' < Add (Cubecraft.storedAt env) (Cubecraft.Client.cacheTTL k) ->
  Cubecraft.Fetch k1 env' = (Ok cards, k1)
  /\ Cubecraft.Client.httpClient k1 = Cubecraft.Client.httpClient k ++ [Cubecraft.notionAPIURL]
  /\ (forall late e, (Cubecraft.Fetch k1 late).1 = Err e ->
        Cubecraft.Client.cache (Cubecraft.Fetch k1 late).2 = Cubecraft.Client.cache k1).
Proof.
  intros Httl Hf Hne Hfresh.
  assert (Cubecraft.Client.cache k1
          = Some {| Cubecraft.cacheEntry.data := cards;
                    Cubecraft.cacheEntry.expiresAt :=
                      Add (Cubecraft.storedAt env) (Cubecraft.Client.cacheTTL k) |}
          /\ Cubecraft.Client.cacheTTL k1 = Cubecraft.Client.cacheTTL k
          /\ Cubecraft.Client.httpClient k1
             = Cubecraft.Client.httpClient k ++ [Cubecraft.notionAPIURL]) as (Hc & Ht & Hs).
  { unfold Cubecraft.Fetch in Hf. rewrite bool_decide_true in Hf by done.
    destruct (Cubecraft.Client.cache k) as [entry|].
    - destruct (Before _ _); [by simplify_eq|].
      destruct (Cubecraft.reply env); simplify_eq. simpl.
      by rewrite bool_decide_true by done.
    - destruct (Cubecraft.reply env); simplify_eq. simpl.
      by rewrite bool_decide_true by done. }
  assert (Cubecraft.Fetch k1 env' = (Ok cards, k1)) as Hhit.
  { erewrite Fetch_hit; [|split; [lia|split; [exact Hc|exact Hfresh]]]. done. }
  split; [done|]. split; [done|]. intros late e. apply Fetch_error_cache.
Qed.

End CubecraftMore.

(* ===================================================================== *)
(** * [parseProps] and the order of iteration *)
(* ===================================================================== *)

Section DecodeFacts.
Context `{Notion.Lib}.
Import Notion.

Lemma parseProp_readProp st k rawv :
  parseProp st k rawv =
    match readProp rawv with
    | Skipped => Ok st
    | Dated ds =>
        Ok {| parsed.title := parsed.title st;
              parsed.props := <[k := ds]> (parsed.props st);
              parsed.releasedAt :=
                if bool_decide (k = runes "?igY") then ds else parsed.releasedAt st |}
    | Plain text =>
        Ok {| parsed.title :=
                if bool_decide (k = runes "title") then text else parsed.title st;
              parsed.props := <[k := text]> (parsed.props st);
              parsed.releasedAt := parsed.releasedAt st |}
    | EmptyCell => Panic "index out of range [0] with length 0"
    end.
Proof.
  unfold parseProp, readProp.
  destruct (unmarshalCells rawv) as [[|cell cells]|]; [done| |done].
  destruct (startDate cell) as [ds|]; [done|].
  destruct cell as [|x cell]; [done|]. by destruct x.
Qed.

Lemma parseProps_snoc l k rawv :
  parseProps (l ++ [(k, rawv)]) =
    match parseProps l with
    | Ok st => parseProp st k rawv
    | other => other
    end.
Proof. unfold parseProps. rewrite foldl_app. simpl. by destruct (foldl _ _ _). Qed.

Lemma parsedOf_insert m st k rawv :
  m !! k = None -> NotionSpec.parsedOf m st -> readProp rawv ≠ EmptyCell ->
  exists st', parseProp st k rawv = Ok st' /\ NotionSpec.parsedOf (<[k := rawv]> m) st'.
Proof.
  intros Hk (Hprops & Htitle & Hrel) Hne. rewrite parseProp_readProp.
  assert (omap valueOf m !! k = None) as Hnone by (by rewrite lookup_omap, Hk).
  assert (forall key : gostring,
            k ≠ key -> <[k := rawv]> m !! key = m !! key) as Hother.
  { intros key Hkey. by rewrite lookup_insert_ne. }
  unfold NotionSpec.parsedOf.
  destruct (readProp rawv) as [|ds|text|] eqn:Hread; [| | |done]; eexists; (split; [done|]);
    simpl; rewrite omap_insert; unfold valueOf at 1; rewrite Hread.
  - split; [by rewrite delete_id|].
    split.
    + destruct (decide (k = runes "title")) as [->|Hkt].
      * rewrite lookup_insert_eq. simpl. unfold textOf at 1. rewrite Hread.
        by rewrite Htitle, Hk.
      * by rewrite Hother.
    + destruct (decide (k = runes "?igY")) as [->|Hkr].
      * rewrite lookup_insert_eq. simpl. unfold dateOf at 1. rewrite Hread.
        by rewrite Hrel, Hk.
      * by rewrite Hother.
  - split; [by rewrite Hprops|].
    split.
    + destruct (decide (k = runes "title")) as [->|Hkt].
      * rewrite lookup_insert_eq. simpl. unfold textOf at 1. rewrite Hread.
        by rewrite Htitle, Hk.
      * by rewrite Hother.
    + case_bool_decide as Hkr.
      * subst k. rewrite lookup_insert_eq. simpl. unfold dateOf at 1. by rewrite Hread.
      * by rewrite Hother.
  - split; [by rewrite Hprops|].
    split.
    + case_bool_decide as Hkt.
      * subst k. rewrite lookup_insert_eq. simpl. unfold textOf at 1. by rewrite Hread.
      * by rewrite Hother.
    + destruct (decide (k = runes "?igY")) as [->|Hkr].
      * rewrite lookup_insert_eq. simpl. unfold dateOf at 1. rewrite Hread.
        by rewrite Hrel, Hk.
      * by rewrite Hother.
Qed.

Lemma parseProps_spec (l : list (gostring * list Z)) :
  NoDup l.*1 ->
  match parseProps l with
  | Ok st =>
      (forall k raw, (list_to_map l : gmap (list Z) (list Z)) !! k = Some raw ->
         readProp raw ≠ EmptyCell)
      /\ NotionSpec.parsedOf (list_to_map l) st
  | Err _ => False
  | Panic _ =>
      exists k raw, (list_to_map l : gmap (list Z) (list Z)) !! k = Some raw
                    /\ readProp raw = EmptyCell
  end.
Proof.
  induction l as [|[k rawv] l IH] using rev_ind; intros Hnd.
  - simpl. split; [intros k raw; by rewrite lookup_empty|].
    unfold NotionSpec.parsedOf. simpl. rewrite omap_empty, !lookup_empty. done.
  - rewrite fmap_app in Hnd. simpl in Hnd.
    apply NoDup_app in Hnd as (Hnd & Hfresh & _).
    assert (k ∉ l.*1) as Hk by (intros Hin; apply (Hfresh k Hin); by left).
    assert ((list_to_map l : gmap (list Z) (list Z)) !! k = None) as Hknone.
    { by apply not_elem_of_list_to_map_1. }
    specialize (IH Hnd). rewrite parseProps_snoc, list_to_map_snoc by done.
    destruct (parseProps l) as [st|e|m]; [|done|].
    2:{ destruct IH as (k0 & raw & Hin & Hr). exists k0, raw. split; [|done].
        rewrite lookup_insert_ne; [done|]. intros ->. congruence. }
    destruct IH as (Hne & Hparsed).
    assert (readProp rawv = EmptyCell \/ readProp rawv ≠ EmptyCell) as [Hempty|Hok].
    { destruct (readProp rawv); auto. }
    + rewrite parseProp_readProp, Hempty. exists k, rawv.
      split; [by rewrite lookup_insert_eq|done].
    + destruct (parsedOf_insert _ st k rawv Hknone Hparsed Hok) as (st' & -> & Hst').
      split; [|done]. intros k0 raw Hl.
      destruct (decide (k0 = k)) as [->|Hk0].
      * rewrite lookup_insert_eq in Hl. by simplify_eq.
      * rewrite lookup_insert_ne in Hl by done. by eapply Hne.
Qed.

(** [parseProps] does not depend on the order in which Go ranges over the
    properties.  In every order it returns the same thing: the usable values
    (a start date where the cell has one, else the text of the cell), the
    title as the text of "title" and the release date as the date of
    "?igY"; it never returns an error; and it panics exactly when some
    property decodes to an array whose first cell is empty, the
    [cell[0]] of the code being out of range. *)
Theorem parseProps_any_order (m : gmap (list Z) (list Z))
    (order : list (gostring * list Z)) :
  order ≡ₚ map_to_list m ->
  match parseProps order with
  | Ok st =>
      (forall k raw, m !! k = Some raw -> readProp raw ≠ EmptyCell)
      /\ parsed.props st = omap valueOf m
      /\ parsed.title st = default [] (m !! runes "title" ≫= textOf)
      /\ parsed.releasedAt st = default [] (m !! runes "?igY" ≫= dateOf)
  | Err _ => False
  | Panic _ => exists k raw, m !! k = Some raw /\ readProp raw = EmptyCell
  end.
Proof.
  intros Hperm.
  assert (NoDup order.*1) as Hnd.
  { rewrite Hperm. apply NoDup_fst_map_to_list. }
  assert ((list_to_map order : gmap (list Z) (list Z)) = m) as Hm.
  { symmetry. apply list_to_map_flip. by symmetry. }
  pose proof (parseProps_spec order Hnd) as Hspec. rewrite Hm in Hspec.
  destruct (parseProps order) as [st|e|msg]; [|done|done].
  destruct Hspec as (Hne & Hp & Ht & Hr). done.
Qed.

End DecodeFacts.

(* ===================================================================== *)
(** * The loop over the blocks *)
(* ===================================================================== *)

Section CardsFacts.
Context `{Notion.Lib}.
Import Notion.

Lemma blockCard_no_error id raw e : blockCard id raw ≠ Some (Err e).
Proof.
  unfold blockCard. destruct (unmarshalBlock raw) as [rb|]; [|done].
  case_bool_decide; [done|].
  pose proof (parseProps_spec (map_to_list (rawBlock.Properties rb))
                (NoDup_fst_map_to_list _)) as Hp.
  by destruct (parseProps _).
Qed.

Lemma cardsOf_spec (blocks : list (gostring * list Z)) :
  match cardsOf blocks with
  | Ok cards => cards = omap NotionSpec.cardOk blocks /\ Forall (fun b => ~ NotionSpec.panics b) blocks
  | Err _ => False
  | Panic _ => Exists NotionSpec.panics blocks
  end.
Proof.
  induction blocks as [|[id raw] blocks IH] using rev_ind.
  - simpl. split; [done|constructor].
  - unfold cardsOf in *. rewrite foldl_app. simpl.
    destruct (foldl _ _ blocks) as [cards|e|m]; [|done|].
    2:{ apply Exists_app. by left. }
    destruct IH as [-> Hall]. rewrite omap_app. simpl.
    change (NotionSpec.cardOk (id, raw))
      with (match blockCard id raw with Some (Ok card) => Some card | _ => None end).
    pose proof (blockCard_no_error id raw) as Hne.
    destruct (blockCard id raw) as [[card|e|m]|] eqn:Hb.
    + split; [done|]. apply Forall_app. split; [done|]. constructor; [|constructor].
      intros [m Hm]. simpl in Hm. congruence.
    + by destruct (Hne e).
    + apply Exists_app. right. constructor. by exists m.
    + rewrite app_nil_r. split; [done|]. apply Forall_app. split; [done|].
      constructor; [|constructor]. intros [m Hm]. simpl in Hm. congruence.
Qed.

(** The loop over the blocks in two orders of iteration.  If it returns
    cards in one order, these are the cards of the blocks that decode and
    belong to the collection, and in the other order it returns the same
    cards, permuted; if it panics in one order it panics in the other; it
    never returns an error.  A card carries the identifier and the two
    timestamps of its block. *)
Theorem cardsOf_any_order (blocks1 blocks2 : list (gostring * list Z)) :
  blocks1 ≡ₚ blocks2 ->
  (forall cards1, cardsOf blocks1 = Ok cards1 ->
     cards1 = omap NotionSpec.cardOk blocks1
     /\ exists cards2, cardsOf blocks2 = Ok cards2 /\ cards1 ≡ₚ cards2)
  /\ (forall m, cardsOf blocks1 = Panic m -> exists m', cardsOf blocks2 = Panic m')
  /\ (forall e, cardsOf blocks1 ≠ Err e)
  /\ (forall b card, NotionSpec.cardOk b = Some card ->
        Cubecraft.Card.ID card = b.1
        /\ exists rb, unmarshalBlock b.2 = Some rb
                      /\ rawBlock.ParentTable rb = runes "collection"
                      /\ Cubecraft.Card.CreatedAt card = rawBlock.CreatedTime rb
                      /\ Cubecraft.Card.UpdatedAt card = rawBlock.LastEditedTime rb).
Proof.
  intros Hperm.
  pose proof (cardsOf_spec blocks1) as H1. pose proof (cardsOf_spec blocks2) as H2.
  split; [|split; [|split]].
  - intros cards1 Heq. rewrite Heq in H1. destruct H1 as [-> Hall1]. split; [done|].
    destruct (cardsOf blocks2) as [cards2|e2|m2]; [|done|].
    + destruct H2 as [-> _]. eexists. split; [done|]. by rewrite Hperm.
    + apply Exists_exists in H2 as (b & Hin & Hb).
      rewrite Forall_forall in Hall1. destruct (Hall1 b); [|done]. by rewrite Hperm.
  - intros m Heq. rewrite Heq in H1.
    destruct (cardsOf blocks2) as [cards2|e2|m2]; [|done|by eexists].
    destruct H2 as [_ Hall2]. apply Exists_exists in H1 as (b & Hin & Hb).
    rewrite Forall_forall in Hall2. destruct (Hall2 b); [|done]. by rewrite <- Hperm.
  - intros e Heq. by rewrite Heq in H1.
  - intros [id raw] card. unfold NotionSpec.cardOk, blockCard. simpl.
    destruct (unmarshalBlock raw) as [rb|]; [|done].
    case_bool_decide as Hpt; [done|].
    destruct (parseProps _); [|done..]. intros [= <-]. simpl. split; [done|].
    exists rb. split; [done|]. split; [|done].
    by destruct (decide (rawBlock.ParentTable rb = runes "collection")).
Qed.

End CardsFacts.

(* ===================================================================== *)
(** * The cubecraft handler *)
(* ===================================================================== *)

Section CubecraftHandlerFacts.
Context `{Unicode} `{Cubecraft.Lib} `{CubecraftHandlers.Lib}.

Lemma flattenItem_page p it :
  CubecraftHandlers.flattenItem (Cubecraft.toDTO p it) = CubecraftHandlers.itemOut it.
Proof. done. Qed.

Lemma flattenPages_join pages :
  CubecraftHandlers.flattenPages pages
  = CubecraftHandlers.flattenItem <$> (pages ≫= Hive.RoadmapPage.Items).
Proof.
  unfold CubecraftHandlers.flattenPages.
  induction pages as [|p pages IH]; [done|].
  cbn [mbind list_bind]. by rewrite fmap_app, IH.
Qed.

Lemma All_join s env column sortBy limit cards c' :
  Cubecraft.Fetch (Cubecraft.service.client s) (Cubecraft.fetched env) = (Ok cards, c') ->
  1 <= limit ->
  Z.of_nat (length (Cubecraft.filteredItems (Cubecraft.ranges env) column sortBy cards)) + limit - 1 <= maxInt ->
  exists pages,
    (Cubecraft.All s env column limit sortBy).1 = Ok pages
    /\ pages ≫= Hive.RoadmapPage.Items
       = imap (fun k it => Cubecraft.toDTO (Z.of_nat k / limit + 1) it)
           (Cubecraft.filteredItems (Cubecraft.ranges env) column sortBy cards).
Proof.
  intros Hfetch Hl Hmax.
  pose proof (All_pages s env column limit sortBy cards c' Hfetch Hl Hmax) as Hall.
  set (items := Cubecraft.filteredItems (Cubecraft.ranges env) column sortBy cards) in *.
  eexists. split; [exact Hall|].
  case_bool_decide as Hz.
  - apply nil_length_inv in Hz. by rewrite Hz.
  - apply paginate_items. lia.
Qed.

(** [Handlers.ByColumn] of cubecraft, for a column of the table (in any
    letter case) and a fetch that succeeds: the answer is the flat list of
    the filtered and sorted items, in that order, the page boundaries of the
    ten-per-page split leaving no trace. *)
Theorem ByColumn_lists_items (s : Cubecraft.service.t) (env : Cubecraft.allEnv)
    (column sortBy : gostring) (cards : list Cubecraft.Card.t) (c' : Cubecraft.Client.t) :
  Cubecraft.Fetch (Cubecraft.service.client s) (Cubecraft.fetched env) = (Ok cards, c') ->
  is_Some (Cubecraft.columnToStatus !! ToLower column) ->
  Z.of_nat (length (Cubecraft.filteredItems (Cubecraft.ranges env) (ToLower column) sortBy cards)) + 9 <= maxInt ->
  (CubecraftHandlers.ByColumn s env column sortBy).1
  = CubecraftHandlers.Items
      (CubecraftHandlers.itemOut <$> Cubecraft.filteredItems (Cubecraft.ranges env) (ToLower column) sortBy cards).
Proof.
  intros Hfetch [ts Hcol] Hmax.
  assert (Z.of_nat (length (Cubecraft.filteredItems (Cubecraft.ranges env) (ToLower column) sortBy cards)) + 10 - 1
          <= maxInt) as Hmax' by lia.
  destruct (All_join s env (ToLower column) sortBy 10 cards c' Hfetch ltac:(lia) Hmax')
    as (pages & Hall & Hjoin).
  unfold CubecraftHandlers.ByColumn, Cubecraft.ByColumn. rewrite Hcol.
  unfold Cubecraft.defaultPageSize.
  destruct (Cubecraft.All s env (ToLower column) 10 sortBy) as [out s'].
  simpl in Hall. subst out. simpl. f_equal.
  rewrite flattenPages_join, Hjoin, fmap_imap.
  rewrite <- (imap_const CubecraftHandlers.itemOut). apply imap_ext. done.
Qed.

End CubecraftHandlerFacts.

(* ===================================================================== *)
(** * The statements above on concrete data *)
(* ===================================================================== *)

Section TrackerRuns.

Lemma record_distinct_ids_witness :
  NoDup (itemID <$> Demo.secondFetch)
  /\ Tracker.updates
       (Tracker.record (2 * Hour) Demo.secondFetch
          (Tracker.record (1 * Hour) Demo.firstFetch Tracker.empty))
     = [ {| Tracker.At := 2 * Hour; Tracker.From := runes "In Progress";
            Tracker.To := runes "Released"; Tracker.Item := Demo.post "X" "Released" |} ].
Proof.
  assert (NoDup (itemID <$> Demo.secondFetch)) as Hnd.
  { apply (bool_decide_unpack _). vm_compute. exact I. }
  split; [exact Hnd|].
  rewrite (proj1 (record_distinct_ids (2 * Hour)
                    (Tracker.record (1 * Hour) Demo.firstFetch Tracker.empty)
                    Demo.secondFetch Hnd)).
  vm_compute. reflexivity.
Defined.

End TrackerRuns.

Section ClientRuns.
#[local] Existing Instance Demo.unicode.
#[local] Existing Instance Demo.hiveLib.

Lemma NewClient_workers_witness :
  Hive.Client.maxConcurrency DemoMore.routerClient = 4
  /\ 1 <= Hive.Client.maxConcurrency DemoMore.routerClient
  /\ Hive.Client.cache DemoMore.routerClient = ∅.
Proof.
  assert (Forall (fun o => (exists ttl, o = Hive.WithCacheTTL ttl)
                           \/ (exists n, o = Hive.WithMaxConcurrency n))
            DemoMore.routerOptions) as Hall.
  { constructor; [left; by eexists|]. constructor; [right; by eexists|]. constructor. }
  destruct (NewClient_workers Hive.DefaultBaseURL DemoMore.routerOptions Hall)
    as (Hmax & _ & Hcache & _).
  split; [reflexivity|]. split; [exact Hmax|exact Hcache].
Defined.

Lemma FetchPage_cached_again_witness :
  Hive.FetchPage
    (Hive.FetchPage DemoMore.routerClient (Demo.pageOfThree 1) (Demo.query "released" 1)).2
    (Demo.answerAt (10 * Second) 500 []) (Demo.query "released" 0)
  = (Ok (DemoMore.firstOfThree, [1; 3]),
     (Hive.FetchPage DemoMore.routerClient (Demo.pageOfThree 1) (Demo.query "released" 1)).2).
Proof.
  apply (FetchPage_cached_again DemoMore.routerClient (Demo.pageOfThree 1)
           (Demo.answerAt (10 * Second) 500 []) (Demo.query "released" 1)
           (Demo.query "released" 0)).
  - vm_compute. reflexivity.
  - reflexivity.
  - reflexivity.
  - apply injective_projections; [vm_compute; reflexivity|reflexivity].
  - intros Heq. apply (f_equal Hive.Client.httpClient) in Heq.
    vm_compute in Heq. discriminate.
  - vm_compute. reflexivity.
  - vm_compute. reflexivity.
Defined.

Lemma FetchPage_undecodable_cached_witness :
  (Hive.FetchPage DemoMore.routerClient (Demo.answerAt 1 200 [7]) (Demo.query "released" 1)).1
    = Err (ErrUnmarshal [])
  /\ Hive.Client.httpClient
       (Hive.FetchPage DemoMore.routerClient (Demo.answerAt 1 200 [7])
          (Demo.query "released" 1)).2
     = Hive.Client.httpClient DemoMore.routerClient
       ++ [match Hive.buildURL DemoMore.routerClient (Demo.query "released" 1) with
           | Ok u => u
           | _ => []
           end]
  /\ Hive.FetchPage
       (Hive.FetchPage DemoMore.routerClient (Demo.answerAt 1 200 [7])
          (Demo.query "released" 1)).2
       (Demo.answerAt (10 * Second) 200 [1; 3]) (Demo.query "released" 1)
     = (Err (ErrUnmarshal []),
        (Hive.FetchPage DemoMore.routerClient (Demo.answerAt 1 200 [7])
           (Demo.query "released" 1)).2).
Proof.
  apply (FetchPage_undecodable_cached DemoMore.routerClient (Demo.answerAt 1 200 [7])
           (Demo.answerAt (10 * Second) 200 [1; 3]) (Demo.query "released" 1)
           (match Hive.buildURL DemoMore.routerClient (Demo.query "released" 1) with
            | Ok u => u
            | _ => []
            end) 200 [7]).
  - vm_compute. reflexivity.
  - reflexivity.
  - vm_compute. reflexivity.
  - intros e (_ & _ & Hl & _). vm_compute in Hl. discriminate.
  - reflexivity.
  - lia.
  - vm_compute. reflexivity.
  - vm_compute. reflexivity.
Defined.

Lemma every_page_requested_witness :
  exists r,
    Hive.FetchAllPages Demo.client0 (Demo.pageOfThree 1)
      (Demo.outOfOrder (Demo.failing 4)) (Demo.query "released" 1) = Some r
    /\ (Hive.fetchAll.calls r).*1 = [1; 3; 2]
    /\ (Hive.fetchAll.calls r).*1 ≡ₚ 1 :: seqZ 2 (3 - 1)
    /\ Hive.fetchAll.result r = Err (ErrTransport (runes "connection reset")).
Proof.
  destruct (Hive.FetchAllPages Demo.client0 (Demo.pageOfThree 1)
              (Demo.outOfOrder (Demo.failing 4))
              (Demo.query "released" 1)) as [r|] eqn:Hrun;
    [|vm_compute in Hrun; discriminate].
  destruct (Hive.FetchPage Demo.client0 (Demo.pageOfThree 1) (Demo.query "released" 1))
    as [[[first raw]|e|m] c1] eqn:Hfp;
    [|vm_compute in Hfp; discriminate..].
  assert (Hive.hiveResponse.TotalPages first = 3) as Htotal.
  { vm_compute in Hfp. by injection Hfp as <- _ _. }
  assert ((Hive.fetchAll.calls r).*1 = [1; 3; 2]
          /\ Hive.fetchAll.result r = Err (ErrTransport (runes "connection reset")))
    as (Hpages & Hres).
  { pose proof Hrun as Hr. vm_compute in Hr. injection Hr as <-.
    split; reflexivity. }
  destruct (every_page_requested Demo.client0 (Demo.pageOfThree 1)
              (Demo.outOfOrder (Demo.failing 4)) (Demo.query "released" 1)
              first raw c1 r Hfp) as (Hok & _).
  - rewrite Htotal. lia.
  - vm_compute. congruence.
  - exact Hrun.
  - destruct Hok as (Hperm & _); [rewrite Htotal; vm_compute; congruence|].
    exists r. split; [reflexivity|]. split; [exact Hpages|]. split; [|exact Hres].
    rewrite Htotal in Hperm. exact Hperm.
Defined.

Lemma pool_never_stuck_witness :
  is_Some (Hive.FetchAllPages Demo.client0 (Demo.pageOfThree 1)
             (Hive.sequential [Demo.pageOfThree 2; Demo.pageOfThree 3])
             (Demo.query "released" 1)).
Proof.
  destruct (Hive.FetchPage Demo.client0 (Demo.pageOfThree 1) (Demo.query "released" 1))
    as [[[first raw]|e|m] c1] eqn:Hfp;
    [|vm_compute in Hfp; discriminate..].
  assert (Hive.hiveResponse.TotalPages first = 3) as Htotal.
  { vm_compute in Hfp. by injection Hfp as <- _ _. }
  apply (proj1 (pool_never_stuck Demo.client0 (Demo.pageOfThree 1) (Demo.query "released" 1)
                  first raw c1 Hfp ltac:(rewrite Htotal; lia) ltac:(vm_compute; congruence))).
  rewrite Htotal. reflexivity.
Defined.

Lemma stripHTML_unclosed_tag_witness :
  (62 ∉ runes " b")
  /\ Hive.stripHTML (runes "a " ++ 60 :: runes " b") = Hive.stripHTML (runes "a ").
Proof.
  assert (62 ∉ runes " b") as Hno.
  { intros Hin. vm_compute in Hin.
    repeat (apply elem_of_cons in Hin as [Hin|Hin]; [discriminate|]).
    by apply elem_of_nil in Hin. }
  split; [exact Hno|]. exact (proj2 (stripHTML_unclosed_tag (runes "a ") (runes " b") Hno)).
Defined.

End ClientRuns.

Section CubecraftRuns.
#[local] Existing Instance Demo.unicode.
#[local] Existing Instance Demo.cubeLib.
#[local] Existing Instance DemoMore.handlersLib.
#[local] Existing Instance DemoMore.notionLib.

(** With the keys "3E6J" and "status" both there, the status that [All]
    reads depends on the order of the loop: the key visited last wins. *)
Example renameMap_collision :
  Cubecraft.renameMap [0%nat] DemoMore.twoKeys !! runes "status"
    = Some (runes "Released")
  /\ Cubecraft.renameMap [1%nat] DemoMore.twoKeys !! runes "status"
     = Some (runes "Testing").
Proof. vm_compute. split; reflexivity. Qed.

Lemma column_filter_witness :
  Cubecraft.columnToStatus !! ToLower (runes "Released") = Some [runes "Released"]
  /\ (forall choice,
        Cubecraft.renameMap choice (Cubecraft.Card.Properties DemoMore.richCard)
          !! runes "status" = Some (runes "Released"))
  /\ exists label,
       (ToLower (runes "Released"), label) ∈
         [ (runes "in-progress", runes "In Progress");
           (runes "coming-next", runes "Coming Next...");
           (runes "released", runes "Released") ]
       /\ forall it,
            it ∈ Cubecraft.filteredItems (fun i => [1%nat; i]) (runes "Released") []
                   (DemoMore.richCard :: Demo.board) ->
            Cubecraft.item.Status it = label.
Proof.
  assert (Cubecraft.columnToStatus !! ToLower (runes "Released") = Some [runes "Released"])
    as Hcol by (vm_compute; reflexivity).
  destruct (column_filter (fun i => [1%nat; i]) (runes "Released") []
              (DemoMore.richCard :: Demo.board) [runes "Released"] Hcol)
    as (_ & _ & Hstatus & Hlabel).
  split; [exact Hcol|]. split; [|exact Hlabel].
  intros choice. rewrite Hstatus; [reflexivity|]. right. reflexivity.
Defined.

Lemma pages_partition_witness :
  exists pages,
    (Cubecraft.All Demo.cubeService Demo.boardEnv (runes "released") 1 []).1 = Ok pages
    /\ pages ≫= Hive.RoadmapPage.Items
       = imap (fun k it => Cubecraft.toDTO (Z.of_nat k / 1 + 1) it)
           (Cubecraft.filteredItems (Cubecraft.ranges Demo.boardEnv) (runes "released") [] Demo.board).
Proof.
  destruct (pages_partition Demo.cubeService Demo.boardEnv (runes "released") [] 1 Demo.board
              (Cubecraft.Fetch (Cubecraft.service.client Demo.cubeService)
                 (Cubecraft.fetched Demo.boardEnv)).2)
    as (pages & Hall & Hjoin & _).
  - reflexivity.
  - lia.
  - vm_compute. congruence.
  - exists pages. split; [exact Hall|exact Hjoin].
Defined.

Lemma Page_of_All_witness :
  exists pg,
    Cubecraft.Page Demo.cubeService Demo.boardEnv (runes "released") 5 1 []
    = (Ok pg, (Cubecraft.All Demo.cubeService Demo.boardEnv (runes "released") 1 []).2).
Proof.
  destruct (Cubecraft.All Demo.cubeService Demo.boardEnv (runes "released") 1 [])
    as [[pages|e|m] s'] eqn:Hall; [|vm_compute in Hall; discriminate..].
  exact (proj2 (proj2 (Page_of_All Demo.cubeService Demo.boardEnv (runes "released") []
                         5 1 pages s' Hall))).
Defined.

Lemma Fetch_cached_again_witness :
  Cubecraft.Fetch
    (Cubecraft.Fetch DemoMore.routerCubeClient (Cubecraft.fetched Demo.boardEnv)).2
    {| Cubecraft.checkedAt := 60 * Second;
       Cubecraft.reply := Cubecraft.DoFails (runes "connection reset");
       Cubecraft.storedAt := 60 * Second |}
  = (Ok Demo.board,
     (Cubecraft.Fetch DemoMore.routerCubeClient (Cubecraft.fetched Demo.boardEnv)).2).
Proof.
  apply (Fetch_cached_again DemoMore.routerCubeClient (Cubecraft.fetched Demo.boardEnv)).
  - vm_compute. reflexivity.
  - apply injective_projections; [reflexivity|reflexivity].
  - intros Heq. apply (f_equal Cubecraft.Client.httpClient) in Heq.
    vm_compute in Heq. discriminate.
  - vm_compute. reflexivity.
Defined.

Lemma twoProperties_injective (k1 k2 : gostring) :
  is_Some (DemoMore.twoProperties !! k1) -> is_Some (DemoMore.twoProperties !! k2) ->
  Notion.renameKey k1 = Notion.renameKey k2 -> k1 = k2.
Proof.
  unfold DemoMore.twoProperties. intros H1 H2 Heq.
  apply lookup_insert_is_Some in H1 as [<-|[_ H1]];
    [|apply lookup_singleton_is_Some in H1 as <-];
    (apply lookup_insert_is_Some in H2 as [<-|[_ H2]];
     [|apply lookup_singleton_is_Some in H2 as <-]);
    try reflexivity; vm_compute in Heq; discriminate.
Defined.

Lemma renameMap_any_order_witness :
  (forall choice,
     Cubecraft.renameMap choice DemoMore.twoProperties !! Notion.renameKey (runes "3E6J")
     = Some (runes "Released"))
  /\ (forall choice,
        Notion.renameMapIn [(runes "K:rY", runes "Games"); (runes "3E6J", runes "Released")]
        = Cubecraft.renameMap choice DemoMore.twoProperties).
Proof.
  assert ([(runes "K:rY", runes "Games"); (runes "3E6J", runes "Released")]
          ≡ₚ map_to_list DemoMore.twoProperties) as Hperm.
  { unfold DemoMore.twoProperties.
    rewrite map_to_list_insert by (vm_compute; reflexivity).
    rewrite map_to_list_singleton. apply Permutation_swap. }
  destruct (renameMap_any_order DemoMore.twoProperties _ Hperm twoProperties_injective)
    as (Hsame & Hlookup & _).
  split; [|exact Hsame].
  intros choice. apply Hlookup. reflexivity.
Defined.

Lemma parseProps_any_order_witness :
  exists st,
    Notion.parseProps (map_to_list DemoMore.properties) = Ok st
    /\ Notion.parsed.title st = runes "Alpha"
    /\ Notion.parsed.releasedAt st = runes "2024-05-01".
Proof.
  pose proof (parseProps_any_order DemoMore.properties (map_to_list DemoMore.properties)
                (reflexivity _)) as Hp.
  destruct (Notion.parseProps (map_to_list DemoMore.properties)) as [st|e|m] eqn:Hpp;
    [|vm_compute in Hpp; discriminate..].
  destruct Hp as (_ & _ & Ht & Hr).
  exists st. split; [reflexivity|]. split.
  - rewrite Ht. vm_compute. reflexivity.
  - rewrite Hr. vm_compute. reflexivity.
Defined.

Lemma cardsOf_any_order_witness :
  exists cards2,
    Notion.cardsOf [(runes "b-2", [2]); (runes "a-1", [1])] = Ok cards2
    /\ omap NotionSpec.cardOk [(runes "a-1", [1]); (runes "b-2", [2])] ≡ₚ cards2.
Proof.
  apply (proj1 (cardsOf_any_order [(runes "a-1", [1]); (runes "b-2", [2])]
                  [(runes "b-2", [2]); (runes "a-1", [1])]
                  (Permutation_swap _ _ _))
           (omap NotionSpec.cardOk [(runes "a-1", [1]); (runes "b-2", [2])])).
  vm_compute. reflexivity.
Defined.

Lemma ByColumn_lists_items_witness :
  (CubecraftHandlers.ByColumn Demo.cubeService Demo.boardEnv (runes "Released") []).1
  = CubecraftHandlers.Items
      (CubecraftHandlers.itemOut
         <$> Cubecraft.filteredItems (Cubecraft.ranges Demo.boardEnv) (ToLower (runes "Released")) [] Demo.board).
Proof.
  apply (ByColumn_lists_items Demo.cubeService Demo.boardEnv (runes "Released") [] Demo.board
           (Cubecraft.Fetch (Cubecraft.service.client Demo.cubeService)
              (Cubecraft.fetched Demo.boardEnv)).2).
  - reflexivity.
  - exists [runes "Released"]. vm_compute. reflexivity.
  - vm_compute. congruence.
Defined.

End CubecraftRuns.
